(** * mysql-replicator: schema diff, dependency scheduling and executor

    A shallow embedding of [src/structure_analyzer.py],
    [src/src/managers/database_manager.py] and [src/src/core/replicator.py].

    Python values are modelled as follows.
    - [str] is [string], the bytes of its UTF-8 encoding; a [list] is a
      [list]; [None]-able values are [option].
    - A [dict] is an association list in insertion order (Python dicts keep
      the position of the first insertion of a key and the value of the last).
    - A [set] is a [gset]; the order in which Python walks a set is not
      specified, so it is a parameter ([set_iter]) of every definition that
      iterates over one.
    - The rows returned by [DESCRIBE], by the key-column-usage view and by
      [SHOW INDEX] are records with the fields the code reads.
    - Methods that talk to a server are computations in a state-and-exception
      monad over the two database states and a journal of what was logged,
      what was sent to a server and which executor helper was running. *)

From Stdlib Require Import Ascii String.
From stdpp Require Import gmap strings list sets pretty.

Open Scope string_scope.
Open Scope list_scope.

(** ** Python strings *)

Module PyStr.

(** [needle in hay] on strings. *)
Fixpoint contains (needle hay : string) : bool :=
  String.prefix needle hay ||
  match hay with
  | EmptyString => false
  | String _ hay' => contains needle hay'
  end.

Definition newline : ascii := Ascii.ascii_of_nat 10.

(** [s.split('\n')]: never empty, [''.split('\n') == ['']]. *)
Fixpoint split_lines (s : string) : list string :=
  match s with
  | EmptyString => [""]
  | String c s' =>
      if bool_decide (c = newline) then "" :: split_lines s'
      else match split_lines s' with
           | [] => [String c ""]
           | w :: ws => String c w :: ws
           end
  end.

(** ['\n'.join(lines)]. *)
Fixpoint join_lines (lines : list string) : string :=
  match lines with
  | [] => ""
  | [l] => l
  | l :: ls => l +:+ String newline (join_lines ls)
  end.

(** [sep.join(items)]. *)
Fixpoint join (sep : string) (items : list string) : string :=
  match items with
  | [] => ""
  | [x] => x
  | x :: xs => x +:+ sep +:+ join sep xs
  end.

(** The UTF-8 bytes of a character, from its code point. *)
Definition utf8 (code_point : N) : string :=
  let byte (n : N) : ascii := Ascii.ascii_of_N n in
  let tail (n : N) : ascii := byte (128 + n mod 64)%N in
  if (code_point <? 128)%N then String (byte code_point) ""
  else if (code_point <? 2048)%N then
    String (byte (192 + code_point / 64)%N) (String (tail code_point) "")
  else if (code_point <? 65536)%N then
    String (byte (224 + code_point / 4096)%N)
      (String (tail (code_point / 64)%N) (String (tail code_point) ""))
  else
    String (byte (240 + code_point / 262144)%N)
      (String (tail (code_point / 4096)%N)
         (String (tail (code_point / 64)%N) (String (tail code_point) ""))).

(** White space as [str.strip()] and the class [\s] of [re] see it in a
    [str]: the characters for which [str.isspace()] holds.  They are TAB,
    LF, VT, FF, CR, the separators 28 to 31 and the space; NEL (U+0085) and
    the no-break space (U+00A0); the Ogham space mark (U+1680); the spaces
    U+2000 to U+200A; the line and paragraph separators (U+2028, U+2029);
    the narrow no-break space (U+202F), the medium mathematical space
    (U+205F) and the ideographic space (U+3000). *)
Definition whitespace_code_points : list N :=
  [9; 10; 11; 12; 13; 28; 29; 30; 31; 32; 133; 160; 5760;
   8192; 8193; 8194; 8195; 8196; 8197; 8198; 8199; 8200; 8201; 8202;
   8232; 8233; 8239; 8287; 12288]%N.

Definition whitespace : list string := utf8 <$> whitespace_code_points.

(** What follows [p] in [s], when [s] starts with [p]. *)
Fixpoint after (p s : string) : option string :=
  match p, s with
  | EmptyString, _ => Some s
  | String a p', String b s' => if bool_decide (a = b) then after p' s' else None
  | String _ _, EmptyString => None
  end.

(** What follows the white-space character [s] starts with, if it starts
    with one. *)
Definition skip_space (s : string) : option string :=
  head (omap (λ space, after space s) whitespace).

(** [s.lstrip()].  Every character dropped takes a byte at least, so the
    length of [s] is fuel enough. *)
Fixpoint lstrip_from (fuel : nat) (s : string) : string :=
  match fuel with
  | O => s
  | S fuel' =>
      match skip_space s with
      | Some s' => lstrip_from fuel' s'
      | None => s
      end
  end.

Definition lstrip (s : string) : string := lstrip_from (String.length s) s.

(** [s.rstrip()]: what comes before the longest end of [s] that is white
    space throughout.  Such an end starts where a character starts, since
    white space starts with an ASCII byte or with the first byte of a
    longer character, and no such byte occurs inside a character. *)
Fixpoint rstrip (s : string) : string :=
  match s with
  | EmptyString => ""
  | String c s' => if bool_decide (lstrip s = "") then "" else String c (rstrip s')
  end.

Definition strip (s : string) : string := rstrip (lstrip s).

(** The number of bytes of white space [s] starts with. *)
Definition count_space (s : string) : nat :=
  (String.length s - String.length (lstrip s))%nat.

(** [re.sub(',\s*' + close, close, s)] for a single character [close] that
    is not white space: scan left to right; at a comma followed by white
    space and then [close], emit [close] and resume after the match.
    [skip] counts the bytes of the current match still to be dropped. *)
Fixpoint sub_comma (close : ascii) (s : string) (skip : nat) : string :=
  match s with
  | EmptyString => ""
  | String c s' =>
      match skip with
      | S k => sub_comma close s' k
      | O =>
          if bool_decide (c = ","%char) then
            match lstrip s' with
            | String d _ =>
                if bool_decide (d = close)
                then String close (sub_comma close s' (S (count_space s')))
                else String c (sub_comma close s' 0%nat)
            | EmptyString => String c (sub_comma close s' 0%nat)
            end
          else String c (sub_comma close s' 0%nat)
      end
  end.

(** [x.lower()] on ASCII letters. *)
Definition lower_char (c : ascii) : ascii :=
  let n := Ascii.nat_of_ascii c in
  if ((65 <=? n) && (n <=? 90))%nat then Ascii.ascii_of_nat (n + 32)%nat else c.

Fixpoint lower (s : string) : string :=
  match s with
  | EmptyString => ""
  | String c s' => String (lower_char c) (lower s')
  end.


(** [c in s], for a character. *)
Fixpoint has_char (c : ascii) (s : string) : bool :=
  match s with
  | EmptyString => false
  | String x s' => bool_decide (x = c) || has_char c s'
  end.

(** A byte that is part of no white-space character. *)
Definition solid (c : ascii) : bool :=
  negb (existsb (has_char c) whitespace).

(** A string with no solid byte, as white space is. *)
Fixpoint hollow (s : string) : bool :=
  match s with
  | EmptyString => true
  | String c s' => negb (solid c) && hollow s'
  end.

(** A string that starts, or ends, with a solid byte. *)
Definition starts_solid (s : string) : bool :=
  match s with
  | EmptyString => false
  | String c _ => solid c
  end.

Fixpoint ends_solid (s : string) : bool :=
  match s with
  | EmptyString => false
  | String c EmptyString => solid c
  | String _ s' => ends_solid s'
  end.
End PyStr.

(** ** Python dicts, in insertion order *)

Module PyDict.
Section Dict.
Context {V : Type}.

Definition dict := list (string * V).

Fixpoint get (d : dict) (k : string) : option V :=
  match d with
  | [] => None
  | (k', v) :: d' => if bool_decide (k' = k) then Some v else get d' k
  end.

Definition has (d : dict) (k : string) : bool :=
  match get d k with Some _ => true | None => false end.

(** [d[k] = v] *)
Fixpoint set (d : dict) (k : string) (v : V) : dict :=
  match d with
  | [] => [(k, v)]
  | (k', v') :: d' =>
      if bool_decide (k' = k) then (k', v) :: d' else (k', v') :: set d' k v
  end.

Definition keys (d : dict) : list string := d.*1.
End Dict.
Arguments dict : clear implicits.
End PyDict.

(** ** Iteration order of Python sets *)

Class SetIter := set_iter : ∀ `{Countable A}, gset A → list A.

(** Whatever the order, walking a set visits each element once. *)
Class SetIterLaws `{SetIter} :=
  set_iter_perm : ∀ `{Countable A} (s : gset A), set_iter s ≡ₚ elements s.

(** ** Data model: the metadata rows *)

(** A row of [DESCRIBE table]. *)
Record Column := {
  Field : string;
  Type_ : string;
  Null : string;
  Key : string;
  Default : option string;
  Extra : string
}.

(** A row of [INFORMATION_SCHEMA.KEY_COLUMN_USAGE]. *)
Record ForeignKey := {
  COLUMN_NAME : string;
  REFERENCED_TABLE_NAME : string;
  REFERENCED_COLUMN_NAME : string;
  CONSTRAINT_NAME : string
}.

(** A row of [SHOW INDEX FROM table]. *)
Record IndexRow := {
  Key_name : string;
  Non_unique : Z;
  Seq_in_index : Z;
  Column_name : string
}.

#[global] Instance Column_eq_dec : EqDecision Column.
Proof. solve_decision. Defined.
#[global] Instance ForeignKey_eq_dec : EqDecision ForeignKey.
Proof. solve_decision. Defined.
#[global] Instance IndexRow_eq_dec : EqDecision IndexRow.
Proof. solve_decision. Defined.

(** The records of the difference lists, one constructor per ['type'] tag. *)
Inductive Difference :=
| missing_column (column : string) (source_definition : Column)
| extra_column (column : string) (target_definition : Column)
| type_difference (column source_type target_type : string)
| null_difference (column source_null target_null : string)
| default_difference (column : string) (source_default target_default : option string)
| column_order_difference (source_order target_order : list string)
| missing_foreign_key (column referenced_table referenced_column : string)
| extra_foreign_key (column referenced_table referenced_column : string)
| missing_index (index_name : string) (index_definition : list IndexRow)
| extra_index (index_name : string) (index_definition : list IndexRow).

(** ** StructureAnalyzer: the three comparisons *)

Module StructureAnalyzer.

(** [{col['Field']: col for col in rows}] *)
Definition cols_by_field (rows : list Column) : PyDict.dict Column :=
  fold_left (λ d col, PyDict.set d (Field col) col) rows [].

(** The record [make] builds of [d[k]], where [k] is a key of [d]; the
    [KeyError] case does not arise, as [k] is always taken from the keys. *)
Definition item {V} (d : PyDict.dict V) (k : string) (make : V → Difference)
  : list Difference :=
  match PyDict.get d k with
  | Some v => [make v]
  | None => []
  end.

(** The differences of one column that both sides have. *)
Definition column_differences (col_name : string) (source_col target_col : Column)
  : list Difference :=
  (if bool_decide (Type_ source_col ≠ Type_ target_col)
   then [type_difference col_name (Type_ source_col) (Type_ target_col)]
   else [])
  ++ (if bool_decide (Null source_col ≠ Null target_col)
      then [null_difference col_name (Null source_col) (Null target_col)]
      else [])
  ++ (if bool_decide (Default source_col ≠ Default target_col)
      then [default_difference col_name (Default source_col) (Default target_col)]
      else []).

Definition _compare_structures (source target : list Column) : list Difference :=
  let source_cols := cols_by_field source in
  let target_cols := cols_by_field target in
  let missing :=
    flat_map (λ col_name,
                if PyDict.has target_cols col_name then []
                else item source_cols col_name (missing_column col_name))
             (PyDict.keys source_cols) in
  let extra :=
    flat_map (λ col_name,
                if PyDict.has source_cols col_name then []
                else item target_cols col_name (extra_column col_name))
             (PyDict.keys target_cols) in
  let common :=
    flat_map (λ col_name,
                match PyDict.get source_cols col_name, PyDict.get target_cols col_name with
                | Some source_col, Some target_col =>
                    column_differences col_name source_col target_col
                | _, _ => []
                end)
             (PyDict.keys source_cols) in
  let source_order := Field <$> source in
  let target_order := Field <$> target in
  missing ++ extra ++ common
  ++ (if bool_decide (source_order ≠ target_order)
      then [column_order_difference source_order target_order]
      else []).

Definition fk_key : Type := string * string * string.

Definition fk_triple (fk : ForeignKey) : fk_key :=
  (COLUMN_NAME fk, REFERENCED_TABLE_NAME fk, REFERENCED_COLUMN_NAME fk).

Definition fk_set (fks : list ForeignKey) : gset fk_key :=
  list_to_set (fk_triple <$> fks).

Definition _compare_foreign_keys `{SetIter} (source target : list ForeignKey)
  : list Difference :=
  let source_fks := fk_set source in
  let target_fks := fk_set target in
  ((λ fk : fk_key, missing_foreign_key fk.1.1 fk.1.2 fk.2)
     <$> set_iter (source_fks ∖ target_fks))
  ++ ((λ fk : fk_key, extra_foreign_key fk.1.1 fk.1.2 fk.2)
        <$> set_iter (target_fks ∖ source_fks)).

(** Group the rows of [SHOW INDEX] by [Key_name]. *)
Definition group_by_key_name (rows : list IndexRow) : PyDict.dict (list IndexRow) :=
  fold_left
    (λ d idx,
       let d := if PyDict.has d (Key_name idx) then d
                else PyDict.set d (Key_name idx) [] in
       PyDict.set d (Key_name idx) (default [] (PyDict.get d (Key_name idx)) ++ [idx]))
    rows [].

Definition _compare_indexes (source target : list IndexRow) : list Difference :=
  let source_indexes := group_by_key_name source in
  let target_indexes := group_by_key_name target in
  flat_map (λ index_name,
              if PyDict.has target_indexes index_name then []
              else item source_indexes index_name (missing_index index_name))
           (PyDict.keys source_indexes)
  ++ flat_map (λ index_name,
                 if PyDict.has source_indexes index_name then []
                 else item target_indexes index_name (extra_index index_name))
              (PyDict.keys target_indexes).

(** The keys of [d] that [d'] lacks, in the order of [d]. *)
Definition only_in {V W} (d : PyDict.dict V) (d' : PyDict.dict W) : list string :=
  flat_map (λ k, if PyDict.has d' k then [] else [k]) (PyDict.keys d).

(** What a difference list reports, by kind. *)
Definition missing_columns (l : list Difference) : list string :=
  flat_map (λ d, match d with missing_column c _ => [c] | _ => [] end) l.

Definition extra_columns (l : list Difference) : list string :=
  flat_map (λ d, match d with extra_column c _ => [c] | _ => [] end) l.

Definition missing_foreign_keys (l : list Difference) : list fk_key :=
  flat_map (λ d, match d with missing_foreign_key c t r => [(c, t, r)] | _ => [] end) l.

Definition extra_foreign_keys (l : list Difference) : list fk_key :=
  flat_map (λ d, match d with extra_foreign_key c t r => [(c, t, r)] | _ => [] end) l.

Definition missing_indexes (l : list Difference) : list string :=
  flat_map (λ d, match d with missing_index n _ => [n] | _ => [] end) l.

Definition extra_indexes (l : list Difference) : list string :=
  flat_map (λ d, match d with extra_index n _ => [n] | _ => [] end) l.

(** What [_compare_structures] reads of a row of [DESCRIBE]. *)
Definition compared (col : Column) : string * string * string * option string :=
  (Field col, Type_ col, Null col, Default col).

(** The name and the type of a column. *)
Definition typed (col : Column) : string * string := (Field col, Type_ col).

(** The rows of [SHOW INDEX] that belong to the index [index_name]. *)
Definition index_rows (index_name : string) (rows : list IndexRow) : list IndexRow :=
  List.filter (λ idx, bool_decide (Key_name idx = index_name)) rows.

End StructureAnalyzer.

(** ** Replicator: the computations that touch no server *)

Module Schedule.

(** [deps] of one table: the referenced tables that are in [tables]. *)
Definition deps_in (tables : list string) (fks : list ForeignKey) : list string :=
  filter (λ t, t ∈ tables) (REFERENCED_TABLE_NAME <$> fks).

(** The [dependencies] dict, given the foreign-key rows of each table. *)
Definition build_dependencies (fks_of : string → list ForeignKey)
    (tables : list string) : PyDict.dict (list string) :=
  fold_left (λ d table, PyDict.set d table (deps_in tables (fks_of table))) tables [].

(** [not any(dep in remaining for dep in deps)] *)
Definition no_pending (remaining : gset string) (deps : list string) : bool :=
  negb (existsb (λ dep, bool_decide (dep ∈ remaining)) deps).

(** The list comprehension [no_deps]; [None] is the [KeyError] of
    [dependencies[table]]. *)
Fixpoint select_no_deps (dependencies : PyDict.dict (list string))
    (remaining : gset string) (walk : list string) : option (list string) :=
  match walk with
  | [] => Some []
  | table :: walk' =>
      deps ← PyDict.get dependencies table;
      rest ← select_no_deps dependencies remaining walk';
      Some (if no_pending remaining deps then table :: rest else rest)
  end.

(** One turn of the loop: the tables appended to [sorted_tables].  When no
    table is free of pending dependencies, the first of [list(remaining)]
    is taken.  [None] is an exception ([KeyError], or [IndexError]). *)
Definition next_round `{SetIter} (dependencies : PyDict.dict (list string))
    (remaining : gset string) : option (list string) :=
  no_deps ← select_no_deps dependencies remaining (set_iter remaining);
  if decide (no_deps = [])
  then (first ← head (set_iter remaining); Some [first])
  else Some no_deps.

(** The [while remaining:] loop.  [None] stands for an exception or for a
    loop that is still running when [fuel] turns are used up. *)
Fixpoint sort_loop `{SetIter} (fuel : nat) (dependencies : PyDict.dict (list string))
    (sorted_tables : list string) (remaining : gset string) : option (list string) :=
  if decide (remaining = ∅) then Some sorted_tables
  else
    match fuel with
    | O => None
    | S fuel' =>
        no_deps ← next_round dependencies remaining;
        sort_loop fuel' dependencies (sorted_tables ++ no_deps)
                  (remaining ∖ list_to_set no_deps)
    end.

(** The body of the [try] of [_sort_tables_by_dependency], once the
    foreign keys of every table have been fetched. *)
Definition sort_tables_by_dependency `{SetIter}
    (fks_of : string → list ForeignKey) (tables : list string) : option (list string) :=
  let dependencies := build_dependencies fks_of tables in
  let remaining : gset string := list_to_set tables in
  sort_loop (size remaining) dependencies [] remaining.

(** [depends fks_of tables t d]: table [t] has a foreign key to the table
    [d] of [tables]. *)
Definition depends (fks_of : string → list ForeignKey) (tables : list string)
    (t d : string) : Prop :=
  d ∈ deps_in tables (fks_of t).

(** [d] comes before [t] in [l]. *)
Definition before (d t : string) (l : list string) : Prop :=
  ∃ l1 l2 l3, l = l1 ++ d :: l2 ++ t :: l3.

(** What the loop keeps, whatever the dependencies are: the tables sorted
    so far are distinct, none of them remains, and together with the
    remaining ones they are the tables given. *)
Definition partitioned (tables sorted : list string) (remaining : gset string) : Prop :=
  NoDup sorted ∧ (∀ t, t ∈ sorted → t ∉ remaining)
  ∧ (∀ t, t ∈ tables ↔ t ∈ sorted ∨ t ∈ remaining).

(** What the loop keeps for a table [T] below which there is no cycle:
    [T] still remains, or it was sorted after all it depends on. *)
Definition ordered (fks_of : string → list ForeignKey) (tables : list string)
    (T : string) (sorted : list string) (remaining : gset string) : Prop :=
  partitioned tables sorted remaining
  ∧ (T ∈ remaining ∨ ∀ d, depends fks_of tables T d → before d T sorted).

End Schedule.

Module Position.

(** [source_columns.index(column_name)] *)
Fixpoint index (column_name : string) (columns : list string) : option nat :=
  match columns with
  | [] => None
  | c :: columns' =>
      if bool_decide (c = column_name) then Some O
      else S <$> index column_name columns'
  end.

(** [for i in range(n - 1, -1, -1)]: the nearest column before position [n]
    of the source order that the target has.  [source_columns[i]] is always
    there, as [i] is below the index of a member. *)
Fixpoint scan_back (source_columns target_columns : list string) (n : nat)
  : option string :=
  match n with
  | O => None
  | S i =>
      match source_columns !! i with
      | Some previous_column =>
          if bool_decide (previous_column ∈ target_columns)
          then Some previous_column
          else scan_back source_columns target_columns i
      | None => None
      end
  end.

(** [_get_column_position] after the two structures have been fetched. *)
Definition column_position (source_columns target_columns : list string)
    (column_name : string) : string :=
  match index column_name source_columns with
  | None => ""
  | Some column_index =>
      if bool_decide (column_index = O) then "FIRST"
      else match scan_back source_columns target_columns column_index with
           | Some previous_column => "AFTER `" +:+ previous_column +:+ "`"
           | None => "FIRST"
           end
  end.

End Position.

(** ** Servers, exceptions and the executor monad *)

(** A fetched data row. *)
Definition Row : Type := list (option string).

(** What a Python call can raise: [mysql.connector.Error] (with its
    subclasses), which the [DatabaseManager] methods catch, or any other
    [Exception], which they let through. *)
Inductive exn :=
| Error (msg : string)
| Exception (msg : string).

(** [str(e)] *)
Definition str (e : exn) : string :=
  match e with Error msg | Exception msg => msg end.

Inductive res (A : Type) :=
| Val (a : A)
| Raise (e : exn).
Arguments Val {A} a.
Arguments Raise {A} e.

(** What one [with get_connection()] block asks a server to change. *)
Inductive request :=
| Execute (query : string)                         (* execute, commit *)
| ExecuteAll (queries : list string)               (* execute each, commit *)
| ExecuteMany (query : string) (batch : list Row)  (* executemany, commit *)
| Truncate (table : string)     (* FOREIGN_KEY_CHECKS off, TRUNCATE, on, commit *)
| DeleteAll (table : string).   (* FOREIGN_KEY_CHECKS off, DELETE FROM, on, commit *)

(** The behaviour of a MySQL server (with the connector in front of it) as
    far as the code observes it.  A read is answered from the current state;
    a request for change yields the next state. *)
Class Server (DB : Type) := {
  select_1 : DB → res unit;
  describe : DB → string → res (list Column);
  key_column_usage : DB → string → res (list ForeignKey);
  show_index : DB → string → res (list IndexRow);
  show_create_table : DB → string → res string;
  select_all : DB → string → res (list Row);
  select_count : DB → string → res Z;
  count_information_schema_tables : DB → string → res Z;
  serve : DB → request → res unit * DB
}.

(** [BackupManager.create_backup], an external collaborator: it reads the
    given database and returns the name of the backup, or raises. *)
Class BackupManager (DB : Type) :=
  create_backup : DB → string → list string → res string.

(** The answer of a server to [SHOW TABLES]: the first field of each row. *)
Class Catalogue (DB : Type) := show_tables : DB → res (list string).

(** The two [DatabaseManager] objects a [Replicator] holds. *)
Inductive conn := source_db | target_db.

Inductive level := info | success | warning | error.

(** The calls the executor makes to its helpers. *)
Inductive call :=
| CreateTable (table : string)
| AlterColumns (table : string)
| ReconcileForeignKeys (table : string)
| ReconcileIndexes (table : string)
| AddMissingForeignKeys (tables : list string)
| ReplicateData (tables : list string).

(** The journal of a run: log lines, requests sent to a server, and marks
    where a helper call starts and where it returns. *)
Inductive event :=
| Log (l : level) (msg : string)
| Sent (c : conn) (r : request)
| Enter (a : call)
| Leave (a : call).

#[global] Instance exn_eq_dec : EqDecision exn.
Proof. solve_decision. Defined.
#[global] Instance request_eq_dec : EqDecision request.
Proof. solve_decision. Defined.
#[global] Instance conn_eq_dec : EqDecision conn.
Proof. solve_decision. Defined.
#[global] Instance level_eq_dec : EqDecision level.
Proof. solve_decision. Defined.
#[global] Instance call_eq_dec : EqDecision call.
Proof. solve_decision. Defined.
#[global] Instance event_eq_dec : EqDecision event.
Proof. solve_decision. Defined.

Section Monad.
Context {DB : Type}.

Record World := {
  source : DB;
  target : DB;
  journal : list event
}.

Definition M (A : Type) : Type := World → res A * World.

Definition ret {A} (a : A) : M A := λ w, (Val a, w).

Definition bind {A B} (m : M A) (k : A → M B) : M B :=
  λ w, match m w with
       | (Val a, w') => k a w'
       | (Raise e, w') => (Raise e, w')
       end.

Definition raise {A} (e : exn) : M A := λ w, (Raise e, w).

(** [try: m  except Exception as e: h e] *)
Definition try_except {A} (m : M A) (h : exn → M A) : M A :=
  λ w, match m w with
       | (Val a, w') => (Val a, w')
       | (Raise e, w') => h e w'
       end.

(** [try: m  except Error as e: h e] *)
Definition try_except_Error {A} (m : M A) (h : exn → M A) : M A :=
  λ w, match m w with
       | (Raise (Error msg), w') => h (Error msg) w'
       | r => r
       end.

(** The world [w] with the events [j] added to its journal. *)
Definition extend (w : World) (j : list event) : World :=
  {| source := source w; target := target w; journal := journal w ++ j |}.

Definition emit (e : event) : M unit := λ w, (Val (), extend w [e]).

Definition logger (l : level) (msg : string) : M unit := emit (Log l msg).

Definition db (c : conn) (w : World) : DB :=
  match c with source_db => source w | target_db => target w end.

Definition set_db (c : conn) (d : DB) (w : World) : World :=
  match c with
  | source_db => {| source := d; target := target w; journal := journal w |}
  | target_db => {| source := source w; target := d; journal := journal w |}
  end.
End Monad.
Arguments World : clear implicits.
Arguments M : clear implicits.
Arguments extend : simpl never.
Arguments set_db : simpl never.

#[global] Instance M_ret {DB} : MRet (M DB) := @ret DB.
#[global] Instance M_bind {DB} : MBind (M DB) := λ A B k m, bind m k.

(** [for x in l: body], where the body may [return] a value. *)
Fixpoint for_ {DB A R} (l : list A) (body : A → M DB (option R)) : M DB (option R) :=
  match l with
  | [] => mret None
  | x :: l' =>
      r ← body x;
      match r with
      | Some v => mret (Some v)
      | None => for_ l' body
      end
  end.

(** [for x in l: acc = body acc x] *)
Fixpoint fold_ {DB A S} (l : list A) (body : S → A → M DB S) (acc : S) : M DB S :=
  match l with
  | [] => mret acc
  | x :: l' => acc' ← body acc x; fold_ l' body acc'
  end.

(** [range(start, stop, step)] for a positive step. *)
Module PyRange.
Fixpoint from (fuel start stop step : nat) : list nat :=
  match fuel with
  | O => []
  | S fuel' =>
      if (start <? stop)%nat then start :: from fuel' (start + step)%nat stop step
      else []
  end.

Definition range (start stop step : nat) : list nat := from stop start stop step.
End PyRange.

(** ** DatabaseManager *)

Module DatabaseManager.
Section Methods.
Context `{Server DB}.

(** One [with self.get_connection() as conn:] block.  The context manager
    logs an [Error] raised while it is open and raises it again. *)
Definition session {A} (c : conn) (body : DB → res A * DB) : M DB A :=
  λ w, let '(r, d) := body (db c w) in (r, set_db c d w).

Definition get_connection {A} (c : conn) (body : DB → res A * DB) : M DB A :=
  try_except_Error (session c body)
    (λ e, logger error ("Erro ao conectar ao banco: " +:+ str e);; raise e).

Definition fetch {A} (c : conn) (q : DB → res A) : M DB A :=
  get_connection c (λ d, (q d, d)).

Definition send (c : conn) (r : request) : M DB unit :=
  emit (Sent c r);; get_connection c (λ d, serve d r).

Definition test_connection (c : conn) : M DB bool :=
  try_except_Error
    (fetch c select_1;; mret true)
    (λ e, logger error ("Erro ao testar conexão: " +:+ str e);; mret false).

Definition get_table_structure (c : conn) (table_name : string) : M DB (list Column) :=
  try_except_Error
    (fetch c (λ d, describe d table_name))
    (λ e, logger error ("Erro ao obter estrutura da tabela " +:+ table_name
                        +:+ ": " +:+ str e);; mret []).

Definition get_table_foreign_keys (c : conn) (table_name : string)
  : M DB (list ForeignKey) :=
  try_except_Error
    (fetch c (λ d, key_column_usage d table_name))
    (λ e, logger error ("Erro ao obter chaves estrangeiras da tabela " +:+ table_name
                        +:+ ": " +:+ str e);; mret []).

Definition get_table_indexes (c : conn) (table_name : string) : M DB (list IndexRow) :=
  try_except_Error
    (fetch c (λ d, show_index d table_name))
    (λ e, logger error ("Erro ao obter índices da tabela " +:+ table_name
                        +:+ ": " +:+ str e);; mret []).

Definition get_create_table_statement (c : conn) (table_name : string) : M DB string :=
  try_except_Error
    (fetch c (λ d, show_create_table d table_name))
    (λ e, logger error ("Erro ao obter CREATE TABLE da tabela " +:+ table_name
                        +:+ ": " +:+ str e);; mret "").

Definition execute_query (c : conn) (query : string) : M DB bool :=
  try_except_Error
    (send c (Execute query);; mret true)
    (λ e, logger error ("Erro ao executar query: " +:+ str e);; mret false).

Definition execute_queries (c : conn) (queries : list string) : M DB bool :=
  try_except_Error
    (send c (ExecuteAll queries);; mret true)
    (λ e, logger error ("Erro ao executar queries: " +:+ str e);; mret false).

Definition get_table_data (c : conn) (table_name : string) : M DB (list Row) :=
  try_except_Error
    (fetch c (λ d, select_all d table_name))
    (λ e, logger error ("Erro ao obter dados da tabela " +:+ table_name
                        +:+ ": " +:+ str e);; mret []).

Definition get_table_count (c : conn) (table_name : string) : M DB Z :=
  try_except_Error
    (fetch c (λ d, select_count d table_name))
    (λ e, logger error ("Erro ao contar registros da tabela " +:+ table_name
                        +:+ ": " +:+ str e);; mret 0%Z).

Definition table_exists (c : conn) (table_name : string) : M DB bool :=
  try_except_Error
    (n ← fetch c (λ d, count_information_schema_tables d table_name);
     mret (bool_decide (0 < n)%Z))
    (λ e, logger error ("Erro ao verificar existência da tabela " +:+ table_name
                        +:+ ": " +:+ str e);; mret false).

(** What [table_exists] answers on a database, when it answers. *)
Definition reported_present (d : DB) (table_name : string) : Prop :=
  ∃ n, count_information_schema_tables d table_name = Val n ∧ (0 < n)%Z.

Definition reported_missing (d : DB) (table_name : string) : Prop :=
  (∃ n, count_information_schema_tables d table_name = Val n ∧ (n ≤ 0)%Z)
  ∨ (∃ msg, count_information_schema_tables d table_name = Raise (Error msg)).

Definition truncate_table (c : conn) (table_name : string) : M DB bool :=
  try_except_Error
    (send c (Truncate table_name);; mret true)
    (λ _, try_except_Error
            (send c (DeleteAll table_name);; mret true)
            (λ e2, logger error ("Erro ao limpar tabela " +:+ table_name
                                 +:+ ": " +:+ str e2);; mret false)).

Context `{Catalogue DB}.

Definition get_all_tables (c : conn) : M DB (list string) :=
  try_except_Error (fetch c show_tables)
    (λ e, logger error ("Erro ao obter tabelas: " +:+ str e);; mret []).

Definition copy_table_data (c : conn) (source_table dest_table : string)
    (columns : list string) : M DB bool :=
  try_except_Error
    (let columns_str := PyStr.join ", " columns in
     send c (Execute ("INSERT INTO " +:+ dest_table +:+ " (" +:+ columns_str
                      +:+ ") SELECT " +:+ columns_str +:+ " FROM " +:+ source_table));;
     mret true)
    (λ e, logger error ("Erro ao copiar dados da tabela " +:+ source_table +:+ " para "
                        +:+ dest_table +:+ ": " +:+ str e);;
          mret false).
End Methods.
End DatabaseManager.

(** ** StructureAnalyzer: analysis of one table and the replication plan *)

Module Plan.
Record Analysis := {
  table_name : string;
  exists_in_source : bool;
  exists_in_target : bool;
  structure_differences : list Difference;
  foreign_key_differences : list Difference;
  index_differences : list Difference;
  data_count_source : Z;
  data_count_target : Z
}.

(** The actions of a step, one constructor per ['type'] tag. *)
Inductive Action :=
| create_table (description : string)
| alter_table (description : string) (differences : list Difference)
| update_foreign_keys (description : string) (differences : list Difference)
| update_indexes (description : string) (differences : list Difference)
| replicate_data (description : string) (source_count target_count : Z).

Record Step := {
  table : string;
  actions : list Action;
  is_maintain_table : bool
}.
End Plan.

Module Planner.
Import Plan DatabaseManager StructureAnalyzer.
Section Methods.
Context `{Server DB} `{SetIter}.

Definition analyze_table_differences (table_name : string) : M DB Analysis :=
  exists_in_source ← table_exists source_db table_name;
  exists_in_target ← table_exists target_db table_name;
  let unanalysed :=
    {| table_name := table_name;
       exists_in_source := exists_in_source;
       exists_in_target := exists_in_target;
       structure_differences := [];
       foreign_key_differences := [];
       index_differences := [];
       data_count_source := 0;
       data_count_target := 0 |} in
  if negb exists_in_source then
    logger warning ("Tabela " +:+ table_name +:+ " não existe na origem");;
    mret unanalysed
  else if negb exists_in_target then
    logger warning ("Tabela " +:+ table_name +:+ " não existe no destino");;
    mret unanalysed
  else
    source_structure ← get_table_structure source_db table_name;
    target_structure ← get_table_structure target_db table_name;
    source_fks ← get_table_foreign_keys source_db table_name;
    target_fks ← get_table_foreign_keys target_db table_name;
    source_indexes ← get_table_indexes source_db table_name;
    target_indexes ← get_table_indexes target_db table_name;
    data_count_source ← get_table_count source_db table_name;
    data_count_target ← get_table_count target_db table_name;
    mret {| table_name := table_name;
            exists_in_source := exists_in_source;
            exists_in_target := exists_in_target;
            structure_differences :=
              _compare_structures source_structure target_structure;
            foreign_key_differences :=
              _compare_foreign_keys source_fks target_fks;
            index_differences := _compare_indexes source_indexes target_indexes;
            data_count_source := data_count_source;
            data_count_target := data_count_target |}.

(** A non-empty list is true. *)
Definition truthy {A} (l : list A) : bool :=
  match l with [] => false | _ => true end.

(** The actions of the step of one analysed table. *)
Definition step_actions (table_name : string) (maintain_tables : list string)
    (a : Analysis) : list Action :=
  (if negb (exists_in_target a) then
     [create_table ("Criar tabela " +:+ table_name)]
   else
     (if truthy (structure_differences a)
      then [alter_table ("Alterar estrutura da tabela " +:+ table_name)
                        (structure_differences a)]
      else [])
     ++ (if truthy (foreign_key_differences a)
         then [update_foreign_keys
                 ("Atualizar chaves estrangeiras da tabela " +:+ table_name)
                 (foreign_key_differences a)]
         else [])
     ++ (if truthy (index_differences a)
         then [update_indexes ("Atualizar índices da tabela " +:+ table_name)
                              (index_differences a)]
         else []))
  ++ (if bool_decide (table_name ∈ maintain_tables)
      then [replicate_data ("Replicar dados da tabela " +:+ table_name)
                           (data_count_source a) (data_count_target a)]
      else []).

Definition get_replication_plan (table_names maintain_tables : list string)
  : M DB (list Step) :=
  fold_ table_names
    (λ plan table_name,
       table_analysis ← analyze_table_differences table_name;
       if negb (exists_in_source table_analysis) then mret plan
       else
         let step :=
           {| table := table_name;
              actions := step_actions table_name maintain_tables table_analysis;
              is_maintain_table := bool_decide (table_name ∈ maintain_tables) |} in
         mret (if truthy (actions step) then plan ++ [step] else plan))
    [].

(** The dict [analyze_all_tables] returns. *)
Record Summary := {
  total_tables : nat;
  tables_analyzed : nat;
  tables_with_differences : nat;
  table_analyses : PyDict.dict Analysis
}.

(** [has_differences] of [analyze_all_tables], as the [if] reads it. *)
Definition has_differences (table_name : string) (maintain_tables : list string)
    (table_analysis : Analysis) : bool :=
  let has_differences :=
    negb (exists_in_target table_analysis)
    || truthy (structure_differences table_analysis)
    || truthy (foreign_key_differences table_analysis)
    || truthy (index_differences table_analysis) in
  if bool_decide (table_name ∈ maintain_tables)
  then has_differences
       || bool_decide (data_count_source table_analysis
                       ≠ data_count_target table_analysis)
  else has_differences.

Definition analyze_all_tables (table_names maintain_tables : list string)
  : M DB Summary :=
  fold_ table_names
    (λ analysis table_name,
       logger info ("Analisando tabela: " +:+ table_name);;
       table_analysis ← analyze_table_differences table_name;
       mret {| total_tables := total_tables analysis;
               tables_analyzed := S (tables_analyzed analysis);
               tables_with_differences :=
                 if has_differences table_name maintain_tables table_analysis
                 then S (tables_with_differences analysis)
                 else tables_with_differences analysis;
               table_analyses :=
                 PyDict.set (table_analyses analysis) table_name table_analysis |})
    {| total_tables := length table_names;
       tables_analyzed := 0;
       tables_with_differences := 0;
       table_analyses := [] |}.
End Methods.
End Planner.

(** ** Replicator *)

Module Replicator.
Import Plan DatabaseManager StructureAnalyzer Planner.
Section Methods.
Context `{Server DB} `{BackupManager DB} `{SetIter}.

(** A helper call of the executor, marked in the journal. *)
Definition calling {A} (a : call) (m : M DB A) : M DB A :=
  emit (Enter a);; r ← m; emit (Leave a);; mret r.

Definition _sort_tables_by_dependency (tables : list string) : M DB (list string) :=
  try_except
    (dependencies ←
       fold_ tables
         (λ dependencies table,
            fks ← get_table_foreign_keys source_db table;
            mret (PyDict.set dependencies table (Schedule.deps_in tables fks)))
         [];
     let remaining : gset string := list_to_set tables in
     match Schedule.sort_loop (size remaining) dependencies [] remaining with
     | Some sorted_tables => mret sorted_tables
     | None => raise (Exception "list index out of range")
     end)
    (λ e, logger warning ("Erro ao ordenar tabelas por dependência: " +:+ str e);;
          mret tables).

Definition _get_column_position (table_name column_name : string) : M DB string :=
  try_except
    (source_structure ← get_table_structure source_db table_name;
     let source_columns := Field <$> source_structure in
     target_structure ← get_table_structure target_db table_name;
     let target_columns := Field <$> target_structure in
     mret (Position.column_position source_columns target_columns column_name))
    (λ e, logger warning ("Erro ao determinar posição da coluna " +:+ column_name
                          +:+ ": " +:+ str e);;
          mret "").

(** The lines that [_create_table_without_foreign_keys] drops. *)
Definition is_foreign_key_line (line : string) : bool :=
  let line_stripped := PyStr.strip line in
  PyStr.contains "FOREIGN KEY" line_stripped
  || (PyStr.contains "CONSTRAINT" line_stripped
      && PyStr.contains "FOREIGN KEY" line_stripped).

(** The statement [_create_table_without_foreign_keys] sends. *)
Definition without_foreign_keys (original_statement : string) : string :=
  let lines := PyStr.split_lines original_statement in
  let filtered_lines := List.filter (λ line, negb (is_foreign_key_line line)) lines in
  let modified_statement := PyStr.join_lines filtered_lines in
  let modified_statement := PyStr.sub_comma ")" modified_statement 0 in
  PyStr.sub_comma "," modified_statement 0.

Definition _create_table_without_foreign_keys (table_name original_statement : string)
  : M DB bool :=
  try_except
    (ok ← execute_query target_db (without_foreign_keys original_statement);
     if ok : bool then
       logger success ("Tabela " +:+ table_name
                       +:+ " criada no destino (sem chaves estrangeiras)");;
       mret true
     else
       logger error ("Erro ao criar tabela " +:+ table_name
                     +:+ " sem chaves estrangeiras");;
       mret false)
    (λ e, logger error ("Erro ao criar tabela " +:+ table_name
                        +:+ " sem chaves estrangeiras: " +:+ str e);;
          mret false).

Definition _create_table (table_name : string) : M DB bool :=
  try_except
    (create_statement ← get_create_table_statement source_db table_name;
     if bool_decide (create_statement = "") then
       logger error ("Não foi possível obter CREATE TABLE para " +:+ table_name);;
       mret false
     else
       returned ←
         try_except
           (ok ← execute_query target_db create_statement;
            if ok : bool then
              logger success ("Tabela " +:+ table_name +:+ " criada no destino");;
              mret (Some true)
            else mret None)
           (λ e, if PyStr.contains "Foreign key constraint" (str e) then
                   logger warning ("Erro de chave estrangeira ao criar " +:+ table_name
                                   +:+ ", tentando sem constraints");;
                   created ← _create_table_without_foreign_keys table_name
                               create_statement;
                   mret (Some created)
                 else raise e);
       mret (default false returned))
    (λ e, logger error ("Erro ao criar tabela " +:+ table_name +:+ ": " +:+ str e);;
          mret false).

(** The [ADD COLUMN] statement of a missing column, before its position. *)
Definition add_column_query (table_name : string) (col_def : Column) : string :=
  let query := "ALTER TABLE " +:+ table_name +:+ " ADD COLUMN `" +:+ Field col_def
               +:+ "` " +:+ Type_ col_def in
  let query := if bool_decide (Null col_def = "NO") then query +:+ " NOT NULL"
               else query in
  let query :=
    match Default col_def with
    | Some default_val =>
        if bool_decide (PyStr.lower default_val ∈ ["current_timestamp()"; "now()"])
        then query +:+ " DEFAULT " +:+ default_val
        else query +:+ " DEFAULT '" +:+ default_val +:+ "'"
    | None => query
    end in
  if bool_decide (Extra col_def ≠ "") then query +:+ " " +:+ Extra col_def else query.

Definition _alter_table (table_name : string) (differences : list Difference)
  : M DB bool :=
  try_except
    (alter_queries ←
       fold_ differences
         (λ alter_queries diff,
            match diff with
            | missing_column _ col_def =>
                let query := add_column_query table_name col_def in
                position ← _get_column_position table_name (Field col_def);
                let query := if bool_decide (position ≠ "")
                             then query +:+ " " +:+ position else query in
                mret (alter_queries ++ [query])
            | extra_column col_name _ =>
                mret (alter_queries
                      ++ ["ALTER TABLE " +:+ table_name +:+ " DROP COLUMN `"
                          +:+ col_name +:+ "`"])
            | type_difference col_name source_type _ =>
                mret (alter_queries
                      ++ ["ALTER TABLE " +:+ table_name +:+ " MODIFY COLUMN `"
                          +:+ col_name +:+ "` " +:+ source_type])
            | column_order_difference _ _ =>
                logger warning
                  ("Ordem das colunas diferente em " +:+ table_name
                   +:+ ", mas será ignorada para evitar problemas com chaves estrangeiras");;
                mret alter_queries
            | _ => mret alter_queries
            end)
         [];
     failed ←
       (if truthy alter_queries then
          logger info ("Executando " +:+ pretty (length alter_queries)
                       +:+ " alterações na tabela " +:+ table_name);;
          ok ← execute_queries target_db alter_queries;
          if ok : bool then mret false
          else logger error ("Erro ao alterar tabela " +:+ table_name);; mret true
        else mret false);
     if failed : bool then mret false
     else
       logger success ("Estrutura da tabela " +:+ table_name +:+ " alterada");;
       mret true)
    (λ e, logger error ("Erro ao alterar tabela " +:+ table_name +:+ ": " +:+ str e);;
          mret false).

Definition _update_foreign_keys (table_name : string) (differences : list Difference)
  : M DB bool :=
  try_except
    (queries ←
       fold_ differences
         (λ queries diff,
            match diff with
            | missing_foreign_key column ref_table ref_column =>
                let constraint_name := "fk_" +:+ table_name +:+ "_" +:+ column in
                mret (queries
                      ++ ["ALTER TABLE " +:+ table_name +:+ " ADD CONSTRAINT "
                          +:+ constraint_name +:+ " FOREIGN KEY (" +:+ column
                          +:+ ") REFERENCES " +:+ ref_table +:+ "(" +:+ ref_column
                          +:+ ")"])
            | extra_foreign_key column ref_table ref_column =>
                fks ← get_table_foreign_keys target_db table_name;
                match List.find (λ fk, bool_decide (fk_triple fk
                                                    = (column, ref_table, ref_column)))
                                fks with
                | Some fk =>
                    mret (queries
                          ++ ["ALTER TABLE " +:+ table_name +:+ " DROP FOREIGN KEY "
                              +:+ CONSTRAINT_NAME fk])
                | None => mret queries
                end
            | _ => mret queries
            end)
         [];
     if truthy queries then
       ok ← execute_queries target_db queries;
       if ok : bool then mret true
       else
         logger error ("Erro ao atualizar chaves estrangeiras da tabela "
                       +:+ table_name);;
         mret false
     else mret true)
    (λ e, logger error ("Erro ao atualizar chaves estrangeiras da tabela "
                        +:+ table_name +:+ ": " +:+ str e);;
          mret false).

(** The statement that creates a missing index from a row of the source. *)
Definition create_index_query (table_name index_name : string) (idx : IndexRow)
  : string :=
  if bool_decide (Non_unique idx = 0%Z)
  then "CREATE UNIQUE INDEX " +:+ index_name +:+ " ON " +:+ table_name
       +:+ " (" +:+ Column_name idx +:+ ")"
  else "CREATE INDEX " +:+ index_name +:+ " ON " +:+ table_name
       +:+ " (" +:+ Column_name idx +:+ ")".

Definition _update_indexes (table_name : string) (differences : list Difference)
  : M DB bool :=
  try_except
    (queries ←
       fold_ differences
         (λ queries diff,
            match diff with
            | missing_index index_name _ =>
                if bool_decide (index_name ≠ "PRIMARY") then
                  source_indexes ← get_table_indexes source_db table_name;
                  match List.find (λ idx, bool_decide (Key_name idx = index_name))
                                  source_indexes with
                  | Some idx =>
                      mret (queries ++ [create_index_query table_name index_name idx])
                  | None => mret queries
                  end
                else mret queries
            | extra_index index_name _ =>
                if bool_decide (index_name ≠ "PRIMARY") then
                  mret (queries
                        ++ ["DROP INDEX " +:+ index_name +:+ " ON " +:+ table_name])
                else mret queries
            | _ => mret queries
            end)
         [];
     if truthy queries then
       ok ← execute_queries target_db queries;
       if ok : bool then mret true
       else
         logger error ("Erro ao atualizar índices da tabela " +:+ table_name);;
         mret false
     else mret true)
    (λ e, logger error ("Erro ao atualizar índices da tabela " +:+ table_name
                        +:+ ": " +:+ str e);;
          mret false).

(** The [INSERT] statement of [_insert_data]. *)
Definition insert_query (table_name : string) (columns : list string) : string :=
  let columns_str := PyStr.join ", " ((λ col, "`" +:+ col +:+ "`") <$> columns) in
  let placeholders := PyStr.join ", " (replicate (length columns) "%s") in
  "INSERT INTO " +:+ table_name +:+ " (" +:+ columns_str
  +:+ ") VALUES (" +:+ placeholders +:+ ")".

(** One turn of the loop of [_insert_data]: a batch in a connection of
    its own, committed; [Some false] is [return False]. *)
Definition insert_batch (table_name query : string) (batch : list Row)
  : M DB (option bool) :=
  try_except
    (send target_db (ExecuteMany query batch);; mret None)
    (λ e, logger error ("Erro ao inserir lote de dados na tabela "
                        +:+ table_name +:+ ": " +:+ str e);;
          mret (Some false)).

(** [_insert_data] with its [batch_size] as a parameter. *)
Definition insert_in_batches (batch_size : nat) (table_name : string)
    (columns : list string) (data : list Row) : M DB bool :=
  try_except
    (if negb (truthy data) then mret true
     else
       let query := insert_query table_name columns in
       returned ←
         for_ (PyRange.range 0 (length data) batch_size)
           (λ i, let batch := take batch_size (drop i data) in
                 insert_batch table_name query batch);
       mret (default true returned))
    (λ e, logger error ("Erro ao inserir dados na tabela " +:+ table_name
                        +:+ ": " +:+ str e);;
          mret false).

Definition _insert_data : string → list string → list Row → M DB bool :=
  insert_in_batches 1000.

Definition _add_missing_foreign_keys (tables : list string) : M DB bool :=
  try_except
    (fold_ tables
       (λ _ table_name,
          source_fks ← get_table_foreign_keys source_db table_name;
          target_fks ← get_table_foreign_keys target_db table_name;
          let missing_fks := fk_set source_fks ∖ fk_set target_fks in
          if bool_decide (missing_fks ≠ ∅) then
            logger info ("Adicionando " +:+ pretty (size missing_fks)
                         +:+ " chaves estrangeiras para " +:+ table_name);;
            fold_ (set_iter missing_fks)
              (λ _ '(column, ref_table, ref_column),
                 referenced ← table_exists target_db ref_table;
                 if referenced : bool then
                   let constraint_name := "fk_" +:+ table_name +:+ "_" +:+ column
                                          +:+ "_" +:+ ref_table in
                   let query := "ALTER TABLE " +:+ table_name +:+ " ADD CONSTRAINT "
                                +:+ constraint_name +:+ " FOREIGN KEY (" +:+ column
                                +:+ ") REFERENCES " +:+ ref_table +:+ "("
                                +:+ ref_column +:+ ")" in
                   try_except
                     (execute_query target_db query;;
                      logger info ("Chave estrangeira adicionada: " +:+ table_name
                                   +:+ "." +:+ column +:+ " -> " +:+ ref_table
                                   +:+ "." +:+ ref_column))
                     (λ e, logger warning
                             ("Erro ao adicionar chave estrangeira " +:+ table_name
                              +:+ "." +:+ column +:+ " -> " +:+ ref_table +:+ "."
                              +:+ ref_column +:+ ": " +:+ str e))
                 else
                   logger warning ("Tabela referenciada " +:+ ref_table
                                   +:+ " não existe, pulando chave estrangeira"))
              ()
          else mret ())
       ();;
     mret true)
    (λ e, logger error ("Erro ao adicionar chaves estrangeiras: " +:+ str e);;
          mret false).

(** The two lists [replicate_structure] splits a plan into. *)
Definition tables_to_create (plan : list Step) : list string :=
  flat_map (λ step,
              flat_map (λ action, match action with
                                  | create_table _ => [table step]
                                  | _ => []
                                  end) (actions step)) plan.

Definition tables_to_alter (plan : list Step) : list (string * Action) :=
  flat_map (λ step,
              flat_map (λ action, match action with
                                  | alter_table _ _ | update_foreign_keys _ _
                                  | update_indexes _ _ => [(table step, action)]
                                  | _ => []
                                  end) (actions step)) plan.

(** [replicate_structure] from the point where it holds the plan. *)
Definition apply_plan (plan : list Step) : M DB bool :=
  let to_alter := tables_to_alter plan in
  to_create ← (if truthy (tables_to_create plan)
               then _sort_tables_by_dependency (tables_to_create plan)
               else mret (tables_to_create plan));
  logger info "Criando tabelas...";;
  fold_ to_create
    (λ _ table_name,
       logger info ("Criando tabela: " +:+ table_name);;
       calling (CreateTable table_name) (_create_table table_name);;
       mret ())
    ();;
  logger info "Aplicando alterações estruturais...";;
  fold_ to_alter
    (λ _ '(table_name, action),
       logger info ("Alterando estrutura da tabela: " +:+ table_name);;
       match action with
       | alter_table _ differences =>
           calling (AlterColumns table_name)
                   (_alter_table table_name differences);;
           mret ()
       | update_foreign_keys _ differences =>
           calling (ReconcileForeignKeys table_name)
                   (_update_foreign_keys table_name differences);;
           mret ()
       | update_indexes _ differences =>
           calling (ReconcileIndexes table_name)
                   (_update_indexes table_name differences);;
           mret ()
       | _ => mret ()
       end)
    ();;
  logger info "Adicionando chaves estrangeiras pendentes...";;
  calling (AddMissingForeignKeys to_create) (_add_missing_foreign_keys to_create);;
  logger success "Replicação de estrutura concluída";;
  mret true.

Definition replicate_structure (tables maintain_tables : list string)
    (with_backup : bool) : M DB bool :=
  try_except
    (logger info "Iniciando replicação de estrutura";;
     (if with_backup then
        logger info "Criando backup antes da replicação";;
        session target_db (λ d, (create_backup d "production" tables, d));;
        mret ()
      else mret ());;
     plan ← get_replication_plan tables maintain_tables;
     apply_plan plan)
    (λ e, logger error ("Erro na replicação de estrutura: " +:+ str e);;
          mret false).

(** The order in which the tables of the create phase are taken, in the
    world [w] that [replicate_structure] is in once it holds the plan. *)
Definition create_order (w : World DB) (plan : list Step) (order : list string) : Prop :=
  (tables_to_create plan = [] ∧ order = [])
  ∨ ∃ w', _sort_tables_by_dependency (tables_to_create plan) w = (Val order, w').

(** The batches [_insert_data] cuts [data] into. *)
Definition batches (batch_size : nat) (data : list Row) : list (list Row) :=
  (λ i, take batch_size (drop i data)) <$> PyRange.range 0 (length data) batch_size.

(** The world in which the copy starts once the target table is cleared. *)
Definition cleared (table_name : string) (d1 : DB) (w : World DB) : World DB :=
  extend (set_db target_db d1 w)
    [Log info ("Limpando tabela " +:+ table_name +:+ " no destino");
     Sent target_db (Truncate table_name);
     Log info ("Copiando dados da tabela " +:+ table_name)].

(** The second half of the body of the loop of [replicate_data]: clear
    the target table, then copy the rows of the source. *)
Definition clear_and_copy (table_name : string) (columns : list string)
  : M DB (option bool) :=
  logger info ("Limpando tabela " +:+ table_name +:+ " no destino");;
  cleared ← truncate_table target_db table_name;
  if negb cleared then
    logger error ("Erro ao limpar tabela " +:+ table_name);;
    mret (Some false)
  else
    logger info ("Copiando dados da tabela " +:+ table_name);;
    source_data ← get_table_data source_db table_name;
    inserted ← (if truthy source_data
                then _insert_data table_name columns source_data
                else mret true);
    if negb inserted then
      logger error ("Erro ao inserir dados na tabela " +:+ table_name);;
      mret (Some false)
    else
      let source_count := length source_data in
      target_count ← get_table_count target_db table_name;
      logger success ("Tabela " +:+ table_name +:+ ": " +:+ pretty source_count
                      +:+ " registros copiados, " +:+ pretty target_count
                      +:+ " registros no destino");;
      mret None.

(** The body of the loop of [replicate_data]: [Some b] when it returns
    [b], [None] when the loop goes on with the next table. *)
Definition replicate_table_data (table_name : string) : M DB (option bool) :=
  in_source ← table_exists source_db table_name;
  if negb in_source then
    logger warning ("Tabela " +:+ table_name +:+ " não existe na origem, pulando");;
    mret None
  else
    in_target ← table_exists target_db table_name;
    if negb in_target then
      logger warning ("Tabela " +:+ table_name +:+ " não existe no destino, pulando");;
      mret None
    else
      logger info ("Replicando dados da tabela: " +:+ table_name);;
      structure ← get_table_structure source_db table_name;
      let columns := Field <$> structure in
      if negb (truthy columns) then
        logger warning ("Tabela " +:+ table_name +:+ " não possui colunas");;
        mret None
      else clear_and_copy table_name columns.

(** The tables the loop of [replicate_data] passes over: [table_exists]
    answers [False] for the source, or [True] for the source and [False]
    for the target. *)
Definition skipped (table_name : string) (w : World DB) : Prop :=
  reported_missing (source w) table_name
  ∨ (reported_present (source w) table_name
     ∧ reported_missing (target w) table_name).

Definition replicate_data (tables : list string) : M DB bool :=
  try_except
    (logger info "Iniciando replicação de dados";;
     returned ← for_ tables replicate_table_data;
     match returned with
     | Some b => mret b
     | None => logger success "Replicação de dados concluída";; mret true
     end)
    (λ e, logger error ("Erro na replicação de dados: " +:+ str e);;
          mret false).

Definition full_replication (all_tables maintain_tables : list string)
    (with_backup : bool) : M DB bool :=
  try_except
    (logger info "Iniciando replicação completa";;
     logger info ("Total de tabelas para replicar estrutura: "
                  +:+ pretty (length all_tables));;
     logger info ("Tabelas para replicar dados: "
                  +:+ "[" +:+ PyStr.join ", " ((λ t, "'" +:+ t +:+ "'") <$> maintain_tables)
                  +:+ "]");;
     source_ok ← test_connection source_db;
     if negb source_ok then
       logger error "Erro na conexão com banco de origem";; mret false
     else
       target_ok ← test_connection target_db;
       if negb target_ok then
         logger error "Erro na conexão com banco de destino";; mret false
       else
         structure_ok ← replicate_structure all_tables maintain_tables with_backup;
         if negb structure_ok then mret false
         else
           data_ok ← (if truthy maintain_tables
                      then calling (ReplicateData maintain_tables)
                                   (replicate_data maintain_tables)
                      else logger info
                             "Nenhuma tabela configurada para replicação de dados";;
                           mret true);
           if negb data_ok then mret false
           else logger success "Replicação completa concluída";; mret true)
    (λ e, logger error ("Erro na replicação completa: " +:+ str e);;
          mret false).

(** [_recreate_table]: the table is rebuilt through a copy named after it. *)
Definition _recreate_table (table_name : string) : M DB bool :=
  try_except
    (let temp_table := table_name +:+ "_temp" in
     execute_query target_db ("DROP TABLE IF EXISTS " +:+ temp_table);;
     logger info ("Criando tabela temporária " +:+ temp_table);;
     let create_temp := "CREATE TABLE " +:+ temp_table +:+ " AS SELECT * FROM "
                        +:+ table_name in
     created ← execute_query target_db create_temp;
     if negb created then mret false
     else
       logger info ("Removendo tabela original " +:+ table_name);;
       dropped ← execute_query target_db ("DROP TABLE " +:+ table_name);
       if negb dropped then mret false
       else
         recreated ← _create_table table_name;
         if negb recreated then mret false
         else
           logger info ("Copiando dados de volta para " +:+ table_name);;
           structure ← get_table_structure target_db table_name;
           let columns := Field <$> structure in
           let columns_str :=
             PyStr.join ", " ((λ col, "`" +:+ col +:+ "`") <$> columns) in
           let copy_query := "INSERT INTO " +:+ table_name +:+ " (" +:+ columns_str
                             +:+ ") SELECT " +:+ columns_str +:+ " FROM "
                             +:+ temp_table in
           copied ← execute_query target_db copy_query;
           if negb copied then mret false
           else
             logger info ("Removendo tabela temporária " +:+ temp_table);;
             execute_query target_db ("DROP TABLE " +:+ temp_table);;
             mret true)
    (λ e, logger error ("Erro ao recriar tabela " +:+ table_name +:+ ": " +:+ str e);;
          mret false).
End Methods.
End Replicator.

(** ** What a journal shows *)

Module Journal.
(** The requests sent to the two servers, in order. *)
Definition requests_sent (j : list event) : list (conn * request) :=
  flat_map (λ e, match e with Sent c r => [(c, r)] | _ => [] end) j.

(** The marks of the helper calls, in order. *)
Definition calls (j : list event) : list event :=
  List.filter (λ e, match e with Enter _ | Leave _ => true | _ => false end) j.

(** The marks a sequence of helper calls leaves when each returns before
    the next one starts. *)
Definition marks (l : list call) : list event :=
  flat_map (λ a, [Enter a; Leave a]) l.

(** The call that carries out an action of the list [tables_to_alter]. *)
Definition alter_call (entry : string * Plan.Action) : list call :=
  match entry.2 with
  | Plan.alter_table _ _ => [AlterColumns entry.1]
  | Plan.update_foreign_keys _ _ => [ReconcileForeignKeys entry.1]
  | Plan.update_indexes _ _ => [ReconcileIndexes entry.1]
  | _ => []
  end.

Definition is_log (e : event) : Prop := ∃ l msg, e = Log l msg.

(** A computation that makes no helper call of its own. *)
Definition quiet {DB A} (m : M DB A) : Prop :=
  ∀ w, calls (journal (m w).2) = calls (journal w).

(** A computation that returns, whatever the servers do. *)
Definition total {DB A} (m : M DB A) : Prop :=
  ∀ w, ∃ a, (m w).1 = Val a.

(** The server is given the requests one after the other, and nothing
    else: the answers and the state it ends in. *)
Fixpoint serve_all `{Server DB} (d : DB) (rs : list request) : list (res unit) * DB :=
  match rs with
  | [] => ([], d)
  | r :: rs' =>
      let '(o, d') := serve d r in
      let '(os, d'') := serve_all d' rs' in
      (o :: os, d'')
  end.
End Journal.

(** ** What the reads answer *)

Module Reads.
Import Plan DatabaseManager StructureAnalyzer Planner Journal.

(** A computation that only reads: it leaves the two databases as they
    are, and what it adds to the journal holds no request. *)
Definition reads_only {DB A} (m : M DB A) : Prop :=
  ∀ w, ∃ j, (m w).2 = extend w j ∧ requests_sent j = [].

(** A computation out of which no connector error comes. *)
Definition error_free {DB A} (m : M DB A) : Prop :=
  ∀ w msg, (m w).1 ≠ Raise (Error msg).

Section Reads.
Context `{Server DB} `{SetIter}.

(** The reads of [d] raise nothing but connector errors. *)
Definition connector_only (d : DB) : Prop :=
  ∀ t msg,
    select_1 d ≠ Raise (Exception msg)
    ∧ describe d t ≠ Raise (Exception msg)
    ∧ key_column_usage d t ≠ Raise (Exception msg)
    ∧ show_index d t ≠ Raise (Exception msg)
    ∧ show_create_table d t ≠ Raise (Exception msg)
    ∧ select_all d t ≠ Raise (Exception msg)
    ∧ select_count d t ≠ Raise (Exception msg)
    ∧ count_information_schema_tables d t ≠ Raise (Exception msg).

(** The answer of the server, or the value a method returns in its place
    when the connector raised an error. *)
Definition answer {A} (fallback : A) (r : res A) : A :=
  match r with Val a => a | Raise _ => fallback end.

Definition present (d : DB) (table_name : string) : bool :=
  bool_decide (0 < answer 0 (count_information_schema_tables d table_name))%Z.

(** The analysis of a table, from what the two databases answer. *)
Definition analysis_of (s t : DB) (table_name : string) : Analysis :=
  if present s table_name && present t table_name then
    {| table_name := table_name;
       exists_in_source := true;
       exists_in_target := true;
       structure_differences :=
         _compare_structures (answer [] (describe s table_name))
                             (answer [] (describe t table_name));
       foreign_key_differences :=
         _compare_foreign_keys (answer [] (key_column_usage s table_name))
                               (answer [] (key_column_usage t table_name));
       index_differences :=
         _compare_indexes (answer [] (show_index s table_name))
                          (answer [] (show_index t table_name));
       data_count_source := answer 0%Z (select_count s table_name);
       data_count_target := answer 0%Z (select_count t table_name) |}
  else
    {| table_name := table_name;
       exists_in_source := present s table_name;
       exists_in_target := present t table_name;
       structure_differences := [];
       foreign_key_differences := [];
       index_differences := [];
       data_count_source := 0;
       data_count_target := 0 |}.

(** The step of a table in the plan, if it has one. *)
Definition step_of (s t : DB) (maintain_tables : list string) (table_name : string)
  : list Step :=
  let table_analysis := analysis_of s t table_name in
  let actions := step_actions table_name maintain_tables table_analysis in
  if exists_in_source table_analysis && truthy actions
  then [{| table := table_name; actions := actions;
           is_maintain_table := bool_decide (table_name ∈ maintain_tables) |}]
  else [].

Definition plan_of (s t : DB) (table_names maintain_tables : list string) : list Step :=
  flat_map (step_of s t maintain_tables) table_names.

(** [m] returns [a] in [w], having read only. *)
Definition reads {A} (m : M DB A) (w : World DB) (a : A) : Prop :=
  ∃ j, m w = (Val a, extend w j) ∧ requests_sent j = [].
End Reads.
End Reads.

(** ** What is sent to the target *)

Module Requests.
Import Plan DatabaseManager StructureAnalyzer Planner Replicator Journal.

(** A computation that writes to the target alone: it leaves the source
    as it is, and every request it sends satisfies [P]. *)
Definition sends {DB A} (P : conn * request → Prop) (m : M DB A) : Prop :=
  ∀ w, ∃ d j, (m w).2 = extend (set_db target_db d w) j ∧ Forall P (requests_sent j).

(** A statement, or a list of statements, run on the target. *)
Definition schema_request (sent : conn * request) : Prop :=
  sent.1 = target_db
  ∧ match sent.2 with Execute _ | ExecuteAll _ => True | _ => False end.

(** Rows deleted from a table of the target, or inserted into one. *)
Definition rows_request (sent : conn * request) : Prop :=
  sent.1 = target_db
  ∧ match sent.2 with
    | ExecuteMany _ _ | Truncate _ | DeleteAll _ => True
    | _ => False
    end.

(** A foreign key added to one of [tables], on the target. *)
Definition constraint_added (tables : list string) (sent : conn * request) : Prop :=
  ∃ table_name rest,
    table_name ∈ tables
    ∧ sent = (target_db,
              Execute ("ALTER TABLE " +:+ table_name +:+ " ADD CONSTRAINT " +:+ rest)).

Section Requests.
Context `{Server DB} `{BackupManager DB} `{SetIter}.

(** Whether the server went through with a request. *)
Definition accepted (r : res unit) : bool :=
  match r with Val _ => true | Raise _ => false end.

(** [execute_queries] on the target, reached only with statements to run:
    the run from [w] sends [queries] in one request when there are any,
    [ok] tells whether the server went through with it, and [w'] is the
    world it leaves. *)
Definition executes (queries : list string) (w : World DB) (ok : bool) (w' : World DB)
  : Prop :=
  match queries with
  | [] => ok = true ∧ ∃ j, w' = extend w j ∧ requests_sent j = []
  | _ =>
      ok = accepted (serve (target w) (ExecuteAll queries)).1
      ∧ ∃ j, w' = extend (set_db target_db (serve (target w) (ExecuteAll queries)).2 w) j
             ∧ requests_sent j = [(target_db, ExecuteAll queries)]
  end.

(** The differences [_alter_table] has a statement for. *)
Definition applied (diff : Difference) : bool :=
  match diff with
  | missing_column _ _ | extra_column _ _ | type_difference _ _ _ => true
  | _ => false
  end.

(** The differences [_update_indexes] leaves alone: those of the primary key. *)
Definition primary (diff : Difference) : bool :=
  match diff with
  | missing_index index_name _ | extra_index index_name _ =>
      bool_decide (index_name = "PRIMARY")
  | _ => false
  end.

(** The statement of a foreign-key difference, given the rows of the
    target. *)
Definition fk_statement (t : string) (tfks : list ForeignKey) (diff : Difference)
    (query : string) : Prop :=
  match diff with
  | missing_foreign_key column ref_table ref_column =>
      query = "ALTER TABLE " +:+ t +:+ " ADD CONSTRAINT "
              +:+ ("fk_" +:+ t +:+ "_" +:+ column) +:+ " FOREIGN KEY (" +:+ column
              +:+ ") REFERENCES " +:+ ref_table +:+ "(" +:+ ref_column +:+ ")"
  | extra_foreign_key column ref_table ref_column =>
      ∃ fk, fk ∈ tfks ∧ fk_triple fk = (column, ref_table, ref_column)
            ∧ query = "ALTER TABLE " +:+ t +:+ " DROP FOREIGN KEY " +:+ CONSTRAINT_NAME fk
  | _ => False
  end.

(** The statement of an index difference, given the rows of the source. *)
Definition index_statement (t : string) (source_indexes : list IndexRow)
    (diff : Difference) (query : string) : Prop :=
  match diff with
  | missing_index index_name _ =>
      ∃ idx, head (index_rows index_name source_indexes) = Some idx
             ∧ query = create_index_query t index_name idx
  | extra_index index_name _ => query = "DROP INDEX " +:+ index_name +:+ " ON " +:+ t
  | _ => False
  end.

(** The statement of a column difference, on the databases [s] and [d]. *)
Definition column_statement (t : string) (s d : DB) (diff : Difference)
    (query : string) : Prop :=
  match diff with
  | missing_column _ col_def =>
      ∃ position w1 w2,
        source w1 = s ∧ target w1 = d
        ∧ _get_column_position t (Field col_def) w1 = (Val position, w2)
        ∧ query = if bool_decide (position ≠ "")
                  then add_column_query t col_def +:+ " " +:+ position
                  else add_column_query t col_def
  | extra_column col_name _ =>
      query = "ALTER TABLE " +:+ t +:+ " DROP COLUMN `" +:+ col_name +:+ "`"
  | type_difference col_name source_type _ =>
      query = "ALTER TABLE " +:+ t +:+ " MODIFY COLUMN `" +:+ col_name +:+ "` "
              +:+ source_type
  | _ => False
  end.
End Requests.
End Requests.

(** ** A scripted server, to run the executor on concrete inputs *)

Module Scripted.
Record Table := {
  columns : list Column;
  foreign_keys : list ForeignKey;
  indexes : list IndexRow;
  create_statement : string;
  rows : list Row
}.

(** The tables of a database, and how it answers a request for change. *)
Record DB := {
  tables : PyDict.dict Table;
  react : request → res unit
}.

Definition read {A} (d : DB) (t : string) (f : Table → A) : res A :=
  match PyDict.get (tables d) t with
  | Some tb => Val (f tb)
  | None => Raise (Error ("1146 (42S02): Table '" +:+ t +:+ "' doesn't exist"))
  end.

Definition with_rows (f : string → list Row → list Row) (d : DB) : DB :=
  {| tables := (λ '(t, tb), (t, {| columns := columns tb;
                                  foreign_keys := foreign_keys tb;
                                  indexes := indexes tb;
                                  create_statement := create_statement tb;
                                  rows := f t (rows tb) |})) <$> tables d;
     react := react d |}.

(** Rows come and go; statements of the schema language leave the
    scripted tables as they are. *)
Definition change (d : DB) (r : request) : DB :=
  match r with
  | ExecuteMany q batch =>
      with_rows (λ t rs, if String.prefix ("INSERT INTO " +:+ t +:+ " ") q
                         then rs ++ batch else rs) d
  | Truncate t | DeleteAll t =>
      with_rows (λ t' rs, if bool_decide (t' = t) then [] else rs) d
  | _ => d
  end.

#[export] Instance server : Server DB := {|
  select_1 _ := Val ();
  describe d t := read d t columns;
  key_column_usage d t :=
    Val (match PyDict.get (tables d) t with
         | Some tb => foreign_keys tb
         | None => []
         end);
  show_index d t := read d t indexes;
  show_create_table d t := read d t create_statement;
  select_all d t := read d t rows;
  select_count d t := read d t (λ tb, Z.of_nat (length (rows tb)));
  count_information_schema_tables d t :=
    Val (if PyDict.has (tables d) t then 1%Z else 0%Z);
  serve d r := match react d r with
               | Val _ => (Val (), change d r)
               | Raise e => (Raise e, d)
               end
|}.

#[export] Instance backup : BackupManager DB := λ _ _ _, Val "backup_production".

(** Sets are walked in the order of [elements]. *)
#[export] Instance walk : SetIter := λ A _ _ s, elements s.

Definition accept : request → res unit := λ _, Val ().
End Scripted.

(** ** Concrete schemas and worlds *)

Module Examples.
Import Scripted.

Definition column (field type null : string) (default : option string) : Column :=
  {| Field := field; Type_ := type; Null := null; Key := "";
     Default := default; Extra := "" |}.

Definition foreign_key (column table referenced name : string) : ForeignKey :=
  {| COLUMN_NAME := column; REFERENCED_TABLE_NAME := table;
     REFERENCED_COLUMN_NAME := referenced; CONSTRAINT_NAME := name |}.

Definition index_row (name : string) (non_unique seq : Z) (column : string) : IndexRow :=
  {| Key_name := name; Non_unique := non_unique; Seq_in_index := seq;
     Column_name := column |}.

Definition world (s t : Scripted.DB) : World Scripted.DB :=
  {| source := s; target := t; journal := [] |}.

(** [orders] refers to [customers]; [customers] and [accounts] refer to
    each other. *)
Definition shop_fks (t : string) : list ForeignKey :=
  if bool_decide (t = "orders")
  then [foreign_key "customer_id" "customers" "id" "orders_ibfk_1"]
  else if bool_decide (t = "customers")
  then [foreign_key "account_id" "accounts" "id" "customers_ibfk_1"]
  else if bool_decide (t = "accounts")
  then [foreign_key "owner_id" "customers" "id" "accounts_ibfk_1"]
  else [].

Definition shop_tables : list string := ["orders"; "customers"; "accounts"].

(** [orders] refers to [customers], which refers to nothing. *)
Definition plain_fks (t : string) : list ForeignKey :=
  if bool_decide (t = "orders")
  then [foreign_key "customer_id" "customers" "id" "orders_ibfk_1"]
  else [].

Definition plain_rank (t : string) : nat :=
  if bool_decide (t = "orders") then 1%nat else 0%nat.

Definition create_customers : string :=
  PyStr.join_lines
    ["CREATE TABLE `customers` (";
     "  `id` int NOT NULL,";
     "  `name` varchar(100) NOT NULL,";
     "  PRIMARY KEY (`id`)";
     ") ENGINE=InnoDB"].

Definition create_orders : string :=
  PyStr.join_lines
    ["CREATE TABLE `orders` (";
     "  `id` int NOT NULL,";
     "  `customer_id` int NOT NULL,";
     "  `order_date` date NOT NULL,";
     "  PRIMARY KEY (`id`),";
     "  KEY `idx_customer_date` (`customer_id`,`order_date`),";
     "  CONSTRAINT `orders_ibfk_1` FOREIGN KEY (`customer_id`) REFERENCES `customers` (`id`)";
     ") ENGINE=InnoDB"].

Definition create_invoices : string :=
  PyStr.join_lines
    ["CREATE TABLE `invoices` (";
     "  `id` int NOT NULL,";
     "  `customer_id` int NOT NULL,";
     "  PRIMARY KEY (`id`),";
     "  CONSTRAINT `invoices_ibfk_1` FOREIGN KEY (`customer_id`) REFERENCES `customers` (`id`)";
     ") ENGINE=InnoDB"].

Definition create_audit_log : string :=
  PyStr.join_lines
    ["CREATE TABLE `audit_log` (";
     "  `id` int NOT NULL,";
     "  `message` text,";
     "  PRIMARY KEY (`id`)";
     ") ENGINE=InnoDB"].

Definition customers_columns : list Column :=
  [column "id" "int" "NO" None; column "name" "varchar(100)" "NO" None].

Definition orders_columns : list Column :=
  [column "id" "int" "NO" None; column "customer_id" "int" "NO" None;
   column "order_date" "date" "NO" None].

Definition orders_foreign_keys : list ForeignKey :=
  [foreign_key "customer_id" "customers" "id" "orders_ibfk_1"].

(** The index [idx_customer_date] spans two columns, hence two rows. *)
Definition orders_indexes : list IndexRow :=
  [index_row "PRIMARY" 0 1 "id";
   index_row "idx_customer_date" 1 1 "customer_id";
   index_row "idx_customer_date" 1 2 "order_date"].

Definition primary_key : list IndexRow := [index_row "PRIMARY" 0 1 "id"].

Definition customers_table (rows : list Row) : Table :=
  {| columns := customers_columns; foreign_keys := []; indexes := primary_key;
     create_statement := create_customers; rows := rows |}.

Definition orders_table : Table :=
  {| columns := orders_columns; foreign_keys := orders_foreign_keys;
     indexes := orders_indexes; create_statement := create_orders; rows := [] |}.

Definition invoices_table : Table :=
  {| columns := [column "id" "int" "NO" None; column "customer_id" "int" "NO" None];
     foreign_keys := [foreign_key "customer_id" "customers" "id" "invoices_ibfk_1"];
     indexes := primary_key; create_statement := create_invoices; rows := [] |}.

Definition audit_log_table : Table :=
  {| columns := [column "id" "int" "NO" None; column "message" "text" "YES" None];
     foreign_keys := []; indexes := primary_key;
     create_statement := create_audit_log; rows := [] |}.

(** A table of the target that has only its key column so far. *)
Definition bare_table (statement : string) : Table :=
  {| columns := [column "id" "int" "NO" None]; foreign_keys := [];
     indexes := primary_key; create_statement := statement; rows := [] |}.

Definition fk_error : string :=
  "1005 (HY000): Can't create table `shop`.`orders` (errno: 150 Foreign key constraint is incorrectly formed)".

Definition denied_error : string :=
  "1142 (42000): CREATE command denied to user 'replicator'@'localhost' for table 'audit_log'".

(** A target that refuses the two statements with a connector [Error]. *)
Definition refusing (r : request) : res unit :=
  match r with
  | Execute q =>
      if bool_decide (q = create_orders) then Raise (Error fk_error)
      else if bool_decide (q = create_audit_log) then Raise (Error denied_error)
      else Val ()
  | _ => Val ()
  end.

(** The source has [orders] and [audit_log]; the target has neither and
    refuses to create them. *)
Definition refusing_world : World Scripted.DB :=
  world {| tables := [("orders", orders_table); ("audit_log", audit_log_table)];
           react := accept |}
        {| tables := []; react := refusing |}.

(** The target has [orders] and [invoices] with their key column only. *)
Definition drifted_world : World Scripted.DB :=
  world {| tables := [("customers", customers_table []); ("orders", orders_table);
                      ("invoices", invoices_table)];
           react := accept |}
        {| tables := [("customers", customers_table []);
                      ("orders", bare_table create_orders);
                      ("invoices", bare_table create_invoices)];
           react := accept |}.

Definition customer (id name : string) : Row := [Some id; Some name].

(** [customers] on both sides, with rows in the target only. *)
Definition emptied_world : World Scripted.DB :=
  world {| tables := [("customers", customers_table [])]; react := accept |}
        {| tables := [("customers", customers_table [customer "1" "Ana"])];
           react := accept |}.

(** 2001 rows in the source; the target refuses the batch that holds the
    row numbered 1500, which is the second one. *)
Definition many_customers : list Row :=
  (λ i : nat, customer (pretty i) "Rui") <$> seq 0 2001.

Definition duplicate_error : string :=
  "1062 (23000): Duplicate entry '1500' for key 'customers.PRIMARY'".

Definition refusing_1500 (r : request) : res unit :=
  match r with
  | ExecuteMany _ batch =>
      if bool_decide (customer "1500" "Rui" ∈ batch)
      then Raise (Error duplicate_error) else Val ()
  | _ => Val ()
  end.

Definition crowded_world : World Scripted.DB :=
  world {| tables := [("customers", customers_table many_customers)]; react := accept |}
        {| tables := [("customers", customers_table [customer "1" "Ana"])];
           react := refusing_1500 |}.

(** The rows of [customers] as a server flags them: the key and the
    auto-increment are fields that [_compare_structures] does not read. *)
Definition keyed_customers_columns : list Column :=
  [{| Field := "id"; Type_ := "int"; Null := "NO"; Key := "PRI"; Default := None;
      Extra := "auto_increment" |};
   column "name" "varchar(100)" "NO" None].

(** [customers] with a name that may be absent and has a default. *)
Definition lenient_customers_columns : list Column :=
  [column "id" "int" "NO" None;
   column "name" "varchar(100)" "YES" (Some "unknown")].

(** The foreign key of [orders] under another constraint name. *)
Definition renamed_foreign_keys : list ForeignKey :=
  [foreign_key "customer_id" "customers" "id" "fk_orders_customer_id"].

(** A table for which [DESCRIBE] returns no row. *)
Definition hollow_table : Table :=
  {| columns := []; foreign_keys := []; indexes := []; create_statement := "";
     rows := [] |}.

Definition hollow_world : World Scripted.DB :=
  world {| tables := [("events", hollow_table)]; react := accept |}
        {| tables := [("events", hollow_table)]; react := accept |}.

Definition full_error : string :=
  "1114 (HY000): The table 'customers_temp' is full".

(** A target that refuses to copy [customers] into a temporary table. *)
Definition refusing_copy (r : request) : res unit :=
  match r with
  | Execute q =>
      if bool_decide (q = "CREATE TABLE customers_temp AS SELECT * FROM customers")
      then Raise (Error full_error) else Val ()
  | _ => Val ()
  end.

Definition cramped_world : World Scripted.DB :=
  world {| tables := [("customers", customers_table [])]; react := accept |}
        {| tables := [("customers", customers_table [customer "1" "Ana"])];
           react := refusing_copy |}.

Definition unreachable_error : string :=
  "2003 (HY000): Can't connect to MySQL server on 'db.internal:3306' (111)".

(** Servers that cannot be reached: every request meets the error of the
    connector. *)
Definition offline : Server Scripted.DB := {|
  select_1 _ := Raise (Error unreachable_error);
  describe _ _ := Raise (Error unreachable_error);
  key_column_usage _ _ := Raise (Error unreachable_error);
  show_index _ _ := Raise (Error unreachable_error);
  show_create_table _ _ := Raise (Error unreachable_error);
  select_all _ _ := Raise (Error unreachable_error);
  select_count _ _ := Raise (Error unreachable_error);
  count_information_schema_tables _ _ := Raise (Error unreachable_error);
  serve d _ := (Raise (Error unreachable_error), d)
|}.

(** A backup that cannot be written. *)
Definition full_disk : BackupManager Scripted.DB :=
  λ _ _ _, Raise (Exception "[Errno 28] No space left on device").
End Examples.

(** * Facts *)

Set Warnings "-clear-no-such-hyp".

(** ** Dicts *)

Module DictFacts.
Import PyDict.
Section Facts.
Context {V : Type}.
Implicit Types (d : dict V) (k : string).

Lemma has_get d k : has d k = true ↔ is_Some (get d k).
Proof. unfold has. destruct (get d k); split; eauto; try done. Qed.

Lemma get_keys d k : is_Some (get d k) ↔ k ∈ keys d.
Proof.
  unfold keys. induction d as [|[k' v] d IH]; csimpl.
  - split; [intros [? ?]; done | intros ?%elem_of_nil; done].
  - case_bool_decide; subst.
    + split; eauto. intros _. left.
    + rewrite IH. split; [by right|]. intros [?|?]%elem_of_cons; done.
Qed.

Lemma has_keys d k : has d k = true ↔ k ∈ keys d.
Proof. by rewrite has_get, get_keys. Qed.

Lemma has_keys_false d k : has d k = false ↔ k ∉ keys d.
Proof. rewrite <-has_keys. destruct (has d k); naive_solver. Qed.

Lemma keys_set d k v :
  keys (set d k v) = if has d k then keys d else keys d ++ [k].
Proof.
  unfold keys, has. induction d as [|[k' v'] d IH]; csimpl; [done|].
  case_bool_decide; csimpl; [done|]. rewrite IH. by destruct (get d k).
Qed.

Lemma get_set d k k' v :
  get (set d k v) k' = if bool_decide (k = k') then Some v else get d k'.
Proof.
  induction d as [|[k0 v0] d IH]; simpl; [done|].
  repeat (case_bool_decide; simpl; subst); try done;
    rewrite IH; by repeat case_bool_decide.
Qed.

Lemma keys_NoDup_set d k v : NoDup (keys d) → NoDup (keys (set d k v)).
Proof.
  intros Hd. rewrite keys_set. destruct (has d k) eqn:Hk; [done|].
  apply NoDup_app. split_and!; [done| |apply NoDup_singleton].
  intros x Hx ->%list_elem_of_singleton. by apply has_keys_false in Hk.
Qed.
End Facts.
End DictFacts.

Lemma flat_map_nil {A B} (f : A → list B) (l : list A) :
  (∀ x, x ∈ l → f x = []) → flat_map f l = [].
Proof.
  induction l as [|x l IH]; simpl; [done|]. intros Hf.
  rewrite Hf by left. apply IH. intros y Hy. apply Hf. by right.
Qed.

(** ** The diff of a schema with itself *)

Section Diff.
Import StructureAnalyzer.

Lemma set_iter_empty `{SetIterLaws} `{Countable A} : set_iter (∅ : gset A) = [].
Proof. apply Permutation_nil_r. rewrite set_iter_perm. by rewrite elements_empty. Qed.

Lemma compare_structures_self cols : _compare_structures cols cols = [].
Proof.
  unfold _compare_structures. set (d := cols_by_field cols).
  rewrite !flat_map_nil; simpl.
  - by rewrite bool_decide_eq_false_2 by naive_solver.
  - intros k Hk. apply DictFacts.get_keys in Hk as [v Hv]. rewrite Hv.
    unfold column_differences. by rewrite !bool_decide_eq_false_2 by naive_solver.
  - intros k Hk. apply DictFacts.has_keys in Hk. by rewrite Hk.
  - intros k Hk. apply DictFacts.has_keys in Hk. by rewrite Hk.
Qed.

Lemma compare_foreign_keys_self `{SetIterLaws} fks : _compare_foreign_keys fks fks = [].
Proof.
  unfold _compare_foreign_keys.
  rewrite difference_diag_L. by rewrite set_iter_empty.
Qed.

Lemma compare_indexes_self rows : _compare_indexes rows rows = [].
Proof.
  unfold _compare_indexes. rewrite !flat_map_nil; [done| |];
    intros k Hk; apply DictFacts.has_keys in Hk; by rewrite Hk.
Qed.
End Diff.

Lemma flat_map_flat_map {A B C} (f : B → list C) (g : A → list B) (h : A → list C) l :
  (∀ x, x ∈ l → flat_map f (g x) = h x) →
  flat_map f (flat_map g l) = flat_map h l.
Proof.
  induction l as [|x l IH]; simpl; [done|]. intros Hx.
  rewrite flat_map_app, Hx by left. f_equal. apply IH. intros y Hy. apply Hx. by right.
Qed.

Lemma flat_map_const_nil {A B} (l : list A) : flat_map (λ _, @nil B) l = [].
Proof. by induction l. Qed.

(** ** What the diff reports, in both directions *)

Section Duality.
Import StructureAnalyzer.

Lemma item_key {V} (d : PyDict.dict V) k make :
  k ∈ PyDict.keys d → ∃ v, item d k make = [make v].
Proof. intros [v Hv]%DictFacts.get_keys. exists v. unfold item. by rewrite Hv. Qed.

Lemma column_differences_missing k a b :
  missing_columns (column_differences k a b) = [] ∧
  extra_columns (column_differences k a b) = [].
Proof. unfold column_differences. by repeat case_bool_decide. Qed.

Lemma missing_columns_compare a b :
  missing_columns (_compare_structures a b) = only_in (cols_by_field a) (cols_by_field b).
Proof.
  unfold _compare_structures, missing_columns. rewrite !flat_map_app.
  rewrite (flat_map_flat_map _ _ (λ k, if PyDict.has (cols_by_field b) k then [] else [k])).
  2:{ intros k Hk. destruct (PyDict.has _ k); [done|].
      destruct (item_key _ k (missing_column k) Hk) as [v ->]. done. }
  rewrite (flat_map_flat_map _ _ (λ _, [])).
  2:{ intros k Hk. destruct (PyDict.has _ k); [done|].
      destruct (item_key _ k (extra_column k) Hk) as [v ->]. done. }
  rewrite (flat_map_flat_map _ _ (λ _, [])).
  2:{ intros k Hk. destruct (PyDict.get _ k); [|done]. destruct (PyDict.get _ k); [|done].
      apply column_differences_missing. }
  rewrite !flat_map_const_nil.
  case_bool_decide; simpl; by rewrite !app_nil_r.
Qed.

Lemma extra_columns_compare a b :
  extra_columns (_compare_structures a b) = only_in (cols_by_field b) (cols_by_field a).
Proof.
  unfold _compare_structures, extra_columns. rewrite !flat_map_app.
  rewrite (flat_map_flat_map _ _ (λ _, [])).
  2:{ intros k Hk. destruct (PyDict.has _ k); [done|].
      destruct (item_key _ k (missing_column k) Hk) as [v ->]. done. }
  rewrite (flat_map_flat_map _ _ (λ k, if PyDict.has (cols_by_field a) k then [] else [k])).
  2:{ intros k Hk. destruct (PyDict.has _ k); [done|].
      destruct (item_key _ k (extra_column k) Hk) as [v ->]. done. }
  rewrite (flat_map_flat_map _ _ (λ _, [])).
  2:{ intros k Hk. destruct (PyDict.get _ k); [|done]. destruct (PyDict.get _ k); [|done].
      apply column_differences_missing. }
  rewrite !flat_map_const_nil.
  case_bool_decide; simpl; by rewrite !app_nil_r.
Qed.

Lemma missing_indexes_compare a b :
  missing_indexes (_compare_indexes a b) = only_in (group_by_key_name a) (group_by_key_name b).
Proof.
  unfold _compare_indexes, missing_indexes. rewrite !flat_map_app.
  rewrite (flat_map_flat_map _ _ (λ k, if PyDict.has (group_by_key_name b) k then [] else [k])).
  2:{ intros k Hk. destruct (PyDict.has _ k); [done|].
      destruct (item_key _ k (missing_index k) Hk) as [v ->]. done. }
  rewrite (flat_map_flat_map _ _ (λ _, [])).
  2:{ intros k Hk. destruct (PyDict.has _ k); [done|].
      destruct (item_key _ k (extra_index k) Hk) as [v ->]. done. }
  rewrite !flat_map_const_nil. by rewrite app_nil_r.
Qed.

Lemma extra_indexes_compare a b :
  extra_indexes (_compare_indexes a b) = only_in (group_by_key_name b) (group_by_key_name a).
Proof.
  unfold _compare_indexes, extra_indexes. rewrite !flat_map_app.
  rewrite (flat_map_flat_map _ _ (λ _, [])).
  2:{ intros k Hk. destruct (PyDict.has _ k); [done|].
      destruct (item_key _ k (missing_index k) Hk) as [v ->]. done. }
  rewrite (flat_map_flat_map _ _ (λ k, if PyDict.has (group_by_key_name a) k then [] else [k])).
  2:{ intros k Hk. destruct (PyDict.has _ k); [done|].
      destruct (item_key _ k (extra_index k) Hk) as [v ->]. done. }
  by rewrite flat_map_const_nil.
Qed.

Lemma flat_map_fmap_singleton {A B} (f : A → B) (g : A → Difference) (p : Difference → list B) l :
  (∀ x, p (g x) = [f x]) → flat_map p (g <$> l) = f <$> l.
Proof. intros Hp. induction l as [|x l IH]; csimpl; [done|]. by rewrite Hp, IH. Qed.

Lemma flat_map_fmap_nil {A B} (g : A → Difference) (p : Difference → list B) l :
  (∀ x, p (g x) = []) → flat_map p (g <$> l) = [].
Proof. intros Hp. induction l as [|x l IH]; csimpl; [done|]. by rewrite Hp, IH. Qed.

Lemma missing_foreign_keys_compare `{SetIter} a b :
  missing_foreign_keys (_compare_foreign_keys a b) = set_iter (fk_set a ∖ fk_set b).
Proof.
  unfold _compare_foreign_keys, missing_foreign_keys. rewrite flat_map_app.
  rewrite (flat_map_fmap_singleton id), (flat_map_fmap_nil); [|done|by intros [[??]?]].
  by rewrite app_nil_r, list_fmap_id.
Qed.

Lemma extra_foreign_keys_compare `{SetIter} a b :
  extra_foreign_keys (_compare_foreign_keys a b) = set_iter (fk_set b ∖ fk_set a).
Proof.
  unfold _compare_foreign_keys, extra_foreign_keys. rewrite flat_map_app.
  rewrite flat_map_fmap_nil, (flat_map_fmap_singleton id); [|by intros [[??]?]|done].
  by rewrite list_fmap_id.
Qed.

Lemma list_to_set_set_iter `{SetIterLaws} `{Countable A} (s : gset A) :
  list_to_set (set_iter s) = s.
Proof. rewrite set_iter_perm. apply list_to_set_elements_L. Qed.
End Duality.

(** ** Position of an added column *)

Section PositionFacts.
Import Position.

Lemma index_first_occurrence c pre post :
  c ∉ pre → index c (pre ++ c :: post) = Some (length pre).
Proof.
  induction pre as [|x pre IH]; simpl; intros Hc.
  - by rewrite bool_decide_eq_true_2.
  - apply not_elem_of_cons in Hc as [Hx Hc].
    rewrite bool_decide_eq_false_2 by done. by rewrite IH.
Qed.

Lemma scan_back_step pre x rest target :
  scan_back (pre ++ x :: rest) target (S (length pre))
  = if bool_decide (x ∈ target) then Some x
    else scan_back (pre ++ x :: rest) target (length pre).
Proof. simpl. by rewrite list_lookup_middle. Qed.

Lemma scan_back_none pre rest target :
  (∀ x, x ∈ pre → x ∉ target) → scan_back (pre ++ rest) target (length pre) = None.
Proof.
  revert rest. induction pre as [|x pre IH] using rev_ind; intros rest Hpre; [done|].
  rewrite <-app_assoc, length_app, Nat.add_1_r. simpl app.
  rewrite scan_back_step, bool_decide_eq_false_2.
  - apply IH. intros y Hy. apply Hpre. apply elem_of_app. by left.
  - apply Hpre. apply elem_of_app. right. left.
Qed.

Lemma scan_back_nearest pre prev mid rest target :
  prev ∈ target → (∀ x, x ∈ mid → x ∉ target) →
  scan_back (pre ++ prev :: mid ++ rest) target (length (pre ++ prev :: mid)) = Some prev.
Proof.
  intros Hprev. revert rest.
  induction mid as [|x mid IH] using rev_ind; intros rest Hmid.
  - rewrite length_app, Nat.add_1_r. simpl app.
    by rewrite scan_back_step, bool_decide_eq_true_2.
  - replace (pre ++ prev :: (mid ++ [x]) ++ rest)
      with ((pre ++ prev :: mid) ++ x :: rest) by (by rewrite <-!app_assoc).
    replace (length (pre ++ prev :: mid ++ [x])) with (S (length (pre ++ prev :: mid)))
      by (rewrite !length_app; simpl; rewrite length_app; simpl; lia).
    rewrite scan_back_step, bool_decide_eq_false_2.
    + rewrite <-app_assoc. simpl. apply IH. intros y Hy. apply Hmid, elem_of_app. by left.
    + apply Hmid, elem_of_app. right. left.
Qed.

Lemma column_position_cases source target c :
  c ∈ source →
  (∀ rest, source = c :: rest → column_position source target c = "FIRST")
  ∧ (∀ pre prev mid post,
       source = pre ++ prev :: mid ++ c :: post → c ∉ pre ++ prev :: mid →
       prev ∈ target → (∀ x, x ∈ mid → x ∉ target) →
       column_position source target c = "AFTER `" +:+ prev +:+ "`")
  ∧ (∀ pre post,
       source = pre ++ c :: post → c ∉ pre → (∀ x, x ∈ pre → x ∉ target) →
       column_position source target c = "FIRST").
Proof.
  intros _. unfold column_position. split_and!.
  - intros rest ->. simpl. by rewrite bool_decide_eq_true_2.
  - intros pre prev mid post -> Hc Hprev Hmid.
    replace (pre ++ prev :: mid ++ c :: post) with ((pre ++ prev :: mid) ++ c :: post)
      by (by rewrite <-app_assoc).
    rewrite index_first_occurrence by done.
    rewrite bool_decide_eq_false_2 by (rewrite length_app; simpl; lia).
    rewrite <-app_assoc. simpl. by rewrite scan_back_nearest.
  - intros pre post -> Hc Hpre. rewrite index_first_occurrence by done.
    case_bool_decide; [done|]. by rewrite scan_back_none.
Qed.
End PositionFacts.

(** ** The scheduler: one turn, and the loop *)

Section ScheduleFacts.
Import Schedule.
Context `{SetIterLaws}.
Variable fks_of : string → list ForeignKey.
Variable tables : list string.

Let dep (t : string) : list string := deps_in tables (fks_of t).
Let dependencies := build_dependencies fks_of tables.

Lemma get_fold_set {V} (f : string → V) (l : list string) (d : PyDict.dict V) k :
  PyDict.get (fold_left (λ d t, PyDict.set d t (f t)) l d) k
  = if bool_decide (k ∈ l) then Some (f k) else PyDict.get d k.
Proof.
  revert d. induction l as [|t l IH]; intros d; simpl; [done|].
  rewrite IH, DictFacts.get_set.
  destruct (decide (k ∈ l)) as [Hl|Hl].
  - rewrite !bool_decide_eq_true_2; [done| |done]. by right.
  - rewrite (bool_decide_eq_false_2 (k ∈ l)) by done.
    destruct (decide (t = k)) as [->|Hne].
    + rewrite !bool_decide_eq_true_2; [done|left|done].
    + rewrite !bool_decide_eq_false_2; [done| |done]. by intros [?|?]%elem_of_cons.
Qed.

Lemma get_dependencies t :
  t ∈ tables → PyDict.get dependencies t = Some (dep t).
Proof.
  intros Ht. unfold dependencies, build_dependencies.
  by rewrite get_fold_set, bool_decide_eq_true_2.
Qed.

Lemma select_no_deps_filter remaining walk :
  (∀ t, t ∈ walk → t ∈ tables) →
  select_no_deps dependencies remaining walk
  = Some (List.filter (λ t, no_pending remaining (dep t)) walk).
Proof.
  induction walk as [|t walk IH]; intros Hw; simpl; [done|].
  rewrite get_dependencies by (apply Hw; left). simpl.
  rewrite IH by (intros; apply Hw; by right). simpl.
  by destruct (no_pending remaining (dep t)).
Qed.

Lemma set_iter_elem_of (s : gset string) t : t ∈ set_iter s ↔ t ∈ s.
Proof. by rewrite set_iter_perm, elem_of_elements. Qed.

Lemma set_iter_NoDup (s : gset string) : NoDup (set_iter s).
Proof. rewrite set_iter_perm. apply NoDup_elements. Qed.

Lemma set_iter_nonempty (s : gset string) : s ≠ ∅ → set_iter s ≠ [].
Proof.
  intros Hs Hnil. apply Hs. apply set_eq. intros t.
  rewrite <-set_iter_elem_of, Hnil. set_solver.
Qed.

(** One turn, when every remaining table is one of [tables]. *)
Lemma next_round_spec remaining :
  remaining ≠ ∅ → (∀ t, t ∈ remaining → t ∈ tables) →
  ∃ no_deps,
    next_round dependencies remaining = Some no_deps
    ∧ no_deps ≠ [] ∧ NoDup no_deps ∧ (∀ t, t ∈ no_deps → t ∈ remaining)
    ∧ ((∀ t, t ∈ no_deps ↔ t ∈ remaining ∧ no_pending remaining (dep t) = true)
       ∨ (∀ t, t ∈ remaining → no_pending remaining (dep t) = false)).
Proof.
  intros Hne Hsub. unfold next_round.
  rewrite select_no_deps_filter
    by (intros t Ht; apply Hsub; by apply set_iter_elem_of).
  simpl. set (free := List.filter _ _).
  assert (Hfree : ∀ t, t ∈ free ↔ t ∈ remaining ∧ no_pending remaining (dep t) = true).
  { intros t. unfold free. rewrite list_elem_of_In, List.filter_In, <-list_elem_of_In.
    by rewrite set_iter_elem_of. }
  destruct (decide (free = [])) as [Hnil|Hnil].
  - destruct (set_iter remaining) as [|first rest] eqn:Hwalk.
    { by apply set_iter_nonempty in Hne. }
    simpl. exists [first]. split_and!; [done|done|apply NoDup_singleton| |].
    + intros t ->%list_elem_of_singleton. apply set_iter_elem_of. rewrite Hwalk. left.
    + right. intros t Ht. destruct (no_pending remaining (dep t)) eqn:Hp; [|done].
      assert (t ∈ free) as Hin by (by apply Hfree). rewrite Hnil in Hin.
      by apply elem_of_nil in Hin.
  - exists free. split_and!; [done|done| | |by left].
    + unfold free. apply NoDup_ListNoDup, List.NoDup_filter, NoDup_ListNoDup, set_iter_NoDup.
    + intros t Ht. by apply Hfree in Ht as [? _].
Qed.

Lemma no_pending_true remaining deps :
  no_pending remaining deps = true ↔ ∀ d, d ∈ deps → d ∉ remaining.
Proof.
  unfold no_pending. rewrite negb_true_iff, <-not_true_iff_false, existsb_exists.
  split.
  - intros Hno d Hd Hr. apply Hno. exists d. split; [by apply list_elem_of_In|].
    by apply bool_decide_eq_true_2.
  - intros Hno (d & Hd & Hr). apply bool_decide_eq_true_1 in Hr.
    by apply (Hno d); [apply list_elem_of_In|].
Qed.

Lemma no_pending_false remaining deps :
  no_pending remaining deps = false → ∃ d, d ∈ deps ∧ d ∈ remaining.
Proof.
  unfold no_pending. rewrite negb_false_iff, existsb_exists.
  intros (d & Hd & Hr). exists d. split; [by apply list_elem_of_In|].
  by apply bool_decide_eq_true_1 in Hr.
Qed.

(** The loop keeps any invariant that each turn keeps, and it ends. *)
Lemma sort_loop_invariant (Inv : list string → gset string → Prop) :
  (∀ sorted remaining, Inv sorted remaining → ∀ t, t ∈ remaining → t ∈ tables) →
  (∀ sorted remaining no_deps,
     Inv sorted remaining → remaining ≠ ∅ →
     next_round dependencies remaining = Some no_deps →
     Inv (sorted ++ no_deps) (remaining ∖ list_to_set no_deps)) →
  ∀ fuel sorted remaining,
    (size remaining ≤ fuel)%nat → Inv sorted remaining →
    ∃ out, sort_loop fuel dependencies sorted remaining = Some out ∧ Inv out ∅.
Proof.
  intros Hscope Hkeep fuel.
  induction fuel as [|fuel IH]; intros sorted remaining Hfuel HInv; simpl.
  - apply Nat.le_0_r, size_empty_inv, leibniz_equiv_iff in Hfuel as ->.
    rewrite decide_True by done. eauto.
  - destruct (decide (remaining = ∅)) as [->|Hne]; [eauto|].
    destruct (next_round_spec remaining Hne (Hscope _ _ HInv))
      as (no_deps & Hround & Hnil & _ & Hsub & _).
    rewrite Hround. simpl. apply IH; [|by apply Hkeep].
    destruct no_deps as [|t no_deps]; [done|].
    assert (remaining ∖ list_to_set (t :: no_deps) ⊂ remaining) as Hlt%subset_size.
    { assert (t ∈ remaining) by (apply Hsub; left). set_solver. }
    lia.
Qed.

Lemma partitioned_scope sorted remaining :
  partitioned tables sorted remaining → ∀ t, t ∈ remaining → t ∈ tables.
Proof. intros (_ & _ & Hall) t Ht. apply Hall. by right. Qed.

Lemma partitioned_init : partitioned tables [] (list_to_set tables).
Proof.
  split_and!; [apply NoDup_nil_2|by intros t ?%elem_of_nil|].
  intros t. rewrite elem_of_list_to_set. split; [by right|].
  by intros [?%elem_of_nil|?].
Qed.

Lemma partitioned_keep sorted remaining no_deps :
  partitioned tables sorted remaining → remaining ≠ ∅ →
  next_round dependencies remaining = Some no_deps →
  partitioned tables (sorted ++ no_deps) (remaining ∖ list_to_set no_deps).
Proof.
  intros HInv Hne Hround.
  destruct (next_round_spec remaining Hne (partitioned_scope _ _ HInv))
    as (no_deps' & Hround' & _ & Hnodup & Hsub & _).
  rewrite Hround in Hround'. injection Hround' as <-.
  destruct HInv as (Hs & Hdisj & Hall). split_and!.
  - apply NoDup_app. split_and!; [done| |done]. intros t Ht Ht'. by apply (Hdisj t), Hsub.
  - intros t [Ht|Ht]%elem_of_app; [|set_solver].
    intros [Hr _]%elem_of_difference. by apply (Hdisj t).
  - intros t. rewrite Hall, elem_of_app, elem_of_difference, elem_of_list_to_set.
    destruct (decide (t ∈ no_deps)); naive_solver.
Qed.

Lemma sort_tables_by_dependency_total :
  ∃ out, sort_tables_by_dependency fks_of tables = Some out
         ∧ NoDup out ∧ (∀ t, t ∈ out ↔ t ∈ tables).
Proof.
  unfold sort_tables_by_dependency.
  destruct (sort_loop_invariant (partitioned tables) partitioned_scope partitioned_keep
              (size (list_to_set tables : gset string)) [] (list_to_set tables))
    as (out & Hout & Hnodup & _ & Hall); [done|apply partitioned_init|].
  exists out. split_and!; [done|done|]. intros t. rewrite Hall. set_solver.
Qed.
End ScheduleFacts.

(** A finite set in which every marked vertex has a marked successor holds a
    marked vertex on a cycle. *)
Lemma cycle_of_no_sink (n : nat) :
  ∀ (S : gset string) (P : string → Prop) (E : relation string),
    size S = n →
    (∃ u, u ∈ S ∧ P u) →
    (∀ u, u ∈ S → P u → ∃ v, v ∈ S ∧ P v ∧ E u v) →
    ∃ u, u ∈ S ∧ P u ∧ tc E u u.
Proof.
  induction n as [|n IH]; intros S P E Hsize (u & HuS & HuP) Hsucc.
  - apply size_empty_inv, leibniz_equiv_iff in Hsize. set_solver.
  - destruct (Hsucc u HuS HuP) as (v & HvS & HvP & Huv).
    destruct (decide (v = u)) as [->|Hne].
    { exists u. split_and!; [done|done|by apply tc_once]. }
    set (E' := λ x y, E x y ∨ (E x u ∧ E u y)).
    destruct (IH (S ∖ {[u]}) P E') as (w & HwS & HwP & Hw).
    + assert (size S = size ({[u]} : gset string) + size (S ∖ {[u]}))%nat as Hs.
      { rewrite <-size_union by set_solver. f_equal. apply set_eq. intros x.
        destruct (decide (x = u)); set_solver. }
      rewrite size_singleton in Hs. lia.
    + exists v. split; [|done].
      apply elem_of_difference. split; [done|]. by intros ?%elem_of_singleton.
    + intros x [HxS Hxu]%elem_of_difference HxP.
      destruct (Hsucc x HxS HxP) as (y & HyS & HyP & Hxy).
      destruct (decide (y = u)) as [->|Hyu].
      * exists v. split_and!; [|done|by right].
        apply elem_of_difference. split; [done|]. by intros ?%elem_of_singleton.
      * exists y. split_and!; [|done|by left].
        apply elem_of_difference. split; [done|]. by intros ?%elem_of_singleton.
    + exists w. split_and!; [by apply elem_of_difference in HwS as [? _]|done|].
      assert (∀ x y, tc E' x y → tc E x y) as Hsub; [|by apply Hsub].
      clear. intros x y Hxy.
      induction Hxy as [x y [HE|[HE1 HE2]]|x y z [HE|[HE1 HE2]] _ IHtc].
      * by apply tc_once.
      * eapply tc_l; [done|]. by apply tc_once.
      * by eapply tc_l.
      * eapply tc_l; [done|]. by eapply tc_l.
Qed.

(** ** The scheduler below which there is no cycle *)

Section Order.
Import Schedule.
Context `{SetIterLaws}.
Variable fks_of : string → list ForeignKey.
Variable tables : list string.
Variable T : string.

Let dep (t : string) : list string := deps_in tables (fks_of t).
Let dependencies := build_dependencies fks_of tables.

Hypothesis T_in_scope : T ∈ tables.
Hypothesis acyclic_below_T :
  ∀ u, rtc (depends fks_of tables) T u → ¬ tc (depends fks_of tables) u u.

Lemma before_app d t l l' : before d t l → before d t (l ++ l').
Proof.
  intros (l1 & l2 & l3 & ->). exists l1, l2, (l3 ++ l').
  by list_simplifier.
Qed.

Lemma before_across d t l l' : d ∈ l → t ∈ l' → before d t (l ++ l').
Proof.
  intros (l1 & l2 & ->)%list_elem_of_split (n1 & n2 & ->)%list_elem_of_split.
  exists l1, (l2 ++ n1), n2. by list_simplifier.
Qed.

Lemma deps_in_scope t d : d ∈ deps_in tables (fks_of t) → d ∈ tables.
Proof. unfold deps_in. by intros [? _]%list_elem_of_filter. Qed.

Lemma ordered_T_scope sorted remaining :
  ordered fks_of tables T sorted remaining → ∀ t, t ∈ remaining → t ∈ tables.
Proof. intros [HInv _]. by eapply partitioned_scope. Qed.

Lemma ordered_T_keep sorted remaining no_deps :
  ordered fks_of tables T sorted remaining → remaining ≠ ∅ →
  next_round dependencies remaining = Some no_deps →
  ordered fks_of tables T (sorted ++ no_deps) (remaining ∖ list_to_set no_deps).
Proof.
  intros [HInv HT] Hne Hround. split; [by eapply partitioned_keep|].
  destruct HT as [HT|HT]; [|right; intros d Hd; by apply before_app, HT].
  destruct (next_round_spec fks_of tables remaining Hne (partitioned_scope _ _ _ HInv))
    as (no_deps' & Hround' & _ & _ & _ & Hkind).
  fold dependencies in Hround'. rewrite Hround in Hround'. injection Hround' as <-.
  destruct Hkind as [Hfree|Hstall].
  - destruct (decide (T ∈ no_deps)) as [Hin|Hout]; [right|left; set_solver].
    intros d Hd. apply before_across; [|done].
    apply Hfree in Hin as [_ Hnone].
    pose proof (proj1 (no_pending_true _ _) Hnone) as Hgone.
    destruct HInv as (_ & _ & Hall).
    destruct (proj1 (Hall d) (deps_in_scope _ _ Hd)) as [?|Hr]; [done|].
    by apply Hgone in Hr.
  - exfalso.
    destruct (cycle_of_no_sink (size remaining) remaining
                (rtc (depends fks_of tables) T) (depends fks_of tables))
      as (u & _ & Hreach & Hcycle); [done|by exists T| |by apply (acyclic_below_T u)].
    intros u Hu Hreach. apply Hstall, no_pending_false in Hu as (v & Hv & Hvr).
    exists v. split_and!; [done| |done]. eapply rtc_r; [done|]. done.
Qed.

(** C6, as amended.  If no table that T reaches through foreign keys to
    tables of the input (T itself included) lies on a cycle of such foreign
    keys, then T comes after every table of the input it depends on. *)
Theorem scheduler_orders_acyclic_part :
  ∃ out, sort_tables_by_dependency fks_of tables = Some out
         ∧ ∀ d, depends fks_of tables T d → before d T out.
Proof.
  unfold sort_tables_by_dependency.
  destruct (sort_loop_invariant fks_of tables (ordered fks_of tables T) ordered_T_scope ordered_T_keep
              (size (list_to_set tables : gset string)) [] (list_to_set tables))
    as (out & Hout & _ & [HT|HT]); [done| |set_solver|by exists out].
  split; [apply partitioned_init|]. left. by apply elem_of_list_to_set.
Qed.
End Order.

Ltac munfold :=
  unfold mbind, M_bind, mret, M_ret, bind, ret, raise, try_except, try_except_Error,
    logger, emit in *.

(** ** Running computations *)

Section MonadFacts.
Context {DB : Type}.
Implicit Types (w : World DB) (j : list event).

Lemma extend_nil w : extend w [] = w.
Proof. destruct w. unfold extend. simpl. by rewrite app_nil_r. Qed.

Lemma extend_extend w j1 j2 : extend (extend w j1) j2 = extend w (j1 ++ j2).
Proof. unfold extend. simpl. by rewrite app_assoc. Qed.

Lemma source_extend w j : source (extend w j) = source w.
Proof. done. Qed.

Lemma target_extend w j : target (extend w j) = target w.
Proof. done. Qed.

Lemma journal_extend w j : journal (extend w j) = journal w ++ j.
Proof. done. Qed.

Lemma db_extend c w j : db c (extend w j) = db c w.
Proof. by destruct c. Qed.

Lemma source_set_target d w : source (set_db target_db d w) = source w.
Proof. done. Qed.

Lemma target_set_target d w : target (set_db target_db d w) = d.
Proof. done. Qed.

Lemma source_set_source d w : source (set_db source_db d w) = d.
Proof. done. Qed.

Lemma target_set_source d w : target (set_db source_db d w) = target w.
Proof. done. Qed.

Lemma journal_set_db c d w : journal (set_db c d w) = journal w.
Proof. by destruct c. Qed.

Lemma set_db_same c w : set_db c (db c w) w = w.
Proof. by destruct w, c. Qed.

Lemma set_db_extend c d w j : set_db c d (extend w j) = extend (set_db c d w) j.
Proof. by destruct c. Qed.

Lemma bind_run {A B} (m : M DB A) (k : A → M DB B) w :
  (m ≫= k) w = match m w with
               | (Val a, w') => k a w'
               | (Raise e, w') => (Raise e, w')
               end.
Proof. done. Qed.

Lemma logger_run l msg w : logger l msg w = (Val (), extend w [Log l msg]).
Proof. done. Qed.

Lemma emit_run e w : emit e w = (Val (), extend w [e]).
Proof. done. Qed.

Lemma for_app {A R} (l1 l2 : list A) (body : A → M DB (option R)) w :
  for_ (l1 ++ l2) body w
  = match for_ l1 body w with
    | (Val None, w1) => for_ l2 body w1
    | r => r
    end.
Proof.
  revert w. induction l1 as [|x l1 IH]; intros w; simpl; [done|].
  rewrite !bind_run. by destruct (body x w) as [[[v|]|e] w1].
Qed.

Lemma for_fmap {A B R} (f : A → B) (l : list A) (body : B → M DB (option R)) :
  for_ (f <$> l) body = for_ l (λ x, body (f x)).
Proof. induction l as [|x l IH]; csimpl; [done|]. by rewrite IH. Qed.
End MonadFacts.

Create Rewrite HintDb world.
#[local] Hint Rewrite @source_extend @target_extend @journal_extend @db_extend
  @source_set_target @target_set_target @source_set_source @target_set_source
  @journal_set_db @extend_extend @extend_nil : world.

(** ** Reads of the DatabaseManager *)

Section ReadFacts.
Import DatabaseManager.
Context `{Server DB}.
Implicit Types (w : World DB).

Lemma fetch_val {A} c (q : DB → res A) w a :
  q (db c w) = Val a → fetch c q w = (Val a, w).
Proof.
  intros Hq. unfold fetch, get_connection, session. munfold. rewrite Hq.
  by rewrite set_db_same.
Qed.

Lemma fetch_Error {A} c (q : DB → res A) w msg :
  q (db c w) = Raise (Error msg) →
  fetch c q w = (Raise (Error msg),
                 extend w [Log error ("Erro ao conectar ao banco: " +:+ msg)]).
Proof.
  intros Hq. unfold fetch, get_connection, session. munfold. rewrite Hq.
  by rewrite set_db_same.
Qed.

Lemma fetch_Exception {A} c (q : DB → res A) w msg :
  q (db c w) = Raise (Exception msg) → fetch c q w = (Raise (Exception msg), w).
Proof.
  intros Hq. unfold fetch, get_connection, session. munfold. rewrite Hq.
  by rewrite set_db_same.
Qed.

Lemma table_exists_present c t w :
  reported_present (db c w) t → table_exists c t w = (Val true, w).
Proof.
  intros (n & Hn & Hpos). unfold table_exists. munfold.
  rewrite (fetch_val _ _ _ n) by done. by rewrite bool_decide_eq_true_2.
Qed.

Lemma table_exists_missing c t w :
  reported_missing (db c w) t →
  ∃ j, table_exists c t w = (Val false, extend w j)
       ∧ Forall (λ e, ∃ msg, e = Log error msg) j.
Proof.
  intros [(n & Hn & Hneg)|(msg & Hmsg)]; unfold table_exists; munfold.
  - exists []. rewrite (fetch_val _ _ _ n) by done.
    rewrite bool_decide_eq_false_2 by lia. by rewrite extend_nil.
  - eexists. rewrite (fetch_Error _ _ _ msg) by done. simpl.
    rewrite extend_extend. split; [done|]. repeat constructor; eauto.
Qed.
End ReadFacts.

(** ** Tables the data replication passes over *)

Section Skip.
Import DatabaseManager Replicator Journal.
Context `{Server DB} `{BackupManager DB} `{SetIter}.
Implicit Types (w : World DB).

Lemma requests_sent_logs j : Forall is_log j → requests_sent j = [].
Proof.
  unfold requests_sent. induction 1 as [|e j (l & msg & ->) _ IH]; simpl; done.
Qed.

Lemma error_logs_are_logs j :
  Forall (λ e, ∃ msg, e = Log error msg) j → Forall is_log j.
Proof. intros Hj. eapply Forall_impl; [done|]. intros e [msg ->]. by exists error, msg. Qed.

Lemma replicate_table_data_skip t w :
  skipped t w →
  ∃ j msg,
    replicate_table_data t w = (Val None, extend w j)
    ∧ Forall is_log j ∧ Log warning msg ∈ j
    ∧ (msg = "Tabela " +:+ t +:+ " não existe na origem, pulando"
       ∨ msg = "Tabela " +:+ t +:+ " não existe no destino, pulando").
Proof.
  intros [Hs|[Hs Ht]]; unfold replicate_table_data.
  - destruct (table_exists_missing source_db t w Hs) as (j & Hj & Hlogs).
    rewrite bind_run, Hj. simpl. rewrite bind_run, logger_run, extend_extend.
    eexists _, _. split_and!; [done| | |by left].
    + apply Forall_app. split; [by apply error_logs_are_logs|].
      repeat constructor. by eexists _, _.
    + apply elem_of_app. right. left.
  - rewrite bind_run, table_exists_present by done. simpl.
    destruct (table_exists_missing target_db t w Ht) as (j & Hj & Hlogs).
    rewrite bind_run, Hj. simpl. rewrite bind_run, logger_run, extend_extend.
    eexists _, _. split_and!; [done| | |by right].
    + apply Forall_app. split; [by apply error_logs_are_logs|].
      repeat constructor. by eexists _, _.
    + apply elem_of_app. right. left.
Qed.

Lemma replicate_all_skipped tables w :
  (∀ t, t ∈ tables → skipped t w) →
  ∃ j, for_ tables replicate_table_data w = (Val None, extend w j) ∧ Forall is_log j.
Proof.
  revert w. induction tables as [|t tables IH]; intros w Hall.
  - exists []. by rewrite extend_nil.
  - destruct (replicate_table_data_skip t w) as (j & msg & Hrun & Hlogs & _);
      [apply Hall; left|].
    destruct (IH (extend w j)) as (j' & Hrest & Hlogs').
    { intros t' Ht'. apply Hall. by right. }
    exists (j ++ j'). simpl. rewrite bind_run, Hrun, Hrest, extend_extend.
    split; [done|]. by apply Forall_app.
Qed.

End Skip.

(** ** Batches *)

Section Batches.
Import Replicator.
Variable batch_size : nat.
Hypothesis batch_size_pos : (0 < batch_size)%nat.

Lemma from_concat (data : list Row) fuel start :
  (length data ≤ fuel + start)%nat →
  concat ((λ i, take batch_size (drop i data))
            <$> PyRange.from fuel start (length data) batch_size)
  = drop start data.
Proof.
  revert start. induction fuel as [|fuel IH]; intros start Hfuel; simpl.
  - by rewrite drop_ge by lia.
  - destruct (Nat.ltb_spec start (length data)) as [Hlt|Hge]; csimpl.
    + rewrite IH by lia. rewrite <-drop_drop. apply take_drop.
    + by rewrite drop_ge by lia.
Qed.

Lemma from_length stop fuel start :
  (stop ≤ fuel + start)%nat →
  length (PyRange.from fuel start stop batch_size)
  = ((stop - start + (batch_size - 1)) / batch_size)%nat.
Proof.
  revert start. induction fuel as [|fuel IH]; intros start Hfuel; simpl.
  - replace (stop - start)%nat with 0%nat by lia. simpl.
    symmetry. apply Nat.div_small. lia.
  - destruct (Nat.ltb_spec start stop) as [Hlt|Hge]; simpl.
    + rewrite IH by lia.
      destruct (Nat.le_gt_cases batch_size (stop - start)) as [Hbig|Hsmall].
      * replace (stop - start + (batch_size - 1))%nat
          with ((stop - (start + batch_size) + (batch_size - 1)) + 1 * batch_size)%nat
          by lia.
        rewrite Nat.div_add by lia. lia.
      * replace (stop - (start + batch_size))%nat with 0%nat by lia. simpl.
        rewrite (Nat.div_small (batch_size - 1)) by lia.
        apply (Nat.div_unique _ _ 1 (stop - start - 1)); lia.
    + replace (stop - start)%nat with 0%nat by lia. simpl.
      symmetry. apply Nat.div_small. lia.
Qed.

Lemma from_below stop fuel start :
  Forall (λ i, (i < stop)%nat) (PyRange.from fuel start stop batch_size).
Proof.
  revert start. induction fuel as [|fuel IH]; intros start; simpl; [done|].
  destruct (Nat.ltb_spec start stop); [|done]. by constructor.
Qed.

Lemma batches_concat (data : list Row) : concat (batches batch_size data) = data.
Proof. unfold batches, PyRange.range. by rewrite from_concat by lia. Qed.

Lemma batches_length (data : list Row) :
  length (batches batch_size data)
  = ((length data + (batch_size - 1)) / batch_size)%nat.
Proof.
  unfold batches, PyRange.range. rewrite length_fmap, from_length by lia.
  by rewrite Nat.sub_0_r.
Qed.

Lemma batches_sizes (data : list Row) :
  Forall (λ b : list Row, (0 < length b ≤ batch_size)%nat) (batches batch_size data).
Proof.
  unfold batches, PyRange.range. apply Forall_fmap.
  eapply Forall_impl; [apply from_below|]. intros i Hi. simpl in *.
  rewrite length_take, length_drop. lia.
Qed.
End Batches.

(** ** The data copier *)

Section Copier.
Import DatabaseManager Replicator Journal.
Context `{Server DB} `{BackupManager DB} `{SetIter}.
Implicit Types (w : World DB).

Lemma requests_sent_app j1 j2 :
  requests_sent (j1 ++ j2) = requests_sent j1 ++ requests_sent j2.
Proof. apply flat_map_app. Qed.

(** Sending one request: the server's answer, and what the journal gains. *)
Lemma send_run c r w :
  ∃ j, Forall is_log j
       ∧ send c r w = ((serve (db c w) r).1,
                       extend (set_db c (serve (db c w) r).2 w) (Sent c r :: j)).
Proof.
  unfold send, get_connection, session. munfold. simpl. rewrite db_extend.
  destruct (serve (db c w) r) as [[[]|[msg|msg]] d'] eqn:Hserve; simpl.
  - exists []. by rewrite set_db_extend.
  - eexists [_]. rewrite set_db_extend, extend_extend. split; [|done].
    repeat constructor. by eexists _, _.
  - exists []. by rewrite set_db_extend.
Qed.

Lemma insert_batch_run table_name query batch w :
  ∃ j, Forall is_log j
       ∧ insert_batch table_name query batch w
         = (Val (match (serve (target w) (ExecuteMany query batch)).1 with
                 | Val _ => None
                 | Raise _ => Some false
                 end),
            extend (set_db target_db (serve (target w) (ExecuteMany query batch)).2 w)
                   (Sent target_db (ExecuteMany query batch) :: j)).
Proof.
  destruct (send_run target_db (ExecuteMany query batch) w) as (j & Hlogs & Hsend).
  unfold insert_batch. munfold. rewrite Hsend. simpl.
  destruct (serve (target w) (ExecuteMany query batch)) as [[[]|e] d']; simpl.
  - by exists j.
  - exists (j ++ [Log error ("Erro ao inserir lote de dados na tabela "
                            +:+ table_name +:+ ": " +:+ str e)]).
    rewrite extend_extend. split; [|done].
    apply Forall_app. split; [done|]. repeat constructor. by eexists _, _.
Qed.

Lemma insert_loop table_name query (bl : list (list Row)) w :
  ∃ k returned w' outcomes,
    for_ bl (insert_batch table_name query) w = (Val returned, w')
    ∧ source w' = source w
    ∧ serve_all (target w) (take k (ExecuteMany query <$> bl)) = (outcomes, target w')
    ∧ requests_sent (journal w')
      = requests_sent (journal w)
        ++ ((λ r, (target_db, r)) <$> take k (ExecuteMany query <$> bl))
    ∧ ((returned = None ∧ k = length bl ∧ outcomes = replicate k (Val ()))
       ∨ (returned = Some false
          ∧ ∃ i e, k = S i ∧ (i < length bl)%nat
                   ∧ outcomes = replicate i (Val ()) ++ [Raise e])).
Proof.
  revert w. induction bl as [|batch bl IH]; intros w.
  - exists 0%nat, None, w, []. simpl. rewrite app_nil_r. split_and!; try done. by left.
  - destruct (insert_batch_run table_name query batch w) as (j & Hlogs & Hrun).
    simpl. rewrite bind_run, Hrun.
    destruct (serve (target w) (ExecuteMany query batch)) as [[[]|e] d'] eqn:Hserve; simpl.
    + destruct (IH (extend (set_db target_db d' w)
                           (Sent target_db (ExecuteMany query batch) :: j)))
        as (k & returned & w' & outcomes & Hloop & Hsrc & Hall & Hsent & Hkind).
      autorewrite with world in *.
      exists (S k), returned, w', (Val () :: outcomes). csimpl.
      rewrite Hserve, Hall, Hloop, Hsrc, Hsent.
      split_and!; try done.
      * rewrite requests_sent_app. simpl.
        rewrite (requests_sent_logs j) by done. by rewrite <-app_assoc.
      * destruct Hkind as [(-> & -> & ->)|(-> & i & e & -> & Hi & ->)]; [by left|right].
        split; [done|]. exists (S i), e. split_and!; [done|simpl; lia|done].
    + eexists 1%nat, (Some false), _, [Raise e]. csimpl. rewrite Hserve.
      autorewrite with world. split_and!; try done.
      * autorewrite with world. rewrite requests_sent_app. simpl.
        by rewrite (requests_sent_logs j) by done.
      * right. split; [done|]. exists 0%nat, e. split_and!; [done|simpl; lia|done].
Qed.

Lemma for_batches batch_size table_name query (data : list Row) :
  for_ (PyRange.range 0 (length data) batch_size)
    (λ i, let batch := take batch_size (drop i data) in
          insert_batch table_name query batch)
  = for_ (batches batch_size data) (insert_batch (DB:=DB) table_name query).
Proof. unfold batches. by rewrite for_fmap. Qed.

Lemma insert_in_batches_run batch_size table_name columns data w :
  ∃ k ok w' outcomes,
    let requests := ExecuteMany (insert_query table_name columns)
                      <$> batches batch_size data in
    insert_in_batches batch_size table_name columns data w = (Val ok, w')
    ∧ source w' = source w
    ∧ serve_all (target w) (take k requests) = (outcomes, target w')
    ∧ requests_sent (journal w')
      = requests_sent (journal w) ++ ((λ r, (target_db, r)) <$> take k requests)
    ∧ ((ok = true ∧ k = length requests ∧ outcomes = replicate k (Val ()))
       ∨ (ok = false
          ∧ ∃ i e, k = S i ∧ (i < length requests)%nat
                   ∧ outcomes = replicate i (Val ()) ++ [Raise e])).
Proof.
  unfold insert_in_batches.
  destruct data as [|row data].
  - exists 0%nat, true, w, []. simpl. rewrite app_nil_r. split_and!; try done. by left.
  - set (rows := row :: data).
    destruct (insert_loop table_name (insert_query table_name columns)
                (batches batch_size rows) w)
      as (k & returned & w' & outcomes & Hloop & Hsrc & Hall & Hsent & Hkind).
    exists k, (default true returned), w', outcomes. cbv zeta.
    split_and!; try done.
    + unfold try_except at 1. cbn [negb Planner.truthy rows].
      rewrite bind_run, for_batches. fold rows. by rewrite Hloop.
    + destruct Hkind as [(-> & -> & ->)|(-> & i & e & -> & Hi & ->)]; [left|right].
      * by rewrite length_fmap.
      * split; [done|]. exists i, e. by rewrite length_fmap.
Qed.

Lemma send_val c r w d' :
  serve (db c w) r = (Val (), d') →
  send c r w = (Val (), extend (set_db c d' w) [Sent c r]).
Proof.
  intros Hserve. unfold send, get_connection, session. munfold. simpl.
  rewrite db_extend, Hserve. simpl. by rewrite set_db_extend.
Qed.

Lemma fetch_run {A} c (q : DB → res A) w :
  ∃ j, Forall is_log j ∧ fetch c q w = (q (db c w), extend w j).
Proof.
  destruct (q (db c w)) as [a|[msg|msg]] eqn:Hq.
  - exists []. by rewrite (fetch_val _ _ _ a), extend_nil.
  - eexists [_]. rewrite (fetch_Error _ _ _ msg) by done. split; [|done].
    repeat constructor. by eexists _, _.
  - exists []. by rewrite (fetch_Exception _ _ _ msg), extend_nil.
Qed.

Lemma get_table_count_run c t w :
  ∃ r j, Forall is_log j ∧ get_table_count c t w = (r, extend w j).
Proof.
  destruct (fetch_run c (λ d, select_count d t) w) as (j & Hlogs & Hfetch).
  unfold get_table_count. munfold. rewrite Hfetch.
  destruct (select_count (db c w) t) as [n|[msg|msg]]; simpl.
  - by exists (Val n), j.
  - eexists (Val 0%Z), (j ++ [_]). rewrite extend_extend. split; [|done].
    apply Forall_app. split; [done|]. repeat constructor. by eexists _, _.
  - by exists (Raise (Exception msg)), j.
Qed.

Lemma get_table_data_val c t w data :
  select_all (db c w) t = Val data → get_table_data c t w = (Val data, w).
Proof.
  intros Hdata. unfold get_table_data. munfold.
  by rewrite (fetch_val _ _ _ data).
Qed.

Lemma get_table_structure_val c t w structure :
  describe (db c w) t = Val structure → get_table_structure c t w = (Val structure, w).
Proof.
  intros Hdata. unfold get_table_structure. munfold.
  by rewrite (fetch_val _ _ _ structure).
Qed.

Lemma truncate_table_val t w d1 :
  serve (target w) (Truncate t) = (Val (), d1) →
  truncate_table target_db t w
  = (Val true, extend (set_db target_db d1 w) [Sent target_db (Truncate t)]).
Proof.
  intros Hclear. unfold truncate_table. munfold.
  by rewrite (send_val _ _ _ d1).
Qed.

Lemma clear_and_copy_cleared table_name columns data d1 w :
  serve (target w) (Truncate table_name) = (Val (), d1) →
  select_all (source w) table_name = Val data →
  clear_and_copy table_name columns w
  = (inserted ← (if Planner.truthy data
                 then _insert_data table_name columns data
                 else mret true);
     if negb inserted then
       logger error ("Erro ao inserir dados na tabela " +:+ table_name);;
       mret (Some false)
     else
       target_count ← get_table_count target_db table_name;
       logger success ("Tabela " +:+ table_name +:+ ": " +:+ pretty (length data)
                       +:+ " registros copiados, " +:+ pretty target_count
                       +:+ " registros no destino");;
       mret None) (cleared table_name d1 w).
Proof.
  intros Hclear Hdata. unfold clear_and_copy, cleared.
  rewrite bind_run, logger_run, bind_run.
  rewrite (truncate_table_val _ _ d1) by done. cbn [negb].
  rewrite bind_run, logger_run, bind_run.
  rewrite (get_table_data_val _ _ _ data) by (by autorewrite with world).
  by rewrite !set_db_extend, !extend_extend.
Qed.

Lemma clear_and_copy_no_rows table_name columns d1 w :
  serve (target w) (Truncate table_name) = (Val (), d1) →
  select_all (source w) table_name = Val [] →
  ∃ r w', clear_and_copy table_name columns w = (r, w')
          ∧ source w' = source w ∧ target w' = d1
          ∧ requests_sent (journal w')
            = requests_sent (journal w) ++ [(target_db, Truncate table_name)].
Proof.
  intros Hclear Hdata. rewrite (clear_and_copy_cleared _ _ [] d1) by done.
  cbn [Planner.truthy]. rewrite bind_run. cbn [mret M_ret ret negb].
  destruct (get_table_count_run target_db table_name (cleared table_name d1 w))
    as (r & j & Hlogs & Hcount).
  rewrite bind_run, Hcount. unfold cleared. destruct r as [n|e].
  - rewrite bind_run, logger_run. eexists _, _. split; [done|].
    autorewrite with world. split_and!; [done|done|].
    rewrite !requests_sent_app. simpl.
    by rewrite (requests_sent_logs j) by done.
  - eexists _, _. split; [done|]. autorewrite with world. split_and!; [done|done|].
    rewrite !requests_sent_app. simpl.
    by rewrite (requests_sent_logs j) by done.
Qed.

Lemma clear_and_copy_failed_batch table_name columns data d1 w w2 :
  serve (target w) (Truncate table_name) = (Val (), d1) →
  select_all (source w) table_name = Val data →
  _insert_data table_name columns data (cleared table_name d1 w) = (Val false, w2) →
  clear_and_copy table_name columns w
  = (Val (Some false),
     extend w2 [Log error ("Erro ao inserir dados na tabela " +:+ table_name)]).
Proof.
  intros Hclear Hdata Hfail. rewrite (clear_and_copy_cleared _ _ data d1) by done.
  destruct data as [|row data]; [done|]. cbn [Planner.truthy].
  by rewrite bind_run, Hfail.
Qed.

Lemma replicate_table_data_copies table_name structure w :
  reported_present (source w) table_name →
  reported_present (target w) table_name →
  describe (source w) table_name = Val structure → structure ≠ [] →
  replicate_table_data table_name w
  = clear_and_copy table_name (Field <$> structure)
      (extend w [Log info ("Replicando dados da tabela: " +:+ table_name)]).
Proof.
  intros Hs Ht Hdesc Hne. unfold replicate_table_data.
  rewrite bind_run, table_exists_present by done. cbn [negb].
  rewrite bind_run, table_exists_present by done. cbn [negb].
  rewrite bind_run, logger_run, bind_run.
  rewrite (get_table_structure_val _ _ _ structure) by (by autorewrite with world).
  by destruct structure.
Qed.

Lemma replicate_data_aborts table_name rest w0 w' :
  replicate_table_data table_name
    (extend w0 [Log info "Iniciando replicação de dados"]) = (Val (Some false), w') →
  replicate_data (table_name :: rest) w0 = (Val false, w').
Proof.
  intros Hbody. unfold replicate_data, try_except.
  rewrite bind_run, logger_run, bind_run. simpl for_. by rewrite bind_run, Hbody.
Qed.
End Copier.

(** ** Computations that call no helper, computations that return *)

Section Quiet.
Import Journal.
Context {DB : Type}.
Implicit Types (w : World DB).

Lemma calls_app j1 j2 : calls (j1 ++ j2) = calls j1 ++ calls j2.
Proof. apply List.filter_app. Qed.

Lemma calls_extend w j : calls (journal (extend w j)) = calls (journal w) ++ calls j.
Proof. by rewrite journal_extend, calls_app. Qed.

Lemma quiet_ret {A} (a : A) : quiet (DB:=DB) (mret a).
Proof. by intros w. Qed.

Lemma quiet_raise {A} e : quiet (DB:=DB) (raise (A:=A) e).
Proof. by intros w. Qed.

Lemma quiet_logger l msg : quiet (DB:=DB) (logger l msg).
Proof. intros w. rewrite logger_run. cbn [snd]. rewrite calls_extend. apply app_nil_r. Qed.

Lemma quiet_sent c r : quiet (DB:=DB) (emit (Sent c r)).
Proof. intros w. rewrite emit_run. cbn [snd]. rewrite calls_extend. apply app_nil_r. Qed.

Lemma quiet_bind {A B} (m : M DB A) (k : A → M DB B) :
  quiet m → (∀ a, quiet (k a)) → quiet (m ≫= k).
Proof.
  intros Hm Hk w. rewrite bind_run. specialize (Hm w).
  destruct (m w) as [[a|e] w1]; simpl in *; [|done]. by rewrite Hk.
Qed.

Lemma quiet_try_except {A} (m : M DB A) h :
  quiet m → (∀ e, quiet (h e)) → quiet (try_except m h).
Proof.
  intros Hm Hh w. unfold try_except. specialize (Hm w).
  destruct (m w) as [[a|e] w1]; simpl in *; [done|]. by rewrite Hh.
Qed.

Lemma quiet_try_except_Error {A} (m : M DB A) h :
  quiet m → (∀ e, quiet (h e)) → quiet (try_except_Error m h).
Proof.
  intros Hm Hh w. unfold try_except_Error. specialize (Hm w).
  destruct (m w) as [[a|[msg|msg]] w1]; simpl in *; [done| |done]. by rewrite Hh.
Qed.

Lemma quiet_fold_ {A S} (l : list A) (body : S → A → M DB S) acc :
  (∀ acc x, quiet (body acc x)) → quiet (fold_ l body acc).
Proof.
  intros Hbody. revert acc. induction l as [|x l IH]; intros acc; simpl.
  - apply quiet_ret.
  - apply quiet_bind; [apply Hbody|]. intros acc'. apply IH.
Qed.

Lemma quiet_for_ {A R} (l : list A) (body : A → M DB (option R)) :
  (∀ x, quiet (body x)) → quiet (for_ l body).
Proof.
  intros Hbody. induction l as [|x l IH]; simpl.
  - apply quiet_ret.
  - apply quiet_bind; [apply Hbody|]. intros [r|]; [apply quiet_ret|apply IH].
Qed.

Lemma total_ret {A} (a : A) : total (DB:=DB) (mret a).
Proof. intros w. by exists a. Qed.

Lemma total_logger l msg : total (DB:=DB) (logger l msg).
Proof. intros w. by exists (). Qed.

Lemma total_bind {A B} (m : M DB A) (k : A → M DB B) :
  total m → (∀ a, total (k a)) → total (m ≫= k).
Proof.
  intros Hm Hk w. rewrite bind_run. destruct (Hm w) as [a Ha].
  destruct (m w) as [[a'|e] w1]; simpl in *; [|done]. apply Hk.
Qed.

Lemma total_try_except {A} (m : M DB A) h :
  (∀ e, total (h e)) → total (try_except m h).
Proof.
  intros Hh w. unfold try_except.
  destruct (m w) as [[a|e] w1]; simpl; [by exists a|]. apply Hh.
Qed.

Lemma total_fold_ {A S} (l : list A) (body : S → A → M DB S) acc :
  (∀ acc x, total (body acc x)) → total (fold_ l body acc).
Proof.
  intros Hbody. revert acc. induction l as [|x l IH]; intros acc; simpl.
  - apply total_ret.
  - apply total_bind; [apply Hbody|]. intros acc'. apply IH.
Qed.

(** What a total and quiet computation does to the marks of the journal. *)
Lemma total_quiet_run {A} (m : M DB A) w :
  total m → quiet m →
  ∃ a w', m w = (Val a, w') ∧ calls (journal w') = calls (journal w).
Proof.
  intros Ht Hq. destruct (Ht w) as [a Ha]. specialize (Hq w).
  destruct (m w) as [r w']. simpl in *. subst. by exists a, w'.
Qed.
End Quiet.

Ltac quiet_step :=
  match goal with
  | |- Journal.quiet (mret _) => apply quiet_ret
  | |- Journal.quiet (raise _) => apply quiet_raise
  | |- Journal.quiet (logger _ _) => apply quiet_logger
  | |- Journal.quiet (emit (Sent _ _)) => apply quiet_sent
  | |- Journal.quiet (_ ≫= _) => apply quiet_bind; [|intros ?]
  | |- Journal.quiet (try_except _ _) => apply quiet_try_except; [|intros ?]
  | |- Journal.quiet (try_except_Error _ _) => apply quiet_try_except_Error; [|intros ?]
  | |- Journal.quiet (fold_ _ _ _) => apply quiet_fold_; intros ? ?
  | |- Journal.quiet (for_ _ _) => apply quiet_for_; intros ?
  | |- Journal.quiet (if ?b then _ else _) => destruct b
  | |- Journal.quiet (match ?x with _ => _ end) => destruct x
  end.

Ltac total_step :=
  match goal with
  | |- Journal.total (mret _) => apply total_ret
  | |- Journal.total (logger _ _) => apply total_logger
  | |- Journal.total (try_except _ _) => apply total_try_except; intros ?
  | |- Journal.total (_ ≫= _) => apply total_bind; [|intros ?]
  end.

(** ** The methods of the DatabaseManager call no helper *)

Section Helpers.
Import DatabaseManager Planner Replicator Journal.
Context `{Server DB} `{BackupManager DB} `{SetIter}.
Implicit Types (w : World DB).

Lemma quiet_session {A} c (body : DB → res A * DB) : quiet (session c body).
Proof.
  intros w. unfold session. destruct (body (db c w)) as [r d]. simpl.
  by rewrite journal_set_db.
Qed.

Lemma quiet_get_connection {A} c (body : DB → res A * DB) : quiet (get_connection c body).
Proof. unfold get_connection. repeat (quiet_step || apply quiet_session). Qed.

Lemma quiet_fetch {A} c (q : DB → res A) : quiet (fetch c q).
Proof. apply quiet_get_connection. Qed.

Lemma quiet_send c r : quiet (send c r).
Proof. unfold send. repeat (quiet_step || apply quiet_get_connection). Qed.

Lemma quiet_test_connection c : quiet (test_connection c).
Proof. unfold test_connection. repeat (quiet_step || apply quiet_fetch). Qed.

Lemma quiet_get_table_structure c t : quiet (get_table_structure c t).
Proof. unfold get_table_structure. repeat (quiet_step || apply quiet_fetch). Qed.

Lemma quiet_get_table_foreign_keys c t : quiet (get_table_foreign_keys c t).
Proof. unfold get_table_foreign_keys. repeat (quiet_step || apply quiet_fetch). Qed.

Lemma quiet_get_table_indexes c t : quiet (get_table_indexes c t).
Proof. unfold get_table_indexes. repeat (quiet_step || apply quiet_fetch). Qed.

Lemma quiet_get_create_table_statement c t : quiet (get_create_table_statement c t).
Proof. unfold get_create_table_statement. repeat (quiet_step || apply quiet_fetch). Qed.

Lemma quiet_execute_query c q : quiet (execute_query c q).
Proof. unfold execute_query. repeat (quiet_step || apply quiet_send). Qed.

Lemma quiet_execute_queries c qs : quiet (execute_queries c qs).
Proof. unfold execute_queries. repeat (quiet_step || apply quiet_send). Qed.

Lemma quiet_get_table_data c t : quiet (get_table_data c t).
Proof. unfold get_table_data. repeat (quiet_step || apply quiet_fetch). Qed.

Lemma quiet_get_table_count c t : quiet (get_table_count c t).
Proof. unfold get_table_count. repeat (quiet_step || apply quiet_fetch). Qed.

Lemma quiet_table_exists c t : quiet (table_exists c t).
Proof. unfold table_exists. repeat (quiet_step || apply quiet_fetch). Qed.

Lemma quiet_truncate_table c t : quiet (truncate_table c t).
Proof. unfold truncate_table. repeat (quiet_step || apply quiet_send). Qed.
End Helpers.

Ltac quiet_method :=
  match goal with
  | |- Journal.quiet (DatabaseManager.test_connection _) => apply quiet_test_connection
  | |- Journal.quiet (DatabaseManager.get_table_structure _ _) =>
      apply quiet_get_table_structure
  | |- Journal.quiet (DatabaseManager.get_table_foreign_keys _ _) =>
      apply quiet_get_table_foreign_keys
  | |- Journal.quiet (DatabaseManager.get_table_indexes _ _) => apply quiet_get_table_indexes
  | |- Journal.quiet (DatabaseManager.get_create_table_statement _ _) =>
      apply quiet_get_create_table_statement
  | |- Journal.quiet (DatabaseManager.execute_query _ _) => apply quiet_execute_query
  | |- Journal.quiet (DatabaseManager.execute_queries _ _) => apply quiet_execute_queries
  | |- Journal.quiet (DatabaseManager.get_table_data _ _) => apply quiet_get_table_data
  | |- Journal.quiet (DatabaseManager.get_table_count _ _) => apply quiet_get_table_count
  | |- Journal.quiet (DatabaseManager.table_exists _ _) => apply quiet_table_exists
  | |- Journal.quiet (DatabaseManager.truncate_table _ _) => apply quiet_truncate_table
  | |- Journal.quiet (DatabaseManager.send _ _) => apply quiet_send
  | |- Journal.quiet (DatabaseManager.session _ _) => apply quiet_session
  | |- Journal.quiet (DatabaseManager.get_connection _ _) => apply quiet_get_connection
  | |- Journal.quiet (DatabaseManager.fetch _ _) => apply quiet_fetch
  end.

Ltac solve_quiet := repeat (quiet_step || quiet_method).

(** ** The helpers of the executor return and call no helper *)

Section Executor.
Import DatabaseManager Planner Replicator Journal.
Context `{Server DB} `{BackupManager DB} `{SetIter}.
Implicit Types (w : World DB).

Lemma quiet_sort tables : quiet (_sort_tables_by_dependency tables).
Proof. unfold _sort_tables_by_dependency. solve_quiet. Qed.

Lemma total_sort tables : total (_sort_tables_by_dependency tables).
Proof. unfold _sort_tables_by_dependency. repeat total_step. Qed.

Lemma quiet_get_column_position t c : quiet (_get_column_position t c).
Proof. unfold _get_column_position. solve_quiet. Qed.

Lemma quiet_create_table_without_foreign_keys t stmt :
  quiet (_create_table_without_foreign_keys t stmt).
Proof. unfold _create_table_without_foreign_keys. solve_quiet. Qed.

Lemma quiet_create_table t : quiet (_create_table t).
Proof.
  unfold _create_table.
  repeat (quiet_step || quiet_method || apply quiet_create_table_without_foreign_keys).
Qed.

Lemma total_create_table t : total (_create_table t).
Proof. unfold _create_table. repeat total_step. Qed.

Lemma quiet_alter_table t diffs : quiet (_alter_table t diffs).
Proof.
  unfold _alter_table. repeat (quiet_step || quiet_method || apply quiet_get_column_position).
Qed.

Lemma total_alter_table t diffs : total (_alter_table t diffs).
Proof. unfold _alter_table. repeat total_step. Qed.

Lemma quiet_update_foreign_keys t diffs : quiet (_update_foreign_keys t diffs).
Proof. unfold _update_foreign_keys. solve_quiet. Qed.

Lemma total_update_foreign_keys t diffs : total (_update_foreign_keys t diffs).
Proof. unfold _update_foreign_keys. repeat total_step. Qed.

Lemma quiet_update_indexes t diffs : quiet (_update_indexes t diffs).
Proof. unfold _update_indexes. solve_quiet. Qed.

Lemma total_update_indexes t diffs : total (_update_indexes t diffs).
Proof. unfold _update_indexes. repeat total_step. Qed.

Lemma quiet_add_missing_foreign_keys ts : quiet (_add_missing_foreign_keys ts).
Proof. unfold _add_missing_foreign_keys. solve_quiet. Qed.

Lemma total_add_missing_foreign_keys ts : total (_add_missing_foreign_keys ts).
Proof. unfold _add_missing_foreign_keys. repeat total_step. Qed.

Lemma quiet_insert_data t cols data : quiet (_insert_data t cols data).
Proof. unfold _insert_data, insert_in_batches, insert_batch. solve_quiet. Qed.

Lemma quiet_replicate_data ts : quiet (replicate_data ts).
Proof.
  unfold replicate_data, replicate_table_data, clear_and_copy.
  repeat (quiet_step || quiet_method || apply quiet_insert_data).
Qed.

Lemma total_replicate_data ts : total (replicate_data ts).
Proof. unfold replicate_data. repeat total_step. Qed.

Lemma quiet_analyze_table_differences t : quiet (analyze_table_differences t).
Proof. unfold analyze_table_differences. solve_quiet. Qed.

Lemma quiet_get_replication_plan ts ms : quiet (get_replication_plan ts ms).
Proof.
  unfold get_replication_plan.
  repeat (quiet_step || apply quiet_analyze_table_differences).
Qed.
End Executor.

(** ** The order of the helper calls *)

Section Phases.
Import Plan DatabaseManager Planner Replicator Journal.
Context `{Server DB} `{BackupManager DB} `{SetIter}.
Implicit Types (w : World DB).

Lemma bind_val {A B} (m : M DB A) (k : A → M DB B) w a w1 :
  m w = (Val a, w1) → (m ≫= k) w = k a w1.
Proof. intros Hm. by rewrite bind_run, Hm. Qed.

Lemma bind_raise {A B} (m : M DB A) (k : A → M DB B) w e w1 :
  m w = (Raise e, w1) → (m ≫= k) w = (Raise e, w1).
Proof. intros Hm. by rewrite bind_run, Hm. Qed.

Lemma calling_run {A} (a : call) (m : M DB A) w :
  total m → quiet m →
  ∃ r w', calling a m w = (Val r, w')
          ∧ calls (journal w') = calls (journal w) ++ marks [a].
Proof.
  intros Ht Hq.
  destruct (total_quiet_run m (extend w [Enter a]) Ht Hq) as (r & w1 & Hrun & Hcalls).
  exists r, (extend w1 [Leave a]). unfold calling.
  rewrite bind_run, emit_run, bind_run, Hrun, bind_run, emit_run. split; [done|].
  rewrite calls_extend, Hcalls, calls_extend. simpl. by rewrite <-app_assoc.
Qed.

Lemma create_loop_run order w :
  ∃ w', fold_ order
          (λ _ table_name,
             logger info ("Criando tabela: " +:+ table_name);;
             calling (CreateTable table_name) (_create_table table_name);;
             mret ())
          () w = (Val (), w')
        ∧ calls (journal w') = calls (journal w) ++ marks (CreateTable <$> order).
Proof.
  revert w. induction order as [|t order IH]; intros w.
  - exists w. simpl. by rewrite app_nil_r.
  - destruct (calling_run (CreateTable t) (_create_table t)
                (extend w [Log info ("Criando tabela: " +:+ t)]))
      as (r & w1 & Hrun & Hcalls);
      [apply total_create_table|apply quiet_create_table|].
    destruct (IH w1) as (w' & Hrest & Hcalls').
    exists w'. cbn [fold_]. rewrite bind_run, bind_run, logger_run, bind_run, Hrun.
    cbn [mret M_ret ret]. rewrite Hrest. split; [done|].
    rewrite Hcalls', Hcalls, calls_extend. csimpl. by rewrite app_nil_r, <-app_assoc.
Qed.

Lemma alter_step (entry : string * Action) w :
  ∃ w', (let '(table_name, action) := entry in
         logger info ("Alterando estrutura da tabela: " +:+ table_name);;
         match action with
         | alter_table _ differences =>
             calling (AlterColumns table_name)
                     (_alter_table table_name differences);;
             mret ()
         | update_foreign_keys _ differences =>
             calling (ReconcileForeignKeys table_name)
                     (_update_foreign_keys table_name differences);;
             mret ()
         | update_indexes _ differences =>
             calling (ReconcileIndexes table_name)
                     (_update_indexes table_name differences);;
             mret ()
         | _ => mret ()
         end) w = (Val (), w')
        ∧ calls (journal w') = calls (journal w) ++ marks (alter_call entry).
Proof.
  destruct entry as [t action]. unfold alter_call. cbn [fst snd].
  rewrite bind_run, logger_run.
  set (w0 := extend w [Log info ("Alterando estrutura da tabela: " +:+ t)]).
  assert (calls (journal w0) = calls (journal w)) as Hw0.
  { unfold w0. rewrite calls_extend. apply app_nil_r. }
  destruct action as [d|d diffs|d diffs|d diffs|d n m].
  - exists w0. by rewrite app_nil_r.
  - destruct (calling_run (AlterColumns t) (_alter_table t diffs) w0)
      as (r & w1 & Hrun & Hcalls); [apply total_alter_table|apply quiet_alter_table|].
    exists w1. rewrite bind_run, Hrun. by rewrite Hcalls, Hw0.
  - destruct (calling_run (ReconcileForeignKeys t) (_update_foreign_keys t diffs) w0)
      as (r & w1 & Hrun & Hcalls);
      [apply total_update_foreign_keys|apply quiet_update_foreign_keys|].
    exists w1. rewrite bind_run, Hrun. by rewrite Hcalls, Hw0.
  - destruct (calling_run (ReconcileIndexes t) (_update_indexes t diffs) w0)
      as (r & w1 & Hrun & Hcalls); [apply total_update_indexes|apply quiet_update_indexes|].
    exists w1. rewrite bind_run, Hrun. by rewrite Hcalls, Hw0.
  - exists w0. by rewrite app_nil_r.
Qed.

Lemma alter_loop_run (to_alter : list (string * Action)) w :
  ∃ w', fold_ to_alter
          (λ _ '(table_name, action),
             logger info ("Alterando estrutura da tabela: " +:+ table_name);;
             match action with
             | alter_table _ differences =>
                 calling (AlterColumns table_name)
                         (_alter_table table_name differences);;
                 mret ()
             | update_foreign_keys _ differences =>
                 calling (ReconcileForeignKeys table_name)
                         (_update_foreign_keys table_name differences);;
                 mret ()
             | update_indexes _ differences =>
                 calling (ReconcileIndexes table_name)
                         (_update_indexes table_name differences);;
                 mret ()
             | _ => mret ()
             end)
          () w = (Val (), w')
        ∧ calls (journal w') = calls (journal w) ++ marks (flat_map alter_call to_alter).
Proof.
  revert w. induction to_alter as [|entry to_alter IH]; intros w.
  - exists w. simpl. by rewrite app_nil_r.
  - destruct (alter_step entry w) as (w1 & Hrun & Hcalls).
    destruct (IH w1) as (w' & Hrest & Hcalls').
    exists w'. cbn [fold_]. rewrite bind_run, Hrun, Hrest. split; [done|].
    rewrite Hcalls', Hcalls. unfold marks. simpl. by rewrite flat_map_app, <-app_assoc.
Qed.

Lemma apply_plan_run plan w :
  ∃ order w',
    apply_plan plan w = (Val true, w') ∧ create_order w plan order
    ∧ calls (journal w')
      = calls (journal w) ++ marks (CreateTable <$> order)
        ++ marks (flat_map alter_call (tables_to_alter plan))
        ++ marks [AddMissingForeignKeys order].
Proof.
  unfold apply_plan.
  assert (∃ order w1,
            (if truthy (tables_to_create plan)
             then _sort_tables_by_dependency (tables_to_create plan)
             else mret (tables_to_create plan)) w = (Val order, w1)
            ∧ create_order w plan order ∧ calls (journal w1) = calls (journal w))
    as (order & w1 & Hsort & Horder & Hcalls1).
  { destruct (tables_to_create plan) as [|t ts] eqn:Hcreate.
    - exists [], w. split_and!; [done|by left|done].
    - destruct (total_quiet_run (_sort_tables_by_dependency (t :: ts)) w
                  (total_sort _) (quiet_sort _)) as (order & w1 & Hrun & Hcalls).
      exists order, w1. split_and!; [done| |done]. right. rewrite <-Hcreate in Hrun.
      unfold create_order. rewrite Hcreate. rewrite Hcreate in Hrun. eauto. }
  exists order. rewrite (bind_val _ _ _ _ _ Hsort).
  rewrite bind_run, logger_run.
  destruct (create_loop_run order (extend w1 [Log info "Criando tabelas..."]))
    as (w2 & Hcreate & Hcalls2).
  rewrite (bind_val _ _ _ _ _ Hcreate), bind_run, logger_run.
  destruct (alter_loop_run (tables_to_alter plan)
              (extend w2 [Log info "Aplicando alterações estruturais..."]))
    as (w3 & Halter & Hcalls3).
  rewrite (bind_val _ _ _ _ _ Halter), bind_run, logger_run.
  destruct (calling_run (AddMissingForeignKeys order) (_add_missing_foreign_keys order)
              (extend w3 [Log info "Adicionando chaves estrangeiras pendentes..."]))
    as (r & w4 & Hadd & Hcalls4);
    [apply total_add_missing_foreign_keys|apply quiet_add_missing_foreign_keys|].
  rewrite (bind_val _ _ _ _ _ Hadd), bind_run, logger_run.
  eexists. split_and!; [done|done|].
  rewrite calls_extend, Hcalls4, calls_extend, Hcalls3, calls_extend, Hcalls2,
    calls_extend, Hcalls1. simpl. by rewrite !app_nil_r, <-!app_assoc.
Qed.

Lemma try_except_val {A} (m : M DB A) h w a w1 :
  m w = (Val a, w1) → try_except m h w = (Val a, w1).
Proof. intros Hm. unfold try_except. by rewrite Hm. Qed.

Lemma try_except_raise {A} (m : M DB A) h w e w1 :
  m w = (Raise e, w1) → try_except m h w = h e w1.
Proof. intros Hm. unfold try_except. by rewrite Hm. Qed.

Lemma quiet_run {A} (m : M DB A) w r w1 :
  quiet m → m w = (r, w1) → calls (journal w1) = calls (journal w).
Proof. intros Hq Hm. specialize (Hq w). by rewrite Hm in Hq. Qed.

Lemma quiet_backup (with_backup : bool) tables :
  quiet (if with_backup then
           logger info "Criando backup antes da replicação";;
           session target_db (λ d, (create_backup d "production" tables, d));;
           mret ()
         else mret ()).
Proof. solve_quiet. Qed.

(** The backup step writes log lines, and nothing else. *)
Lemma backup_logs (with_backup : bool) tables w :
  ∃ r j,
    (if with_backup then
       logger info "Criando backup antes da replicação";;
       session target_db (λ d, (create_backup d "production" tables, d));;
       mret ()
     else mret ()) w = (r, extend w j)
    ∧ Forall is_log j.
Proof.
  destruct with_backup.
  - rewrite bind_run, logger_run, bind_run. unfold session.
    rewrite set_db_same.
    destruct (create_backup _ _ _); eexists _, _; (split; [done|]);
      repeat constructor; by eexists _, _.
  - exists (Val ()), []. by rewrite extend_nil.
Qed.

(** A connection that passed the test left no trace. *)
Lemma test_connection_true c w w' : test_connection c w = (Val true, w') → w' = w.
Proof.
  unfold test_connection, try_except_Error. rewrite bind_run.
  destruct (select_1 (db c w)) as [[]|[msg|msg]] eqn:Hq.
  - rewrite (fetch_val _ _ _ ()) by done. by intros [= <-].
  - rewrite (fetch_Error _ _ _ msg) by done. by rewrite bind_run, logger_run.
  - by rewrite (fetch_Exception _ _ _ msg).
Qed.

Lemma replicate_structure_run tables maintain_tables with_backup w :
  ∃ ok w',
    replicate_structure tables maintain_tables with_backup w = (Val ok, w')
    ∧ ((ok = false ∧ calls (journal w') = calls (journal w))
       ∨ (ok = true
          ∧ ∃ j plan w1 order,
              Forall is_log j
              ∧ get_replication_plan tables maintain_tables (extend w j) = (Val plan, w1)
              ∧ create_order w1 plan order
              ∧ calls (journal w')
                = calls (journal w) ++ marks (CreateTable <$> order)
                  ++ marks (flat_map alter_call (tables_to_alter plan))
                  ++ marks [AddMissingForeignKeys order])).
Proof.
  unfold replicate_structure.
  set (w0 := extend w [Log info "Iniciando replicação de estrutura"]).
  assert (calls (journal w0) = calls (journal w)) as Hw0.
  { unfold w0. rewrite calls_extend. apply app_nil_r. }
  destruct (backup_logs with_backup tables w0) as (r & jb & Hbackup & Hjb).
  assert (calls (journal (extend w0 jb)) = calls (journal w)) as Hwb.
  { rewrite <-Hw0. by eapply quiet_run; [apply (quiet_backup with_backup tables)|]. }
  destruct r as [[]|e].
  2:{ eexists false, _. split; [|left; split; [done|]].
      - erewrite try_except_raise; [by rewrite bind_run, logger_run|].
        rewrite bind_run, logger_run. fold w0. by rewrite bind_run, Hbackup.
      - by rewrite calls_extend, app_nil_r. }
  destruct (get_replication_plan tables maintain_tables (extend w0 jb))
    as [[plan|e] wp] eqn:Hplan.
  2:{ eexists false, _. split; [|left; split; [done|]].
      - erewrite try_except_raise; [by rewrite bind_run, logger_run|].
        rewrite bind_run, logger_run. fold w0. rewrite bind_run, Hbackup.
        by rewrite bind_run, Hplan.
      - rewrite calls_extend, app_nil_r, <-Hwb.
        by eapply quiet_run; [apply quiet_get_replication_plan|]. }
  assert (calls (journal wp) = calls (journal w)) as Hwp.
  { rewrite <-Hwb. by eapply quiet_run; [apply quiet_get_replication_plan|]. }
  destruct (apply_plan_run plan wp) as (order & w' & Hrun & Horder & Hcalls).
  exists true, w'. split; [|right; split; [done|]].
  - apply try_except_val. rewrite bind_run, logger_run. fold w0.
    rewrite bind_run, Hbackup. by rewrite bind_run, Hplan.
  - exists (Log info "Iniciando replicação de estrutura" :: jb), plan, wp, order.
    split_and!; [|by rewrite <-Hplan; unfold w0; rewrite extend_extend|done|
                 by rewrite Hcalls, Hwp].
    constructor; [by eexists _, _|done].
Qed.

Lemma data_phase_run maintain_tables w :
  ∃ ok w' data_calls,
    (if truthy maintain_tables
     then calling (ReplicateData maintain_tables) (replicate_data maintain_tables)
     else logger info "Nenhuma tabela configurada para replicação de dados";;
          mret true) w = (Val ok, w')
    ∧ calls (journal w') = calls (journal w) ++ data_calls
    ∧ (data_calls = [] ∨ data_calls = marks [ReplicateData maintain_tables]).
Proof.
  destruct (truthy maintain_tables).
  - destruct (calling_run (ReplicateData maintain_tables)
                (replicate_data maintain_tables) w)
      as (ok & w' & Hrun & Hcalls); [apply total_replicate_data|apply quiet_replicate_data|].
    exists ok, w', (marks [ReplicateData maintain_tables]). split_and!; [done|done|by right].
  - eexists true, _, []. rewrite bind_run, logger_run. split_and!; [done| |by left].
    by rewrite calls_extend.
Qed.

Lemma full_replication_run all_tables maintain_tables with_backup w :
  ∃ ok w',
    full_replication all_tables maintain_tables with_backup w = (Val ok, w')
    ∧ (calls (journal w') = calls (journal w)
       ∨ ∃ j ok1 w2 data_calls,
           Forall is_log j
           ∧ replicate_structure all_tables maintain_tables with_backup (extend w j)
             = (Val ok1, w2)
           ∧ calls (journal w') = calls (journal w2) ++ data_calls
           ∧ (data_calls = [] ∨ data_calls = marks [ReplicateData maintain_tables])).
Proof.
  unfold full_replication.
  match goal with |- context [try_except ?m ?h] => set (body := m); set (handler := h) end.
  assert (∀ e w1, ∃ w2, handler e w1 = (Val false, w2)
                        ∧ calls (journal w2) = calls (journal w1)) as Hhandler.
  { intros e w1. eexists. unfold handler. rewrite bind_run, logger_run.
    split; [done|]. rewrite calls_extend. apply app_nil_r. }
  assert (∃ r w',
            body w = (r, w')
            ∧ (calls (journal w') = calls (journal w)
               ∨ ∃ ok, r = Val ok ∧ ∃ j ok1 w2 data_calls,
                   Forall is_log j
                   ∧ replicate_structure all_tables maintain_tables with_backup
                       (extend w j)
                     = (Val ok1, w2)
                   ∧ calls (journal w') = calls (journal w2) ++ data_calls
                   ∧ (data_calls = [] ∨ data_calls = marks [ReplicateData maintain_tables])))
    as (r & w' & Hbody & Hkind).
  { unfold body. rewrite bind_run, logger_run, bind_run, logger_run, bind_run, logger_run.
    rewrite !extend_extend.
    match goal with |- context [extend w ?j] => set (j0 := j); set (w0 := extend w j0) end.
    assert (Forall is_log j0) as Hj0 by (repeat constructor; by eexists _, _).
    assert (calls (journal w0) = calls (journal w)) as Hw0.
    { unfold w0. rewrite calls_extend. apply app_nil_r. }
    rewrite bind_run.
    destruct (test_connection source_db w0) as [[[]|e] wa] eqn:Hsource;
      pose proof (quiet_run _ _ _ _ (quiet_test_connection source_db) Hsource) as Hwa;
      cbn [negb].
    2:{ eexists _, _. rewrite bind_run, logger_run. split; [done|left].
        by rewrite calls_extend, app_nil_r, Hwa. }
    2:{ eexists _, _. split; [done|left]. by rewrite Hwa. }
    apply test_connection_true in Hsource as ->.
    rewrite bind_run.
    destruct (test_connection target_db w0) as [[[]|e] wb] eqn:Htarget;
      pose proof (quiet_run _ _ _ _ (quiet_test_connection target_db) Htarget) as Hwb;
      cbn [negb].
    2:{ eexists _, _. rewrite bind_run, logger_run. split; [done|left].
        by rewrite calls_extend, app_nil_r, Hwb. }
    2:{ eexists _, _. split; [done|left]. by rewrite Hwb. }
    apply test_connection_true in Htarget as ->.
    destruct (replicate_structure_run all_tables maintain_tables with_backup w0)
      as (ok1 & w2 & Hstructure & _).
    rewrite bind_run, Hstructure. destruct ok1; cbn [negb].
    - destruct (data_phase_run maintain_tables w2) as (ok & w3 & D & Hdata & Hcalls & HD).
      rewrite bind_run, Hdata. destruct ok; cbn [negb].
      + eexists _, _. rewrite bind_run, logger_run. split; [done|right].
        eexists. split; [done|]. exists j0, true, w2, D.
        split_and!; [done|done| |done].
        by rewrite calls_extend, app_nil_r.
      + eexists _, _. split; [done|right]. eexists. split; [done|].
        exists j0, true, w2, D. split_and!; [done|done|done|done].
    - eexists _, _. split; [done|right]. eexists. split; [done|].
      exists j0, false, w2, []. split_and!; [done|done| |by left].
      by rewrite app_nil_r. }
  destruct r as [ok|e].
  - exists ok, w'. split; [by apply try_except_val|].
    destruct Hkind as [?|(ok' & _ & Hrest)]; [by left|by right].
  - destruct (Hhandler e w') as (w2 & Hh & Hcalls).
    exists false, w2. split; [by erewrite try_except_raise|left].
    destruct Hkind as [Hsame|(ok' & ? & _)]; [|done]. by rewrite Hcalls.
Qed.
End Phases.

(** ** Creating a table *)

Section Create.
Import Plan DatabaseManager Planner Replicator Journal.
Context `{Server DB} `{BackupManager DB} `{SetIter}.
Implicit Types (w : World DB).

(** [execute_query]: [True], [False] for an [Error], or the exception. *)
Lemma execute_query_run c query w :
  ∃ j, Forall is_log j
       ∧ execute_query c query w
         = (match (serve (db c w) (Execute query)).1 with
            | Val _ => Val true
            | Raise (Error _) => Val false
            | Raise (Exception msg) => Raise (Exception msg)
            end,
            extend (set_db c (serve (db c w) (Execute query)).2 w)
                   (Sent c (Execute query) :: j)).
Proof.
  destruct (send_run c (Execute query) w) as (j & Hlogs & Hsend).
  unfold execute_query, try_except_Error. rewrite bind_run, Hsend.
  destruct (serve (db c w) (Execute query)) as [[[]|[msg|msg]] d']; cbn [fst snd].
  - by exists j.
  - eexists (j ++ [_]). rewrite bind_run, logger_run, extend_extend. split; [|done].
    apply Forall_app. split; [done|]. repeat constructor. by eexists _, _.
  - by exists j.
Qed.

Lemma get_create_table_statement_val c t w stmt :
  show_create_table (db c w) t = Val stmt →
  get_create_table_statement c t w = (Val stmt, w).
Proof.
  intros Hstmt. unfold get_create_table_statement, try_except_Error.
  by rewrite (fetch_val _ _ _ stmt).
Qed.

Lemma create_table_without_foreign_keys_run t stmt w :
  ∃ j, _create_table_without_foreign_keys t stmt w
       = (Val (match (serve (target w) (Execute (without_foreign_keys stmt))).1 with
               | Val _ => true
               | Raise _ => false
               end),
          extend (set_db target_db
                    (serve (target w) (Execute (without_foreign_keys stmt))).2 w) j)
       ∧ requests_sent j = [(target_db, Execute (without_foreign_keys stmt))].
Proof.
  destruct (execute_query_run target_db (without_foreign_keys stmt) w)
    as (j & Hlogs & Hrun).
  unfold _create_table_without_foreign_keys, try_except. rewrite bind_run, Hrun.
  cbn [db].
  destruct (serve (target w) (Execute (without_foreign_keys stmt)))
    as [[[]|[msg|msg]] d']; cbn [fst snd].
  - rewrite bind_run, logger_run, extend_extend. eexists. split; [done|].
    change (?x :: ?l ++ ?l') with ([x] ++ (l ++ l')).
    rewrite !requests_sent_app. simpl.
    by rewrite (requests_sent_logs j).
  - rewrite bind_run, logger_run, extend_extend. eexists. split; [done|].
    change (?x :: ?l ++ ?l') with ([x] ++ (l ++ l')).
    rewrite !requests_sent_app. simpl.
    by rewrite (requests_sent_logs j).
  - rewrite bind_run, logger_run, extend_extend. eexists. split; [done|].
    change (?x :: ?l ++ ?l') with ([x] ++ (l ++ l')).
    rewrite !requests_sent_app. simpl.
    by rewrite (requests_sent_logs j).
Qed.

Lemma create_table_retry t w stmt msg d1 :
  show_create_table (source w) t = Val stmt → stmt ≠ "" →
  serve (target w) (Execute stmt) = (Raise (Exception msg), d1) →
  PyStr.contains "Foreign key constraint" msg = true →
  ∃ j, _create_table t w
       = (Val (match (serve d1 (Execute (without_foreign_keys stmt))).1 with
               | Val _ => true
               | Raise _ => false
               end),
          extend (set_db target_db (serve d1 (Execute (without_foreign_keys stmt))).2 w) j)
       ∧ requests_sent j = [(target_db, Execute stmt);
                            (target_db, Execute (without_foreign_keys stmt))].
Proof.
  intros Hstmt Hne Hserve Hfk.
  destruct (execute_query_run target_db stmt w) as (j1 & Hlogs1 & Hrun1).
  cbn [db] in Hrun1. rewrite Hserve in Hrun1. cbn [fst snd] in Hrun1.
  destruct (create_table_without_foreign_keys_run t stmt
              (extend (set_db target_db d1 w)
                 ((Sent target_db (Execute stmt) :: j1)
                  ++ [Log warning ("Erro de chave estrangeira ao criar " +:+ t
                                   +:+ ", tentando sem constraints")])))
    as (j2 & Hrun2 & Hsent2).
  autorewrite with world in Hrun2.
  eexists. split.
  - unfold _create_table. apply try_except_val.
    rewrite bind_run, (get_create_table_statement_val _ _ _ stmt) by done.
    rewrite bool_decide_eq_false_2 by done.
    rewrite bind_run. unfold try_except at 1. rewrite bind_run, Hrun1.
    cbn [str]. rewrite Hfk. rewrite bind_run, logger_run, extend_extend.
    rewrite bind_run, Hrun2.
    cbn [mret M_ret ret default]. rewrite !set_db_extend, !extend_extend.
    reflexivity.
  - rewrite !requests_sent_app. simpl. rewrite (requests_sent_logs j1) by done.
    simpl. by rewrite Hsent2.
Qed.
End Create.

(** ** The scheduler as a method *)

Section SortMethod.
Import Plan DatabaseManager Planner Replicator Journal.
Context `{Server DB} `{BackupManager DB} `{SetIterLaws}.
Implicit Types (w : World DB).

Lemma get_table_foreign_keys_val c t w fks :
  key_column_usage (db c w) t = Val fks →
  get_table_foreign_keys c t w = (Val fks, w).
Proof.
  intros Hfks. unfold get_table_foreign_keys, try_except_Error.
  by rewrite (fetch_val _ _ _ fks).
Qed.

Lemma fetch_dependencies fks_of tables (l : list string) d w :
  (∀ t, t ∈ l → key_column_usage (source w) t = Val (fks_of t)) →
  fold_ l
    (λ dependencies table,
       fks ← get_table_foreign_keys source_db table;
       mret (PyDict.set dependencies table (Schedule.deps_in tables fks)))
    d w
  = (Val (fold_left (λ d table, PyDict.set d table
                                  (Schedule.deps_in tables (fks_of table))) l d), w).
Proof.
  revert d. induction l as [|t l IH]; intros d Hreads; [done|].
  cbn [fold_ fold_left]. rewrite bind_run, bind_run.
  rewrite (get_table_foreign_keys_val _ _ _ (fks_of t)) by (apply Hreads; left).
  cbn [mret M_ret ret]. apply IH. intros t' Ht'. apply Hreads. by right.
Qed.

Lemma sort_method_run fks_of tables w out :
  (∀ t, t ∈ tables → key_column_usage (source w) t = Val (fks_of t)) →
  Schedule.sort_tables_by_dependency fks_of tables = Some out →
  _sort_tables_by_dependency tables w = (Val out, w).
Proof.
  intros Hreads Hout. unfold _sort_tables_by_dependency. apply try_except_val.
  rewrite bind_run, (fetch_dependencies fks_of) by done.
  unfold Schedule.sort_tables_by_dependency, Schedule.build_dependencies in Hout.
  by rewrite Hout.
Qed.
End SortMethod.

(** * Properties of the diff engine, the scheduler and the positions *)

Section Properties.
Import Plan DatabaseManager StructureAnalyzer Planner Replicator Journal.

(** C4.  Diffing a table against itself reports nothing: the column
    comparison, the foreign-key comparison and the index comparison of a
    schema with itself are all empty. *)
Theorem diff_self_is_empty `{SetIterLaws}
    (cols : list Column) (fks : list ForeignKey) (idx : list IndexRow) :
  _compare_structures cols cols = []
  ∧ _compare_foreign_keys fks fks = []
  ∧ _compare_indexes idx idx = [].
Proof.
  split_and!;
    [apply compare_structures_self|apply compare_foreign_keys_self
    |apply compare_indexes_self].
Qed.

(** C5.  The columns reported missing by the diff of A against B are the
    columns reported extra by the diff of B against A, as sets of names;
    the same holds for foreign keys, as sets of (column, referenced table,
    referenced column), and for indexes, as sets of index names.  The two
    diffs may walk their sets in different orders. *)
Theorem diff_missing_extra_duality (I1 I2 : SetIter)
    (L1 : @SetIterLaws I1) (L2 : @SetIterLaws I2)
    (a_cols b_cols : list Column) (a_fks b_fks : list ForeignKey)
    (a_idx b_idx : list IndexRow) :
  list_to_set (missing_columns (_compare_structures a_cols b_cols))
    =@{gset string} list_to_set (extra_columns (_compare_structures b_cols a_cols))
  ∧ list_to_set (missing_foreign_keys (@_compare_foreign_keys I1 a_fks b_fks))
    =@{gset fk_key} list_to_set (extra_foreign_keys (@_compare_foreign_keys I2 b_fks a_fks))
  ∧ list_to_set (missing_indexes (_compare_indexes a_idx b_idx))
    =@{gset string} list_to_set (extra_indexes (_compare_indexes b_idx a_idx)).
Proof.
  rewrite missing_columns_compare, extra_columns_compare.
  rewrite missing_indexes_compare, extra_indexes_compare.
  rewrite missing_foreign_keys_compare, extra_foreign_keys_compare.
  split_and!; [done| |done].
  by rewrite (@list_to_set_set_iter I1 L1), (@list_to_set_set_iter I2 L2).
Qed.

(** C3.  For every list of tables and every assignment of foreign keys to
    tables, cyclic or not, the scheduler ends within as many turns as there
    are distinct tables and returns a list without duplicates that holds
    exactly the tables given; it is a permutation of the input when the
    input names no table twice.  [_sort_tables_by_dependency] returns this
    list when the source answers with these foreign keys. *)
Theorem scheduler_returns_permutation `{Server DB} `{SetIterLaws}
    (fks_of : string → list ForeignKey) (tables : list string) :
  ∃ out, Schedule.sort_tables_by_dependency fks_of tables = Some out
         ∧ NoDup out ∧ (∀ t, t ∈ out ↔ t ∈ tables)
         ∧ (NoDup tables → out ≡ₚ tables)
         ∧ (∀ w : World DB,
              (∀ t, t ∈ tables → key_column_usage (source w) t = Val (fks_of t)) →
              _sort_tables_by_dependency tables w = (Val out, w)).
Proof.
  destruct (sort_tables_by_dependency_total fks_of tables) as (out & Hout & Hnodup & Hall).
  exists out. split_and!; [done|done|done| |].
  - intros Htables. by apply NoDup_Permutation.
  - intros w Hreads. by apply (sort_method_run fks_of).
Qed.

(** C7.  The position of an added column depends on the source order, the
    target order and the column name alone.  For a column of the source
    order: [FIRST] when it is the first one; [AFTER] the nearest earlier
    column of the source order that the target has; [FIRST] when the target
    has none of the earlier ones.  [_get_column_position] returns this
    value of the two fetched orders and leaves the world as it is. *)
Theorem column_position_resolution `{Server DB}
    (source_columns target_columns : list string) (c : string) :
  c ∈ source_columns →
  (∀ rest, source_columns = c :: rest →
           Position.column_position source_columns target_columns c = "FIRST")
  ∧ (∀ pre prev mid post,
       source_columns = pre ++ prev :: mid ++ c :: post → c ∉ pre ++ prev :: mid →
       prev ∈ target_columns → (∀ x, x ∈ mid → x ∉ target_columns) →
       Position.column_position source_columns target_columns c
       = "AFTER `" +:+ prev +:+ "`")
  ∧ (∀ pre post,
       source_columns = pre ++ c :: post → c ∉ pre →
       (∀ x, x ∈ pre → x ∉ target_columns) →
       Position.column_position source_columns target_columns c = "FIRST")
  ∧ (∀ (w : World DB) table_name source_structure target_structure,
       describe (source w) table_name = Val source_structure →
       describe (target w) table_name = Val target_structure →
       Field <$> source_structure = source_columns →
       Field <$> target_structure = target_columns →
       _get_column_position table_name c w
       = (Val (Position.column_position source_columns target_columns c), w)).
Proof.
  intros Hc. destruct (column_position_cases source_columns target_columns c Hc)
    as (Hfirst & Hafter & Hnone).
  split_and!; [done|done|done|].
  intros w t ss ts Hs Ht <- <-. unfold _get_column_position.
  apply try_except_val.
  rewrite bind_run, (get_table_structure_val _ _ _ ss) by done.
  by rewrite bind_run, (get_table_structure_val _ _ _ ts) by done.
Qed.
End Properties.

(** * Properties of the executor and the data copier *)

Section ExecutorProperties.
Import Plan DatabaseManager StructureAnalyzer Planner Replicator Journal.
Context `{Server DB} `{BackupManager DB} `{SetIter}.
Implicit Types (w : World DB).


(** C9.  The rows are cut into batches of 1000: the batches put end to end
    are the rows, there are ceiling(N/1000) of them, and each holds between
    1 and 1000 rows.  [_insert_data] sends the batches in order, each as a
    request of its own that the server commits by itself, up to and
    including the first one that raises; it returns [True] when all went
    through and [False] at the first that raised, and the target is then in
    the state the sent requests left it in.  Without rows nothing is sent.
    In [replicate_data], once the target table is cleared: with no source
    row the target stays as the clearing left it, and a batch that fails
    makes the run return [False] at that table. *)
Theorem data_copier_batches (table_name : string) (columns : list string)
    (data : list Row) w :
  let requests := ExecuteMany (insert_query table_name columns) <$> batches 1000 data in
  (concat (batches 1000 data) = data
   ∧ length (batches 1000 data) = ((length data + 999) / 1000)%nat
   ∧ Forall (λ b : list Row, (0 < length b ≤ 1000)%nat) (batches 1000 data))
  ∧ (∃ k ok w' outcomes,
       _insert_data table_name columns data w = (Val ok, w')
       ∧ source w' = source w
       ∧ serve_all (target w) (take k requests) = (outcomes, target w')
       ∧ requests_sent (journal w')
         = requests_sent (journal w) ++ ((λ r, (target_db, r)) <$> take k requests)
       ∧ ((ok = true ∧ k = length requests ∧ outcomes = replicate k (Val ()))
          ∨ (ok = false
             ∧ ∃ i e, k = S i ∧ (i < length requests)%nat
                      ∧ outcomes = replicate i (Val ()) ++ [Raise e])))
  ∧ (data = [] → _insert_data table_name columns data w = (Val true, w))
  ∧ (∀ d1,
       serve (target w) (Truncate table_name) = (Val (), d1) →
       select_all (source w) table_name = Val data →
       (data = [] →
        ∃ r w', clear_and_copy table_name columns w = (r, w')
                ∧ source w' = source w ∧ target w' = d1
                ∧ requests_sent (journal w')
                  = requests_sent (journal w) ++ [(target_db, Truncate table_name)])
       ∧ (∀ w2,
            _insert_data table_name columns data (cleared table_name d1 w)
            = (Val false, w2) →
            clear_and_copy table_name columns w
            = (Val (Some false),
               extend w2 [Log error ("Erro ao inserir dados na tabela "
                                     +:+ table_name)])))
  ∧ (∀ structure,
       reported_present (source w) table_name →
       reported_present (target w) table_name →
       describe (source w) table_name = Val structure → structure ≠ [] →
       replicate_table_data table_name w
       = clear_and_copy table_name (Field <$> structure)
           (extend w [Log info ("Replicando dados da tabela: " +:+ table_name)]))
  ∧ (∀ rest w0 w',
       replicate_table_data table_name
         (extend w0 [Log info "Iniciando replicação de dados"])
       = (Val (Some false), w') →
       replicate_data (table_name :: rest) w0 = (Val false, w')).
Proof.
  cbv zeta. split_and!.
  - apply batches_concat. lia.
  - rewrite batches_length by lia. done.
  - apply batches_sizes. lia.
  - apply (insert_in_batches_run 1000).
  - by intros ->.
  - intros d1 Hclear Hdata. split.
    + intros ->. by apply clear_and_copy_no_rows.
    + intros w2. by apply clear_and_copy_failed_batch.
  - intros structure. apply replicate_table_data_copies.
  - intros rest w0 w'. apply replicate_data_aborts.
Qed.
End ExecutorProperties.

(** * Further properties: the diff, the analysis and the requests sent *)

(** ** When a comparison reports nothing *)

Section Comparisons.
Import StructureAnalyzer.

(** The entry a comprehension [{col['Field']: col for col in rows}] keeps
    for a key: the last row with that field. *)
Lemma get_cols_by_field_acc rows (d : PyDict.dict Column) k :
  PyDict.get (fold_left (λ d col, PyDict.set d (Field col) col) rows d) k
  = match last (List.filter (λ col, bool_decide (Field col = k)) rows) with
    | Some col => Some col
    | None => PyDict.get d k
    end.
Proof.
  revert d. induction rows as [|c rows IH]; intros d; simpl; [done|].
  rewrite IH, DictFacts.get_set.
  destruct (decide (Field c = k)) as [Hk|Hk].
  - rewrite !bool_decide_eq_true_2 by done. simpl.
    destruct (List.filter _ rows) as [|c' l] eqn:Hf; simpl; [done|].
    by destruct (last (c' :: l)) eqn:Hl; [|apply last_None in Hl].
  - by rewrite !bool_decide_eq_false_2 by done.
Qed.

Lemma get_cols_by_field rows k :
  PyDict.get (cols_by_field rows) k
  = last (List.filter (λ col, bool_decide (Field col = k)) rows).
Proof.
  unfold cols_by_field. rewrite get_cols_by_field_acc. simpl. by destruct (last _).
Qed.

Lemma get_cols_by_field_field rows k col :
  PyDict.get (cols_by_field rows) k = Some col → Field col = k ∧ col ∈ rows.
Proof.
  rewrite get_cols_by_field. intros Hl.
  assert (col ∈ List.filter (λ col, bool_decide (Field col = k)) rows) as Hin.
  { apply last_Some in Hl as [l' ->]. apply elem_of_app. right. left. }
  apply list_elem_of_In, List.filter_In in Hin as [Hin Hk].
  split; [by apply bool_decide_eq_true_1 in Hk|by apply list_elem_of_In].
Qed.

Lemma keys_cols_by_field rows k :
  k ∈ PyDict.keys (cols_by_field rows) ↔ k ∈ Field <$> rows.
Proof.
  rewrite <-DictFacts.get_keys, get_cols_by_field. split.
  - intros [col Hl]. apply last_Some in Hl as [l' Hl].
    assert (col ∈ List.filter (λ col, bool_decide (Field col = k)) rows) as Hin.
    { rewrite Hl. apply elem_of_app. right. left. }
    apply list_elem_of_In, List.filter_In in Hin as [Hin Hk].
    apply bool_decide_eq_true_1 in Hk as <-.
    apply list_elem_of_fmap. exists col. split; [done|by apply list_elem_of_In].
  - intros (col & -> & Hin)%list_elem_of_fmap.
    destruct (last _) as [c|] eqn:Hl; [eauto|]. apply last_None in Hl.
    assert (col ∈ List.filter (λ c, bool_decide (Field c = Field col)) rows) as Hin'.
    { apply list_elem_of_In, List.filter_In. split; [by apply list_elem_of_In|].
      by apply bool_decide_eq_true_2. }
    rewrite Hl in Hin'. by apply elem_of_nil in Hin'.
Qed.

Lemma elem_of_List_filter {A} (f : A → bool) (l : list A) x :
  x ∈ List.filter f l ↔ x ∈ l ∧ f x = true.
Proof. by rewrite !list_elem_of_In, List.filter_In. Qed.

Lemma List_filter_nil {A} (f : A → bool) (l : list A) :
  (∀ x, x ∈ l → f x = false) → List.filter f l = [].
Proof.
  intros Hf. destruct (List.filter f l) as [|x l'] eqn:Hl; [done|].
  assert (x ∈ List.filter f l) as [Hx Hfx]%elem_of_List_filter by (rewrite Hl; left).
  rewrite Hf in Hfx by done. done.
Qed.

Lemma get_cols_by_field_NoDup rows col :
  NoDup (Field <$> rows) → col ∈ rows →
  PyDict.get (cols_by_field rows) (Field col) = Some col.
Proof.
  rewrite get_cols_by_field.
  induction rows as [|c rows IH]; csimpl; intros Hnd Hin; [by apply elem_of_nil in Hin|].
  apply NoDup_cons in Hnd as [Hc Hnd].
  apply elem_of_cons in Hin as [->|Hin].
  - rewrite bool_decide_eq_true_2 by done.
    rewrite List_filter_nil; [done|]. intros x Hx. apply bool_decide_eq_false_2.
    intros Heq. apply Hc. rewrite <-Heq. apply list_elem_of_fmap. eauto.
  - rewrite bool_decide_eq_false_2.
    2:{ intros Heq. apply Hc. rewrite Heq. apply list_elem_of_fmap. eauto. }
    by apply IH.
Qed.

Lemma compared_Field a b : compared a = compared b → Field a = Field b.
Proof. unfold compared. congruence. Qed.

Lemma compared_fields (s t : list Column) :
  compared <$> s = compared <$> t → Field <$> s = Field <$> t.
Proof.
  intros Heq. apply (f_equal (fmap (λ p : string * string * string * option string, p.1.1.1))) in Heq.
  by rewrite <-!list_fmap_compose in Heq.
Qed.

Lemma column_differences_nil k a b :
  column_differences k a b = []
  ↔ Type_ a = Type_ b ∧ Null a = Null b ∧ Default a = Default b.
Proof.
  unfold column_differences. repeat case_bool_decide; simpl; split; try done;
    try (intros (? & ? & ?); done);
    try (intros _; split_and!; by apply dec_stable).
Qed.

(** The last row per field, on two lists that agree on what is compared. *)
Lemma last_filter_compared (s t : list Column) k :
  compared <$> s = compared <$> t →
  compared <$> last (List.filter (λ col, bool_decide (Field col = k)) s)
  = compared <$> last (List.filter (λ col, bool_decide (Field col = k)) t).
Proof.
  revert t. induction s as [|a s IH]; intros [|b t] Heq; try done.
  rewrite !fmap_cons in Heq.
  pose proof (f_equal head Heq) as Hab. pose proof (f_equal tail Heq) as Heq'.
  simpl in Hab, Heq'. apply (inj Some) in Hab. specialize (IH t Heq').
  cbn [List.filter].
  rewrite <-(compared_Field a b) by done.
  case_bool_decide; [|done].
  rewrite !last_cons.
  destruct (last (List.filter _ s)), (last (List.filter _ t)); simpl in *; try done.
  by rewrite Hab.
Qed.

Lemma flat_map_nil_inv {A B} (f : A → list B) (l : list A) :
  flat_map f l = [] → ∀ x, x ∈ l → f x = [].
Proof.
  induction l as [|y l IH]; simpl; intros Hnil x Hx; [by apply elem_of_nil in Hx|].
  apply app_eq_nil in Hnil as [Hy Hl].
  apply elem_of_cons in Hx as [->|Hx]; [done|by apply IH].
Qed.

(** X1. [_compare_structures] reports nothing for two lists of rows that
    agree, row by row, on the name, the type, the nullability and the
    default of the columns, whatever [Key] and [Extra] hold.  When no column
    name occurs twice in the source and nothing is reported, the two lists
    agree on these four fields, row by row. *)
Theorem compare_structures_empty (source target : list Column) :
  (compared <$> source = compared <$> target → _compare_structures source target = [])
  ∧ (NoDup (Field <$> source) → _compare_structures source target = [] →
     compared <$> source = compared <$> target).
Proof.
  split.
  - intros Heq. pose proof (compared_fields _ _ Heq) as Hfields.
    unfold _compare_structures.
    rewrite (bool_decide_eq_false_2 (_ ≠ _)) by (intros Hne; by apply Hne).
    rewrite !flat_map_nil; [done| | |].
    + intros k Hk. pose proof (last_filter_compared source target k Heq) as Hl.
      rewrite <-!get_cols_by_field in Hl.
      destruct (PyDict.get (cols_by_field source) k) as [a|],
        (PyDict.get (cols_by_field target) k) as [b|]; try done.
      simpl in Hl. injection Hl as Hf Ht Hn Hd.
      by apply column_differences_nil.
    + intros k Hk. apply keys_cols_by_field in Hk. rewrite <-Hfields in Hk.
      apply keys_cols_by_field, DictFacts.has_keys in Hk. by rewrite Hk.
    + intros k Hk. apply keys_cols_by_field in Hk. rewrite Hfields in Hk.
      apply keys_cols_by_field, DictFacts.has_keys in Hk. by rewrite Hk.
  - unfold _compare_structures. intros Hnd Hnil.
    apply app_eq_nil in Hnil as [_ Hnil]. apply app_eq_nil in Hnil as [_ Hnil].
    apply app_eq_nil in Hnil as [Hcommon Horder].
    assert (Field <$> source = Field <$> target) as Hfields.
    { destruct (decide (Field <$> source = Field <$> target)) as [|Hne]; [done|].
      by rewrite bool_decide_eq_true_2 in Horder. }
    clear Horder.
    assert (NoDup (Field <$> target)) as Hnd' by (by rewrite <-Hfields).
    apply list_eq. intros i. rewrite !list_lookup_fmap.
    destruct (source !! i) as [a|] eqn:Ha, (target !! i) as [b|] eqn:Hb; simpl.
    + f_equal.
      assert (Field a = Field b) as Hab.
      { apply (f_equal (λ l, l !! i)) in Hfields.
        rewrite !list_lookup_fmap, Ha, Hb in Hfields. by injection Hfields. }
      assert (Field a ∈ PyDict.keys (cols_by_field source)) as Hin.
      { apply keys_cols_by_field, list_elem_of_fmap. exists a.
        split; [done|by eapply list_elem_of_lookup_2]. }
      pose proof (flat_map_nil_inv _ _ Hcommon _ Hin) as Hk. simpl in Hk.
      rewrite (get_cols_by_field_NoDup source a) in Hk
        by (done || by eapply list_elem_of_lookup_2).
      rewrite Hab, (get_cols_by_field_NoDup target b) in Hk
        by (done || by eapply list_elem_of_lookup_2).
      rewrite <-Hab in Hk.
      apply column_differences_nil in Hk as (? & ? & ?).
      unfold compared. congruence.
    + apply (f_equal length) in Hfields. rewrite !length_fmap in Hfields.
      apply lookup_lt_Some in Ha. apply lookup_ge_None in Hb. lia.
    + apply (f_equal length) in Hfields. rewrite !length_fmap in Hfields.
      apply lookup_lt_Some in Hb. apply lookup_ge_None in Ha. lia.
    + done.
Qed.

Lemma differences_empty `{Countable A} (X Y : gset A) :
  X ∖ Y ≡ ∅ → Y ∖ X ≡ ∅ → X = Y.
Proof.
  intros HX HY. apply set_eq. intros x.
  destruct (decide (x ∈ X)), (decide (x ∈ Y)); set_solver.
Qed.

Section ForeignKeySets.
Context `{SetIterLaws}.

Lemma set_iter_length `{Countable A} (s : gset A) : length (set_iter s) = size s.
Proof. by rewrite set_iter_perm. Qed.

Lemma set_iter_elem `{Countable A} (s : gset A) x : x ∈ set_iter s ↔ x ∈ s.
Proof. by rewrite set_iter_perm, elem_of_elements. Qed.

Lemma set_iter_distinct `{Countable A} (s : gset A) : NoDup (set_iter s).
Proof. rewrite set_iter_perm. apply NoDup_elements. Qed.

(** X2. [_compare_foreign_keys] reports a foreign key as missing exactly
    when the source has its triple of column, referenced table and
    referenced column and the target has not, and as extra exactly when the
    target has the triple and the source has not.  It reports nothing else
    and nothing twice, so there is one difference for each triple that one
    side has and the other has not, and none exactly when both sides have
    the same triples: constraint names and repeated rows do not count. *)
Theorem compare_foreign_keys_by_triple (source target : list ForeignKey) :
  (∀ column referenced_table referenced_column,
     missing_foreign_key column referenced_table referenced_column
       ∈ _compare_foreign_keys source target
     ↔ (column, referenced_table, referenced_column) ∈ fk_set source
       ∧ (column, referenced_table, referenced_column) ∉ fk_set target)
  ∧ (∀ column referenced_table referenced_column,
       extra_foreign_key column referenced_table referenced_column
         ∈ _compare_foreign_keys source target
       ↔ (column, referenced_table, referenced_column) ∈ fk_set target
         ∧ (column, referenced_table, referenced_column) ∉ fk_set source)
  ∧ (∀ difference,
       difference ∈ _compare_foreign_keys source target →
       ∃ column referenced_table referenced_column,
         difference = missing_foreign_key column referenced_table referenced_column
         ∨ difference = extra_foreign_key column referenced_table referenced_column)
  ∧ NoDup (_compare_foreign_keys source target)
  ∧ length (_compare_foreign_keys source target)
    = (size (fk_set source ∖ fk_set target) + size (fk_set target ∖ fk_set source))%nat
  ∧ (_compare_foreign_keys source target = [] ↔ fk_set source = fk_set target).
Proof.
  assert (length (_compare_foreign_keys source target)
          = (size (fk_set source ∖ fk_set target)
             + size (fk_set target ∖ fk_set source))%nat) as Hlen.
  { unfold _compare_foreign_keys.
    by rewrite length_app, !length_fmap, !set_iter_length. }
  split_and!; [| | | |done|].
  - intros c t r. unfold _compare_foreign_keys.
    rewrite elem_of_app, !list_elem_of_fmap. split.
    + intros [([[c' t'] r'] & [= -> -> ->] & Hin)|(fk & [=] & _)].
      by apply set_iter_elem, elem_of_difference in Hin.
    + intros Hin. left. exists (c, t, r). split; [done|].
      by apply set_iter_elem, elem_of_difference.
  - intros c t r. unfold _compare_foreign_keys.
    rewrite elem_of_app, !list_elem_of_fmap. split.
    + intros [(fk & [=] & _)|([[c' t'] r'] & [= -> -> ->] & Hin)].
      by apply set_iter_elem, elem_of_difference in Hin.
    + intros Hin. right. exists (c, t, r). split; [done|].
      by apply set_iter_elem, elem_of_difference.
  - intros d. unfold _compare_foreign_keys.
    rewrite elem_of_app, !list_elem_of_fmap.
    intros [(fk & -> & _)|(fk & -> & _)]; eexists _, _, _; eauto.
  - unfold _compare_foreign_keys. apply NoDup_app. split_and!.
    + apply NoDup_fmap_2_strong; [|apply set_iter_distinct].
      by intros [[??]?] [[??]?] _ _ [= -> -> ->].
    + intros d (fk & -> & _)%list_elem_of_fmap (fk' & [=] & _)%list_elem_of_fmap.
    + apply NoDup_fmap_2_strong; [|apply set_iter_distinct].
      by intros [[??]?] [[??]?] _ _ [= -> -> ->].
  - split.
    + intros Hnil. rewrite Hnil in Hlen. simpl in Hlen.
      assert (size (fk_set source ∖ fk_set target) = 0%nat) as Hs by lia.
      assert (size (fk_set target ∖ fk_set source) = 0%nat) as Ht by lia.
      apply size_empty_inv in Hs. apply size_empty_inv in Ht.
      by apply differences_empty.
    + intros Heq. apply length_zero_iff_nil. rewrite Hlen, Heq, difference_diag_L.
      by rewrite size_empty.
Qed.
End ForeignKeySets.

Section IndexGroups.

(** The group of a name after the loop: the rows of that name, in order,
    behind those the dict already held. *)
Lemma get_group_acc rows (d : PyDict.dict (list IndexRow)) k :
  PyDict.get
    (fold_left
       (λ d idx,
          let d := if PyDict.has d (Key_name idx) then d
                   else PyDict.set d (Key_name idx) [] in
          PyDict.set d (Key_name idx) (default [] (PyDict.get d (Key_name idx)) ++ [idx]))
       rows d) k
  = match PyDict.get d k, index_rows k rows with
    | None, [] => None
    | found, group => Some (default [] found ++ group)
    end.
Proof.
  unfold index_rows. revert d. induction rows as [|idx rows IH]; intros d; simpl.
  - destruct (PyDict.get d k); simpl; [by rewrite app_nil_r|done].
  - rewrite IH. clear IH. rewrite DictFacts.get_set.
    destruct (decide (Key_name idx = k)) as [Hk|Hk].
    + rewrite !bool_decide_eq_true_2 by done. subst k. unfold PyDict.has.
      destruct (PyDict.get d (Key_name idx)) as [g|] eqn:Hd; simpl.
      * rewrite Hd. simpl. by rewrite <-app_assoc.
      * rewrite DictFacts.get_set, bool_decide_eq_true_2 by done. simpl. done.
    + rewrite !bool_decide_eq_false_2 by done.
      unfold PyDict.has. destruct (PyDict.get d (Key_name idx)) eqn:Hd; [done|].
      by rewrite DictFacts.get_set, bool_decide_eq_false_2.
Qed.

Lemma get_group rows k :
  PyDict.get (group_by_key_name rows) k
  = if bool_decide (k ∈ Key_name <$> rows) then Some (index_rows k rows) else None.
Proof.
  unfold group_by_key_name. rewrite get_group_acc. simpl.
  destruct (index_rows k rows) as [|idx g] eqn:Hg.
  - rewrite bool_decide_eq_false_2; [done|].
    intros (idx & -> & Hin)%list_elem_of_fmap.
    assert (idx ∈ index_rows (Key_name idx) rows) as Hin'.
    { apply elem_of_List_filter. split; [done|by apply bool_decide_eq_true_2]. }
    rewrite Hg in Hin'. by apply elem_of_nil in Hin'.
  - rewrite bool_decide_eq_true_2; [done|].
    assert (idx ∈ index_rows k rows) as [Hin Hk]%elem_of_List_filter by (rewrite Hg; left).
    apply bool_decide_eq_true_1 in Hk as <-. apply list_elem_of_fmap. eauto.
Qed.

Lemma keys_group rows k :
  k ∈ PyDict.keys (group_by_key_name rows) ↔ k ∈ Key_name <$> rows.
Proof.
  rewrite <-DictFacts.get_keys, get_group. case_bool_decide; split; try done;
    eauto; by intros [? ?].
Qed.

Lemma has_group rows k :
  PyDict.has (group_by_key_name rows) k = bool_decide (k ∈ Key_name <$> rows).
Proof.
  unfold PyDict.has. rewrite get_group. by case_bool_decide.
Qed.

(** What [_compare_indexes] reports. *)
Lemma compare_indexes_elem (a b : list IndexRow) d :
  d ∈ _compare_indexes a b
  ↔ (∃ n, n ∈ Key_name <$> a ∧ (n ∉ Key_name <$> b)
          ∧ d = missing_index n (index_rows n a))
    ∨ (∃ n, n ∈ Key_name <$> b ∧ (n ∉ Key_name <$> a)
            ∧ d = extra_index n (index_rows n b)).
Proof.
  assert (∀ (a b : list IndexRow) make d,
            d ∈ flat_map (λ index_name,
                            if PyDict.has (group_by_key_name b) index_name then []
                            else item (group_by_key_name a) index_name (make index_name))
                         (PyDict.keys (group_by_key_name a))
            ↔ ∃ n, n ∈ Key_name <$> a ∧ (n ∉ Key_name <$> b)
                   ∧ d = make n (index_rows n a)) as Hside.
  { clear. intros a b make d. rewrite list_elem_of_In, in_flat_map. split.
    - intros (n & Hn & Hd). apply list_elem_of_In, keys_group in Hn.
      rewrite has_group in Hd. case_bool_decide; [done|].
      unfold item in Hd. rewrite get_group, bool_decide_eq_true_2 in Hd by done.
      destruct Hd as [<-|[]]. eauto.
    - intros (n & Hn & Hb & ->). exists n. split; [by apply list_elem_of_In, keys_group|].
      rewrite has_group, bool_decide_eq_false_2 by done.
      unfold item. rewrite get_group, bool_decide_eq_true_2 by done. by left. }
  unfold _compare_indexes. by rewrite elem_of_app, !Hside.
Qed.

(** X3. [_compare_indexes] reports nothing exactly when the two tables have
    the same index names: the columns of an index, their order and its
    uniqueness are not compared. *)
Theorem compare_indexes_by_name (source target : list IndexRow) :
  _compare_indexes source target = []
  ↔ ∀ index_name, index_name ∈ Key_name <$> source ↔ index_name ∈ Key_name <$> target.
Proof.
  split.
  - intros Hnil n. split; intros Hn.
    + destruct (decide (n ∈ Key_name <$> target)) as [|Hno]; [done|].
      assert (missing_index n (index_rows n source) ∈ _compare_indexes source target)
        as Hin; [|by rewrite Hnil in Hin; apply elem_of_nil in Hin].
      apply compare_indexes_elem. left. eauto.
    + destruct (decide (n ∈ Key_name <$> source)) as [|Hno]; [done|].
      assert (extra_index n (index_rows n target) ∈ _compare_indexes source target)
        as Hin; [|by rewrite Hnil in Hin; apply elem_of_nil in Hin].
      apply compare_indexes_elem. right. eauto.
  - intros Hsame. unfold _compare_indexes. rewrite !flat_map_nil; [done| |].
    + intros k Hk. apply keys_group, Hsame in Hk.
      by rewrite has_group, bool_decide_eq_true_2.
    + intros k Hk. apply keys_group, Hsame in Hk.
      by rewrite has_group, bool_decide_eq_true_2.
Qed.

(** X4. [_compare_indexes] reports an index as missing exactly when the
    source has a row of that name and the target has none, and the
    definition it carries is the rows of that name in the source, in their
    order; an extra index is reported the same way, with the sides swapped. *)
Theorem compare_indexes_rows (source target : list IndexRow) :
  (∀ index_name rows,
     missing_index index_name rows ∈ _compare_indexes source target
     ↔ index_name ∈ Key_name <$> source ∧ (index_name ∉ Key_name <$> target)
       ∧ rows = index_rows index_name source)
  ∧ (∀ index_name rows,
       extra_index index_name rows ∈ _compare_indexes source target
       ↔ index_name ∈ Key_name <$> target ∧ (index_name ∉ Key_name <$> source)
         ∧ rows = index_rows index_name target).
Proof.
  split; intros n rows; rewrite compare_indexes_elem; split.
  - intros [(n' & ? & ? & Heq)|(n' & ? & ? & Heq)]; [|done].
    injection Heq as -> ->. done.
  - intros (? & ? & ->). left. eauto.
  - intros [(n' & ? & ? & Heq)|(n' & ? & ? & Heq)]; [done|].
    injection Heq as -> ->. done.
  - intros (? & ? & ->). right. eauto.
Qed.
End IndexGroups.
End Comparisons.
(** ** Substrings *)

Section Strings.
Import PyStr.
Implicit Types (s needle : string) (c : ascii).

Lemma prefix_cons needle c s :
  String.prefix needle (String c s) = true
  ↔ needle = "" ∨ ∃ needle', needle = String c needle' ∧ String.prefix needle' s = true.
Proof.
  destruct needle as [|n needle']; simpl.
  - split; [by left|done].
  - destruct (ascii_dec n c) as [->|Hne].
    + split; [right; eauto|]. by intros [?|(? & [= ->] & ?)].
    + split; [done|]. intros [?|(? & [= ? ?] & ?)]; done.
Qed.

Lemma prefix_nil needle : String.prefix needle "" = true ↔ needle = "".
Proof. destruct needle; simpl; split; done. Qed.

Lemma contains_cons needle c s :
  contains needle (String c s)
  = String.prefix needle (String c s) || contains needle s.
Proof. done. Qed.

Lemma contains_nil needle : contains needle "" = String.prefix needle "".
Proof. simpl. apply orb_false_r. Qed.

Lemma contains_nonempty needle s :
  needle ≠ "" → contains needle s = true → s ≠ "".
Proof.
  intros Hne Hc ->. rewrite contains_nil in Hc. by apply prefix_nil in Hc.
Qed.

Lemma append_nil_l s : "" +:+ s = s.
Proof. done. Qed.

Lemma append_cons c s s' : String c s +:+ s' = String c (s +:+ s').
Proof. done. Qed.

(** A prefix that runs across a character holds it. *)
Lemma prefix_across needle s c s' :
  String.prefix needle (s +:+ String c s') = true →
  String.prefix needle s = true ∨ has_char c needle = true.
Proof.
  revert needle. induction s as [|x s IH]; intros needle;
    rewrite ?append_nil_l, ?append_cons.
  - intros [->|(needle' & -> & _)]%prefix_cons; [by left|right].
    simpl. by rewrite bool_decide_eq_true_2.
  - intros [->|(needle' & -> & Hp)]%prefix_cons; [by left|].
    destruct (IH _ Hp) as [Hs|Hc].
    + left. apply prefix_cons. right. eauto.
    + right. simpl. rewrite Hc. apply orb_true_r.
Qed.

Lemma contains_across needle s c s' :
  has_char c needle = false →
  contains needle (s +:+ String c s') = true →
  contains needle s = true ∨ contains needle s' = true.
Proof.
  intros Hc. induction s as [|x s IH]; rewrite ?append_nil_l, ?append_cons.
  - rewrite contains_cons. intros [Hp|Hs]%orb_true_iff; [|by right].
    apply prefix_cons in Hp as [->|(needle' & -> & _)]; [by left|].
    simpl in Hc. by rewrite bool_decide_eq_true_2 in Hc.
  - rewrite !contains_cons. intros [Hp|Hs]%orb_true_iff.
    + rewrite <-append_cons in Hp.
      apply prefix_across in Hp as [Hp|Hp]; [|congruence].
      left. by rewrite Hp.
    + destruct (IH Hs) as [H1|H2]; [left|by right]. rewrite H1. apply orb_true_r.
Qed.

Lemma contains_join_lines needle lines :
  has_char newline needle = false → needle ≠ "" →
  contains needle (join_lines lines) = true →
  ∃ line, line ∈ lines ∧ contains needle line = true.
Proof.
  intros Hn Hne. induction lines as [|l lines IH].
  - simpl. intros Hc. exfalso. rewrite orb_false_r in Hc. by apply prefix_nil in Hc.
  - destruct lines as [|l' lines].
    + simpl. intros Hc. exists l. split; [left|done].
    + change (join_lines (l :: l' :: lines))
        with (l +:+ String newline (join_lines (l' :: lines))).
      intros [Hl|Hrest]%contains_across; [| |done].
      * exists l. split; [left|done].
      * destruct (IH Hrest) as (line & Hin & Hline). exists line. split; [by right|done].
Qed.

Lemma after_Some p s s' : after p s = Some s' → s = p +:+ s'.
Proof.
  revert s. induction p as [|a p IH]; intros [|b s]; simpl; try done.
  - by intros [= <-].
  - by intros [= <-].
  - case_bool_decide; [|done]. subst b. intros Hp. by rewrite (IH _ Hp).
Qed.

Lemma skip_space_Some s s' :
  skip_space s = Some s' → ∃ space, space ∈ whitespace ∧ s = space +:+ s'.
Proof.
  unfold skip_space. intros Hhead.
  assert (s' ∈ omap (λ space, after space s) whitespace) as Hin.
  { destruct (omap _ whitespace) as [|x l]; [done|]. injection Hhead as ->. left. }
  apply list_elem_of_omap in Hin as (space & Hspace & Hafter).
  exists space. split; [done|by apply after_Some].
Qed.

Lemma length_append s s' :
  String.length (s +:+ s') = (String.length s + String.length s')%nat.
Proof. induction s as [|c s IH]; [done|]. rewrite append_cons. simpl. by rewrite IH. Qed.

Lemma whitespace_nonempty space : space ∈ whitespace → (0 < String.length space)%nat.
Proof.
  revert space. apply Forall_forall. apply (bool_decide_unpack _). by vm_compute.
Qed.

Lemma whitespace_hollow space : space ∈ whitespace → hollow space = true.
Proof.
  revert space. apply Forall_forall. apply (bool_decide_unpack _). by vm_compute.
Qed.

(** The fuel of [lstrip] is enough: what it returns starts with no white
    space. *)
Lemma lstrip_from_done fuel s :
  (String.length s ≤ fuel)%nat → skip_space (lstrip_from fuel s) = None.
Proof.
  revert s. induction fuel as [|fuel IH]; intros s Hlen.
  - destruct s; [done|simpl in Hlen; lia].
  - simpl. destruct (skip_space s) as [s'|] eqn:Hskip; [|done].
    apply IH. apply skip_space_Some in Hskip as (space & Hspace & ->).
    apply whitespace_nonempty in Hspace. rewrite length_append in Hlen. lia.
Qed.

Lemma lstrip_eq s : lstrip s = lstrip_from (String.length s) s.
Proof. reflexivity. Qed.

Lemma lstrip_done s : skip_space (lstrip s) = None.
Proof. rewrite lstrip_eq. by apply lstrip_from_done. Qed.

Lemma hollow_append s s' : hollow (s +:+ s') = hollow s && hollow s'.
Proof.
  induction s as [|c s IH]; [done|]. rewrite append_cons. simpl.
  by rewrite IH, andb_assoc.
Qed.

(** A string that [lstrip] empties is white space throughout. *)
Lemma lstrip_from_hollow fuel s : lstrip_from fuel s = "" → hollow s = true.
Proof.
  revert s. induction fuel as [|fuel IH]; intros s; simpl; [by intros ->|].
  destruct (skip_space s) as [s'|] eqn:Hskip; [|by intros ->].
  intros Hs'. apply skip_space_Some in Hskip as (space & Hspace & ->).
  by rewrite hollow_append, (whitespace_hollow _ Hspace), (IH _ Hs').
Qed.

(** A needle that starts with a solid byte starts nowhere in white space. *)
Lemma contains_hollow_append needle space s :
  starts_solid needle = true → hollow space = true →
  contains needle (space +:+ s) = true → contains needle s = true.
Proof.
  intros Hsolid. induction space as [|c space IH]; [done|].
  rewrite append_cons, contains_cons. simpl.
  intros [Hc Hspace]%andb_true_iff [Hp|Hs]%orb_true_iff; [|by apply IH].
  apply prefix_cons in Hp as [->|(needle' & -> & _)]; [done|].
  simpl in Hsolid. by rewrite Hsolid in Hc.
Qed.

Lemma contains_lstrip_from needle fuel s :
  starts_solid needle = true → contains needle s = true →
  contains needle (lstrip_from fuel s) = true.
Proof.
  intros Hsolid. revert s. induction fuel as [|fuel IH]; intros s; [done|].
  simpl. destruct (skip_space s) as [s'|] eqn:Hskip; [|done].
  apply skip_space_Some in Hskip as (space & Hspace & ->).
  intros Hc. apply IH. apply (contains_hollow_append needle space); [done| |done].
  by apply whitespace_hollow.
Qed.

Lemma contains_lstrip needle s :
  starts_solid needle = true → contains needle s = true →
  contains needle (lstrip s) = true.
Proof. rewrite lstrip_eq. apply contains_lstrip_from. Qed.

(** A needle that ends with a solid byte is no prefix of white space, and
    a prefix that runs into white space ends before it. *)
Lemma prefix_hollow needle s :
  ends_solid needle = true → hollow s = true → String.prefix needle s = false.
Proof.
  revert needle. induction s as [|c s IH]; intros needle Hsolid Hs.
  - apply not_true_is_false. intros ->%prefix_nil. done.
  - apply not_true_is_false.
    intros [->|(needle' & -> & Hp)]%prefix_cons; [done|].
    simpl in Hs. apply andb_true_iff in Hs as [Hc Hs].
    destruct needle' as [|n needle''].
    + simpl in Hsolid. by rewrite Hsolid in Hc.
    + by rewrite IH in Hp.
Qed.

Lemma prefix_before_hollow needle s t :
  ends_solid needle = true → hollow t = true →
  String.prefix needle (s +:+ t) = true → String.prefix needle s = true.
Proof.
  intros Hsolid Ht. revert needle Hsolid. induction s as [|c s IH]; intros needle Hsolid.
  - rewrite append_nil_l, prefix_hollow by done. done.
  - rewrite append_cons.
    intros [->|(needle' & -> & Hp)]%prefix_cons; [done|].
    apply prefix_cons. right. eexists. split; [done|].
    destruct needle' as [|n needle'']; [by destruct s|]. by apply IH.
Qed.

Lemma contains_before_hollow needle s t :
  ends_solid needle = true → hollow t = true →
  contains needle (s +:+ t) = true → contains needle s = true.
Proof.
  intros Hsolid Ht. induction s as [|c s IH].
  - rewrite append_nil_l. intros Hc. exfalso. clear -Hsolid Ht Hc.
    induction t as [|c t IH]; [by destruct needle|].
    rewrite contains_cons, prefix_hollow in Hc by done.
    simpl in Ht. apply andb_true_iff in Ht as [_ Ht]. by apply IH.
  - rewrite append_cons, !contains_cons. intros [Hp|Hc]%orb_true_iff.
    + rewrite <-append_cons in Hp. by rewrite (prefix_before_hollow _ _ _ Hsolid Ht Hp).
    + rewrite (IH Hc). apply orb_true_r.
Qed.

Lemma rstrip_cons c s :
  rstrip (String c s)
  = if bool_decide (lstrip (String c s) = "") then "" else String c (rstrip s).
Proof. reflexivity. Qed.

(** [rstrip] cuts an end of white space off. *)
Lemma rstrip_split s : ∃ t, s = rstrip s +:+ t ∧ hollow t = true.
Proof.
  induction s as [|c s (t & Hs & Ht)]; [by exists ""|].
  rewrite rstrip_cons. case_bool_decide as Hall.
  - exists (String c s). split; [apply append_nil_l|].
    rewrite lstrip_eq in Hall. exact (lstrip_from_hollow _ _ Hall).
  - exists t. split; [|done]. by rewrite append_cons, <-Hs.
Qed.

Lemma contains_rstrip needle s :
  ends_solid needle = true → contains needle s = true →
  contains needle (rstrip s) = true.
Proof.
  intros Hsolid Hc. destruct (rstrip_split s) as (t & Hs & Ht).
  rewrite Hs in Hc. by eapply contains_before_hollow.
Qed.

Lemma contains_strip needle s :
  starts_solid needle = true → ends_solid needle = true →
  contains needle s = true → contains needle (strip s) = true.
Proof.
  intros Hs He Hc. unfold strip. by apply contains_rstrip, contains_lstrip.
Qed.

(** What [sub_comma] puts out starts as what it read, up to the first
    character it wrote in the place of a match. *)
Lemma prefix_sub_comma close needle s :
  has_char close needle = false →
  String.prefix needle (sub_comma close s 0) = true → String.prefix needle s = true.
Proof.
  intros Hclose. revert needle Hclose.
  induction s as [|c s IH]; intros needle Hclose; [done|].
  cbn [sub_comma].
  assert (String.prefix needle (String c (sub_comma close s 0)) = true →
          String.prefix needle (String c s) = true) as Hcopy.
  { intros [->|(needle' & -> & Hp)]%prefix_cons; [done|].
    apply prefix_cons. right. eexists. split; [done|]. apply IH; [|done].
    simpl in Hclose. by apply orb_false_iff in Hclose as [_ ?]. }
  case_bool_decide; [|done].
  destruct (lstrip s) as [|d rest]; [done|].
  case_bool_decide; [|done].
  intros [->|(needle' & -> & _)]%prefix_cons; [done|].
  simpl in Hclose. by rewrite bool_decide_eq_true_2 in Hclose.
Qed.

Lemma contains_sub_comma close needle s skip :
  has_char close needle = false → needle ≠ "" →
  contains needle (sub_comma close s skip) = true → contains needle s = true.
Proof.
  intros Hclose Hne. revert skip.
  induction s as [|c s IH]; intros skip; [done|].
  cbn [sub_comma]. destruct skip as [|skip].
  2:{ intros Hc. rewrite contains_cons, (IH _ Hc). apply orb_true_r. }
  assert (contains needle (String c (sub_comma close s 0)) = true →
          contains needle (String c s) = true) as Hcopy.
  { rewrite !contains_cons. intros [Hp|Hc]%orb_true_iff.
    - assert (String.prefix needle (String c s) = true) as ->; [|done].
      apply prefix_cons in Hp as [->|(needle' & -> & Hp)]; [done|].
      apply prefix_cons. right. eexists. split; [done|].
      apply (prefix_sub_comma close); [|done].
      simpl in Hclose. by apply orb_false_iff in Hclose as [_ ?].
    - rewrite (IH _ Hc). apply orb_true_r. }
  case_bool_decide; [|done].
  destruct (lstrip s) as [|d rest]; [done|].
  case_bool_decide; [|done].
  rewrite contains_cons. intros [Hp|Hc]%orb_true_iff.
  - apply prefix_cons in Hp as [->|(needle' & -> & _)]; [done|].
    simpl in Hclose. by rewrite bool_decide_eq_true_2 in Hclose.
  - rewrite contains_cons, (IH _ Hc). apply orb_true_r.
Qed.
End Strings.

(** ** The statement without its foreign keys *)

Section Stripped.
Import PyStr Replicator.

(** X25. The statement [_create_table_without_foreign_keys] runs does not
    contain the words FOREIGN KEY, whatever the statement of the source is. *)
Theorem without_foreign_keys_names_none (original_statement : string) :
  contains "FOREIGN KEY" (without_foreign_keys original_statement) = false.
Proof.
  apply not_true_is_false. intros Hc. unfold without_foreign_keys in Hc.
  apply (contains_sub_comma ",") in Hc; [|done|done].
  apply (contains_sub_comma ")") in Hc; [|done|done].
  apply contains_join_lines in Hc as (line & Hin & Hline); [|done|done].
  apply elem_of_List_filter in Hin as [_ Hkept].
  apply negb_true_iff in Hkept. unfold is_foreign_key_line in Hkept.
  apply orb_false_iff in Hkept as [Hkept _].
  apply (contains_strip "FOREIGN KEY") in Hline; [|done|done]. congruence.
Qed.
End Stripped.

(** ** Computations that only read *)

Section ReadsOnly.
Import Journal Reads.
Context {DB : Type}.
Implicit Types (w : World DB).

Lemma reads_only_ret {A} (a : A) : reads_only (DB:=DB) (mret a).
Proof. intros w. exists []. by rewrite extend_nil. Qed.

Lemma reads_only_raise {A} e : reads_only (DB:=DB) (raise (A:=A) e).
Proof. intros w. exists []. by rewrite extend_nil. Qed.

Lemma reads_only_logger l msg : reads_only (DB:=DB) (logger l msg).
Proof. intros w. by exists [Log l msg]. Qed.

Lemma reads_only_mark (e : event) :
  requests_sent [e] = [] → reads_only (DB:=DB) (emit e).
Proof. intros He w. by exists [e]. Qed.

Lemma reads_only_bind {A B} (m : M DB A) (k : A → M DB B) :
  reads_only m → (∀ a, reads_only (k a)) → reads_only (m ≫= k).
Proof.
  intros Hm Hk w. rewrite bind_run. destruct (Hm w) as (j & Hj & Hlogs).
  destruct (m w) as [[a|e] w1]; simpl in *; subst; [|by exists j].
  destruct (Hk a (extend w j)) as (j' & Hj' & Hlogs').
  exists (j ++ j'). rewrite Hj', extend_extend. split; [done|].
  by rewrite requests_sent_app, Hlogs, Hlogs'.
Qed.

Lemma reads_only_try_except {A} (m : M DB A) h :
  reads_only m → (∀ e, reads_only (h e)) → reads_only (try_except m h).
Proof.
  intros Hm Hh w. unfold try_except. destruct (Hm w) as (j & Hj & Hlogs).
  destruct (m w) as [[a|e] w1]; simpl in *; subst; [by exists j|].
  destruct (Hh e (extend w j)) as (j' & Hj' & Hlogs').
  exists (j ++ j'). rewrite Hj', extend_extend. split; [done|].
  by rewrite requests_sent_app, Hlogs, Hlogs'.
Qed.

Lemma reads_only_try_except_Error {A} (m : M DB A) h :
  reads_only m → (∀ e, reads_only (h e)) → reads_only (try_except_Error m h).
Proof.
  intros Hm Hh w. unfold try_except_Error. destruct (Hm w) as (j & Hj & Hlogs).
  destruct (m w) as [[a|[msg|msg]] w1]; simpl in *; subst; [by exists j| |by exists j].
  destruct (Hh (Error msg) (extend w j)) as (j' & Hj' & Hlogs').
  exists (j ++ j'). rewrite Hj', extend_extend. split; [done|].
  by rewrite requests_sent_app, Hlogs, Hlogs'.
Qed.

Lemma reads_only_fold_ {A S} (l : list A) (body : S → A → M DB S) acc :
  (∀ acc x, reads_only (body acc x)) → reads_only (fold_ l body acc).
Proof.
  intros Hbody. revert acc. induction l as [|x l IH]; intros acc; simpl.
  - apply reads_only_ret.
  - apply reads_only_bind; [apply Hbody|]. intros acc'. apply IH.
Qed.

Lemma reads_only_for_ {A R} (l : list A) (body : A → M DB (option R)) :
  (∀ x, reads_only (body x)) → reads_only (for_ l body).
Proof.
  intros Hbody. induction l as [|x l IH]; simpl.
  - apply reads_only_ret.
  - apply reads_only_bind; [apply Hbody|]. intros [r|]; [apply reads_only_ret|apply IH].
Qed.

(** What a computation that only reads leaves behind. *)
Lemma reads_only_run {A} (m : M DB A) w :
  reads_only m →
  source (m w).2 = source w ∧ target (m w).2 = target w
  ∧ requests_sent (journal (m w).2) = requests_sent (journal w).
Proof.
  intros Hm. destruct (Hm w) as (j & -> & Hlogs). autorewrite with world.
  split_and!; [done|done|]. rewrite requests_sent_app, Hlogs. apply app_nil_r.
Qed.
End ReadsOnly.

Ltac reads_step :=
  match goal with
  | |- Reads.reads_only (mret _) => apply reads_only_ret
  | |- Reads.reads_only (raise _) => apply reads_only_raise
  | |- Reads.reads_only (logger _ _) => apply reads_only_logger
  | |- Reads.reads_only (_ ≫= _) => apply reads_only_bind; [|intros ?]
  | |- Reads.reads_only (try_except _ _) => apply reads_only_try_except; [|intros ?]
  | |- Reads.reads_only (try_except_Error _ _) =>
      apply reads_only_try_except_Error; [|intros ?]
  | |- Reads.reads_only (fold_ _ _ _) => apply reads_only_fold_; intros ? ?
  | |- Reads.reads_only (for_ _ _) => apply reads_only_for_; intros ?
  | |- Reads.reads_only (if ?b then _ else _) => destruct b
  | |- Reads.reads_only (match ?x with _ => _ end) => destruct x
  end.

Section ReadsOnlyMethods.
Import DatabaseManager Planner Replicator Journal Reads.
Context `{Server DB} `{BackupManager DB} `{SetIter}.
Implicit Types (w : World DB).

Lemma reads_only_fetch {A} c (q : DB → res A) : reads_only (fetch c q).
Proof.
  unfold fetch, get_connection. apply reads_only_try_except_Error.
  - intros w. exists []. unfold session. simpl. destruct (q (db c w)); simpl;
      by rewrite set_db_same, extend_nil.
  - intros e. repeat reads_step.
Qed.

Lemma reads_only_test_connection c : reads_only (test_connection c).
Proof. unfold test_connection. repeat (reads_step || apply reads_only_fetch). Qed.

Lemma reads_only_get_table_structure c t : reads_only (get_table_structure c t).
Proof. unfold get_table_structure. repeat (reads_step || apply reads_only_fetch). Qed.

Lemma reads_only_get_table_foreign_keys c t : reads_only (get_table_foreign_keys c t).
Proof. unfold get_table_foreign_keys. repeat (reads_step || apply reads_only_fetch). Qed.

Lemma reads_only_get_table_indexes c t : reads_only (get_table_indexes c t).
Proof. unfold get_table_indexes. repeat (reads_step || apply reads_only_fetch). Qed.

Lemma reads_only_get_create_table_statement c t :
  reads_only (get_create_table_statement c t).
Proof.
  unfold get_create_table_statement. repeat (reads_step || apply reads_only_fetch).
Qed.

Lemma reads_only_get_table_data c t : reads_only (get_table_data c t).
Proof. unfold get_table_data. repeat (reads_step || apply reads_only_fetch). Qed.

Lemma reads_only_get_table_count c t : reads_only (get_table_count c t).
Proof. unfold get_table_count. repeat (reads_step || apply reads_only_fetch). Qed.

Lemma reads_only_table_exists c t : reads_only (table_exists c t).
Proof. unfold table_exists. repeat (reads_step || apply reads_only_fetch). Qed.
End ReadsOnlyMethods.

Ltac reads_method :=
  match goal with
  | |- Reads.reads_only (DatabaseManager.fetch _ _) => apply reads_only_fetch
  | |- Reads.reads_only (DatabaseManager.test_connection _) =>
      apply reads_only_test_connection
  | |- Reads.reads_only (DatabaseManager.get_table_structure _ _) =>
      apply reads_only_get_table_structure
  | |- Reads.reads_only (DatabaseManager.get_table_foreign_keys _ _) =>
      apply reads_only_get_table_foreign_keys
  | |- Reads.reads_only (DatabaseManager.get_table_indexes _ _) =>
      apply reads_only_get_table_indexes
  | |- Reads.reads_only (DatabaseManager.get_create_table_statement _ _) =>
      apply reads_only_get_create_table_statement
  | |- Reads.reads_only (DatabaseManager.get_table_data _ _) =>
      apply reads_only_get_table_data
  | |- Reads.reads_only (DatabaseManager.get_table_count _ _) =>
      apply reads_only_get_table_count
  | |- Reads.reads_only (DatabaseManager.table_exists _ _) =>
      apply reads_only_table_exists
  end.

Ltac solve_reads := repeat (reads_step || reads_method).

Section Planning.
Import Plan DatabaseManager StructureAnalyzer Planner Replicator Journal Reads.
Context `{Server DB} `{BackupManager DB} `{SetIter}.
Implicit Types (w : World DB).

Lemma reads_only_analyze_table_differences t : reads_only (analyze_table_differences t).
Proof. unfold analyze_table_differences. solve_reads. Qed.

Lemma reads_only_get_replication_plan ts ms : reads_only (get_replication_plan ts ms).
Proof.
  unfold get_replication_plan. solve_reads. apply reads_only_analyze_table_differences.
Qed.

Lemma reads_only_analyze_all_tables ts ms : reads_only (analyze_all_tables ts ms).
Proof.
  unfold analyze_all_tables. solve_reads. apply reads_only_analyze_table_differences.
Qed.

Lemma reads_only_sort ts : reads_only (_sort_tables_by_dependency ts).
Proof. unfold _sort_tables_by_dependency. solve_reads. Qed.

Lemma reads_only_get_column_position t c : reads_only (_get_column_position t c).
Proof. unfold _get_column_position. solve_reads. Qed.

(** X5. The analysis of a table, the analysis of all tables, the replication
    plan, the dependency sort and the position of a column leave the two
    databases as they are and send no request for change. *)
Theorem analysis_only_reads (table_names maintain_tables : list string)
    (table_name column_name : string) w :
  let unchanged (w' : World DB) :=
    source w' = source w ∧ target w' = target w
    ∧ requests_sent (journal w') = requests_sent (journal w) in
  unchanged (analyze_table_differences table_name w).2
  ∧ unchanged (analyze_all_tables table_names maintain_tables w).2
  ∧ unchanged (get_replication_plan table_names maintain_tables w).2
  ∧ unchanged (_sort_tables_by_dependency table_names w).2
  ∧ unchanged (_get_column_position table_name column_name w).2.
Proof.
  cbv zeta beta.
  destruct (reads_only_run _ w (reads_only_analyze_table_differences table_name))
    as (? & ? & ?).
  destruct (reads_only_run _ w (reads_only_analyze_all_tables table_names maintain_tables))
    as (? & ? & ?).
  destruct (reads_only_run _ w (reads_only_get_replication_plan table_names
                                  maintain_tables)) as (? & ? & ?).
  destruct (reads_only_run _ w (reads_only_sort table_names)) as (? & ? & ?).
  destruct (reads_only_run _ w (reads_only_get_column_position table_name column_name))
    as (? & ? & ?).
  by split_and!.
Qed.
End Planning.

(** ** What the analysis returns *)

Section Answers.
Import Plan DatabaseManager StructureAnalyzer Planner Replicator Journal Reads.
Context `{Server DB} `{BackupManager DB} `{SetIter}.
Implicit Types (w : World DB).

Lemma reads_ret {A} (a : A) w : reads (mret a) w a.
Proof. exists []. by rewrite extend_nil. Qed.

Lemma reads_logger l msg w : reads (logger l msg) w ().
Proof. by exists [Log l msg]. Qed.

Lemma reads_bind {A B} (m : M DB A) (k : A → M DB B) w a b :
  reads m w a → (∀ j, reads (k a) (extend w j) b) → reads (m ≫= k) w b.
Proof.
  intros (j & Hm & Hlogs) Hk. destruct (Hk j) as (j' & Hk' & Hlogs').
  exists (j ++ j'). rewrite bind_run, Hm, Hk', extend_extend.
  split; [done|]. by rewrite requests_sent_app, Hlogs, Hlogs'.
Qed.

(** A read method: the answer of the server, or the fallback. *)
Lemma read_answer {A} c (q : DB → res A) (text : exn → string) (fallback : A) w :
  (∀ msg, q (db c w) ≠ Raise (Exception msg)) →
  reads (try_except_Error (fetch c q) (λ e, logger error (text e);; mret fallback)) w
        (answer fallback (q (db c w))).
Proof.
  intros Hq. destruct (q (db c w)) as [a|[msg|msg]] eqn:Ha; [| |by destruct (Hq msg)].
  - exists []. unfold try_except_Error. rewrite (fetch_val _ _ _ a) by done.
    by rewrite extend_nil.
  - eexists. unfold try_except_Error. rewrite (fetch_Error _ _ _ msg) by done.
    by rewrite bind_run, logger_run, extend_extend.
Qed.

Lemma table_exists_answer c t w :
  connector_only (db c w) → reads (table_exists c t) w (present (db c w) t).
Proof.
  intros Hc. unfold table_exists, present.
  destruct (count_information_schema_tables (db c w) t) as [n|[msg|msg]] eqn:Hn.
  - exists []. unfold try_except_Error. rewrite bind_run, (fetch_val _ _ _ n) by done.
    by rewrite extend_nil.
  - eexists. unfold try_except_Error. rewrite bind_run, (fetch_Error _ _ _ msg) by done.
    by rewrite bind_run, logger_run, extend_extend.
  - by destruct (Hc t msg) as (_ & _ & _ & _ & _ & _ & _ & Hcount).
Qed.

Lemma get_table_structure_answer c t w :
  connector_only (db c w) →
  reads (get_table_structure c t) w (answer [] (describe (db c w) t)).
Proof.
  intros Hc. apply read_answer. intros msg.
  by destruct (Hc t msg) as (_ & ? & _).
Qed.

Lemma get_table_foreign_keys_answer c t w :
  connector_only (db c w) →
  reads (get_table_foreign_keys c t) w (answer [] (key_column_usage (db c w) t)).
Proof.
  intros Hc. apply read_answer. intros msg.
  by destruct (Hc t msg) as (_ & _ & ? & _).
Qed.

Lemma get_table_indexes_answer c t w :
  connector_only (db c w) →
  reads (get_table_indexes c t) w (answer [] (show_index (db c w) t)).
Proof.
  intros Hc. apply read_answer. intros msg.
  by destruct (Hc t msg) as (_ & _ & _ & ? & _).
Qed.

Lemma get_table_count_answer c t w :
  connector_only (db c w) →
  reads (get_table_count c t) w (answer 0%Z (select_count (db c w) t)).
Proof.
  intros Hc. apply read_answer. intros msg.
  by destruct (Hc t msg) as (_ & _ & _ & _ & _ & _ & ? & _).
Qed.

Lemma analyze_table_differences_answer t w :
  connector_only (source w) → connector_only (target w) →
  reads (analyze_table_differences t) w (analysis_of (source w) (target w) t).
Proof.
  intros Hs Ht. unfold analyze_table_differences, analysis_of.
  eapply reads_bind; [by apply (table_exists_answer source_db)|]. intros j1.
  eapply reads_bind; [apply (table_exists_answer target_db); by autorewrite with world|].
  intros j2. autorewrite with world. simpl.
  destruct (present (source w) t); simpl.
  2:{ eapply reads_bind; [apply reads_logger|]. intros j3. apply reads_ret. }
  destruct (present (target w) t); simpl.
  2:{ eapply reads_bind; [apply reads_logger|]. intros j3. apply reads_ret. }
  eapply reads_bind; [apply (get_table_structure_answer source_db); by autorewrite with world|].
  intros j3.
  eapply reads_bind; [apply (get_table_structure_answer target_db); by autorewrite with world|].
  intros j4.
  eapply reads_bind; [apply (get_table_foreign_keys_answer source_db); by autorewrite with world|].
  intros j5.
  eapply reads_bind; [apply (get_table_foreign_keys_answer target_db); by autorewrite with world|].
  intros j6.
  eapply reads_bind; [apply (get_table_indexes_answer source_db); by autorewrite with world|].
  intros j7.
  eapply reads_bind; [apply (get_table_indexes_answer target_db); by autorewrite with world|].
  intros j8.
  eapply reads_bind; [apply (get_table_count_answer source_db); by autorewrite with world|].
  intros j9.
  eapply reads_bind; [apply (get_table_count_answer target_db); by autorewrite with world|].
  intros j10. autorewrite with world. simpl. apply reads_ret.
Qed.

Lemma plan_step t ms plan w :
  connector_only (source w) → connector_only (target w) →
  reads (table_analysis ← analyze_table_differences t;
         if negb (exists_in_source table_analysis) then mret plan
         else
           let step :=
             {| table := t;
                actions := step_actions t ms table_analysis;
                is_maintain_table := bool_decide (t ∈ ms) |} in
           mret (if truthy (actions step) then plan ++ [step] else plan))
        w (plan ++ step_of (source w) (target w) ms t).
Proof.
  intros Hs Ht.
  eapply reads_bind; [by apply analyze_table_differences_answer|]. intros j.
  unfold step_of.
  destruct (exists_in_source (analysis_of (source w) (target w) t)); simpl.
  - destruct (truthy (step_actions t ms (analysis_of (source w) (target w) t)));
      [|rewrite app_nil_r]; apply reads_ret.
  - rewrite app_nil_r. apply reads_ret.
Qed.

Lemma get_replication_plan_acc ts ms plan w :
  connector_only (source w) → connector_only (target w) →
  reads (fold_ ts
           (λ plan table_name,
              table_analysis ← analyze_table_differences table_name;
              if negb (exists_in_source table_analysis) then mret plan
              else
                let step :=
                  {| table := table_name;
                     actions := step_actions table_name ms table_analysis;
                     is_maintain_table := bool_decide (table_name ∈ ms) |} in
                mret (if truthy (actions step) then plan ++ [step] else plan))
           plan) w
        (plan ++ plan_of (source w) (target w) ts ms).
Proof.
  intros Hs Ht. revert plan w Hs Ht. induction ts as [|t ts IH]; intros plan w Hs Ht.
  - simpl. rewrite app_nil_r. apply reads_ret.
  - cbn [fold_]. eapply reads_bind; [by apply plan_step|].
    intros j. specialize (IH (plan ++ step_of (source w) (target w) ms t) (extend w j)).
    autorewrite with world in IH. unfold plan_of. cbn [flat_map].
    rewrite app_assoc. by apply IH.
Qed.

Lemma get_replication_plan_answer ts ms w :
  connector_only (source w) → connector_only (target w) →
  reads (get_replication_plan ts ms) w (plan_of (source w) (target w) ts ms).
Proof. intros Hs Ht. by apply (get_replication_plan_acc ts ms []). Qed.
End Answers.

(** ** The steps of a plan *)

Section PlanShape.
Import Plan DatabaseManager StructureAnalyzer Planner Replicator Journal Reads.
Context `{Server DB} `{BackupManager DB} `{SetIter}.
Implicit Types (w : World DB) (s t : DB).

Lemma tables_to_create_app p1 p2 :
  tables_to_create (p1 ++ p2) = tables_to_create p1 ++ tables_to_create p2.
Proof. apply flat_map_app. Qed.

Lemma tables_to_alter_app p1 p2 :
  tables_to_alter (p1 ++ p2) = tables_to_alter p1 ++ tables_to_alter p2.
Proof. apply flat_map_app. Qed.

(** The step of one table: nothing when the source lacks it; a creation
    when the target lacks it; otherwise alterations only, if any. *)
Lemma step_of_cases s t ms x :
  (present s x = false ∧ step_of s t ms x = [])
  ∨ (present s x = true ∧ present t x = false
     ∧ ∃ step, step_of s t ms x = [step] ∧ table step = x
               ∧ is_maintain_table step = bool_decide (x ∈ ms)
               ∧ actions step ≠ []
               ∧ tables_to_create [step] = [x] ∧ tables_to_alter [step] = [])
  ∨ (present s x = true ∧ present t x = true
     ∧ tables_to_create (step_of s t ms x) = []
     ∧ (tables_to_alter (step_of s t ms x) = []
        ↔ structure_differences (analysis_of s t x) = []
          ∧ foreign_key_differences (analysis_of s t x) = []
          ∧ index_differences (analysis_of s t x) = [])
     ∧ Forall (λ entry, entry.1 = x) (tables_to_alter (step_of s t ms x))
     ∧ Forall (λ step, table step = x
                       ∧ is_maintain_table step = bool_decide (x ∈ ms)
                       ∧ actions step ≠ []) (step_of s t ms x)).
Proof.
  unfold step_of, analysis_of.
  destruct (present s x) eqn:Hs; [|left; by rewrite andb_false_l].
  right. destruct (present t x) eqn:Ht; [right|left].
  - split_and!; [done|done|..]; cbn [andb exists_in_source];
      unfold step_actions; cbn [negb exists_in_target structure_differences
                                foreign_key_differences index_differences];
      destruct (_compare_structures _ _) as [|d1 l1],
        (_compare_foreign_keys _ _) as [|d2 l2],
        (_compare_indexes _ _) as [|d3 l3];
      case_bool_decide; cbn; try done;
      repeat (constructor; cbn; try done); naive_solver.
  - split_and!; [done|done|]. cbn [andb exists_in_source].
    unfold step_actions. cbn [negb exists_in_target].
    case_bool_decide; cbn; eexists; split_and!; try done; cbn; try done;
      by rewrite ?bool_decide_eq_true_2, ?bool_decide_eq_false_2.
Qed.

Lemma plan_of_cons s t ms x ts :
  plan_of s t (x :: ts) ms = step_of s t ms x ++ plan_of s t ts ms.
Proof. done. Qed.

Lemma tables_to_create_plan_of s t ts ms :
  tables_to_create (plan_of s t ts ms)
  = List.filter (λ x, present s x && negb (present t x)) ts.
Proof.
  induction ts as [|x ts IH]; [done|].
  rewrite plan_of_cons, tables_to_create_app, IH. cbn [List.filter].
  destruct (step_of_cases s t ms x)
    as [[-> ->]|[(-> & -> & step & -> & _ & _ & _ & -> & _)|(-> & -> & -> & _)]]; done.
Qed.

Lemma tables_to_alter_plan_of s t ts ms x action :
  (x, action) ∈ tables_to_alter (plan_of s t ts ms) →
  x ∈ ts ∧ present s x = true ∧ present t x = true.
Proof.
  induction ts as [|y ts IH]; [by intros ?%elem_of_nil|].
  rewrite plan_of_cons, tables_to_alter_app. intros [Hin|Hin]%elem_of_app.
  - destruct (step_of_cases s t ms y)
      as [[_ Hy]|[(_ & _ & step & Hy & _ & _ & _ & _ & Halter)|(? & ? & _ & _ & Hall & _)]].
    + rewrite Hy in Hin. by apply elem_of_nil in Hin.
    + rewrite Hy, Halter in Hin. by apply elem_of_nil in Hin.
    + rewrite Forall_forall in Hall. apply Hall in Hin. simpl in Hin. subst.
      split_and!; [left|done|done].
  - destruct (IH Hin) as (? & ? & ?). split_and!; [by right|done|done].
Qed.

Lemma plan_of_steps s t ts ms :
  sublist (table <$> plan_of s t ts ms) ts
  ∧ Forall (λ step, actions step ≠ [] ∧ present s (table step) = true
                    ∧ is_maintain_table step = bool_decide (table step ∈ ms))
           (plan_of s t ts ms).
Proof.
  induction ts as [|x ts [IHsub IHall]]; [by split; constructor|].
  rewrite plan_of_cons, fmap_app.
  destruct (step_of_cases s t ms x)
    as [[_ ->]|[(Hs & _ & step & -> & <- & Hm & Ha & _)|(Hs & _ & _ & _ & _ & Hall)]].
  - split; [by apply sublist_cons|done].
  - split; [by apply sublist_skip|]. by constructor.
  - split.
    + destruct (step_of s t ms x) as [|step [|step' l]] eqn:Hstep.
      * by apply sublist_cons.
      * apply Forall_singleton in Hall as (<- & _). by apply sublist_skip.
      * exfalso. unfold step_of in Hstep. by destruct (_ && _).
    + apply Forall_app. split; [|done]. eapply Forall_impl; [done|].
      intros step (<- & ? & ?). done.
Qed.

(** X6. When the reads raise nothing but connector errors,
    [get_replication_plan] returns a plan having sent nothing.  Its steps
    follow the order of the list of names; each has an action, a table the
    source has, and the flag of the maintain list.  The tables to create are
    the names the source has and the target has not; an action that alters
    is for a name of the list that both have.  A database has a table when
    [table_exists] says so, a connector error standing for its absence. *)
Theorem replication_plan_shape (table_names maintain_tables : list string) w :
  connector_only (source w) → connector_only (target w) →
  ∃ plan j,
    get_replication_plan table_names maintain_tables w = (Val plan, extend w j)
    ∧ requests_sent j = []
    ∧ sublist (table <$> plan) table_names
    ∧ Forall (λ step, actions step ≠ [] ∧ present (source w) (table step) = true
                      ∧ is_maintain_table step
                        = bool_decide (table step ∈ maintain_tables)) plan
    ∧ tables_to_create plan
      = List.filter (λ table_name, present (source w) table_name
                                   && negb (present (target w) table_name))
                    table_names
    ∧ (∀ table_name action,
         (table_name, action) ∈ tables_to_alter plan →
         table_name ∈ table_names ∧ present (source w) table_name = true
         ∧ present (target w) table_name = true).
Proof.
  intros Hs Ht.
  destruct (get_replication_plan_answer table_names maintain_tables w Hs Ht)
    as (j & Hrun & Hj).
  eexists _, j. split_and!; [done|done|..].
  - apply plan_of_steps.
  - apply plan_of_steps.
  - apply tables_to_create_plan_of.
  - intros x action. apply tables_to_alter_plan_of.
Qed.
End PlanShape.

(** ** The summary of [analyze_all_tables] *)

Section SummaryFacts.
Import Plan DatabaseManager StructureAnalyzer Planner Replicator Journal Reads.
Context `{Server DB} `{BackupManager DB} `{SetIter}.
Implicit Types (w : World DB).

Lemma summary_step x ms acc w :
  connector_only (source w) → connector_only (target w) →
  reads (logger info ("Analisando tabela: " +:+ x);;
         table_analysis ← analyze_table_differences x;
         mret {| total_tables := total_tables acc;
                 tables_analyzed := S (tables_analyzed acc);
                 tables_with_differences :=
                   if has_differences x ms table_analysis
                   then S (tables_with_differences acc)
                   else tables_with_differences acc;
                 table_analyses :=
                   PyDict.set (table_analyses acc) x table_analysis |})
        w
        {| total_tables := total_tables acc;
           tables_analyzed := S (tables_analyzed acc);
           tables_with_differences :=
             if has_differences x ms (analysis_of (source w) (target w) x)
             then S (tables_with_differences acc)
             else tables_with_differences acc;
           table_analyses :=
             PyDict.set (table_analyses acc) x (analysis_of (source w) (target w) x) |}.
Proof.
  intros Hs Ht. eapply reads_bind; [apply reads_logger|]. intros j0.
  eapply reads_bind; [apply analyze_table_differences_answer; by autorewrite with world|].
  intros j1. autorewrite with world. apply reads_ret.
Qed.

Lemma analyze_all_tables_acc ts ms acc w :
  connector_only (source w) → connector_only (target w) →
  reads (fold_ ts
           (λ analysis table_name,
              logger info ("Analisando tabela: " +:+ table_name);;
              table_analysis ← analyze_table_differences table_name;
              mret {| total_tables := total_tables analysis;
                      tables_analyzed := S (tables_analyzed analysis);
                      tables_with_differences :=
                        if has_differences table_name ms table_analysis
                        then S (tables_with_differences analysis)
                        else tables_with_differences analysis;
                      table_analyses :=
                        PyDict.set (table_analyses analysis) table_name table_analysis |})
           acc) w
        {| total_tables := total_tables acc;
           tables_analyzed := tables_analyzed acc + length ts;
           tables_with_differences :=
             tables_with_differences acc
             + length (List.filter
                         (λ x, has_differences x ms (analysis_of (source w) (target w) x))
                         ts);
           table_analyses :=
             fold_left (λ d x, PyDict.set d x (analysis_of (source w) (target w) x))
                       ts (table_analyses acc) |}.
Proof.
  intros Hs Ht. revert acc w Hs Ht.
  induction ts as [|x ts IH]; intros acc w Hs Ht.
  - destruct acc. cbn. rewrite !Nat.add_0_r. apply reads_ret.
  - cbn [fold_]. eapply reads_bind; [by apply summary_step|].
    intros j.
    match goal with |- reads (fold_ _ _ ?a) _ _ => specialize (IH a (extend w j)) end.
    autorewrite with world in IH. specialize (IH Hs Ht).
    cbn [total_tables tables_analyzed tables_with_differences table_analyses] in IH.
    cbn [length List.filter fold_left].
    destruct (has_differences x ms _); cbn [length];
      rewrite <-?Nat.add_succ_comm; exact IH.
Qed.

Lemma analyze_all_tables_answer (table_names maintain_tables : list string) w :
  connector_only (source w) → connector_only (target w) →
  ∃ summary j,
    analyze_all_tables table_names maintain_tables w = (Val summary, extend w j)
    ∧ requests_sent j = []
    ∧ total_tables summary = length table_names
    ∧ tables_analyzed summary = length table_names
    ∧ tables_with_differences summary
      = length (List.filter
                  (λ table_name,
                     has_differences table_name maintain_tables
                       (analysis_of (source w) (target w) table_name))
                  table_names)
    ∧ (∀ table_name,
         PyDict.get (table_analyses summary) table_name
         = if bool_decide (table_name ∈ table_names)
           then Some (analysis_of (source w) (target w) table_name) else None).
Proof.
  intros Hs Ht. unfold analyze_all_tables.
  destruct (analyze_all_tables_acc table_names maintain_tables
              {| total_tables := length table_names; tables_analyzed := 0;
                 tables_with_differences := 0; table_analyses := [] |} w Hs Ht)
    as (j & Hrun & Hj).
  eexists _, j. split_and!; [done|done|done|done|done|].
  intros x. cbn [table_analyses]. by rewrite get_fold_set.
Qed.

(** A table that the analysis does not count has nothing to create and
    nothing to alter. *)
Lemma no_differences_no_step s t ms x :
  has_differences x ms (analysis_of s t x) = false →
  tables_to_create (step_of s t ms x) = [] ∧ tables_to_alter (step_of s t ms x) = [].
Proof.
  intros Hno.
  destruct (step_of_cases s t ms x)
    as [[_ ->]|[(Hs & Ht & _)|(Hs & Ht & Hcreate & Halter & _)]]; [done| |].
  - exfalso. unfold has_differences, analysis_of in Hno. rewrite Hs, Ht in Hno.
    cbn in Hno. by destruct (bool_decide (x ∈ ms)).
  - split; [done|]. apply Halter.
    unfold has_differences in Hno.
    assert (negb (exists_in_target (analysis_of s t x))
            || truthy (structure_differences (analysis_of s t x))
            || truthy (foreign_key_differences (analysis_of s t x))
            || truthy (index_differences (analysis_of s t x)) = false) as Hor.
    { destruct (bool_decide (x ∈ ms)); [|done]. by apply orb_false_iff in Hno as [? _]. }
    apply orb_false_iff in Hor as [Hor Hi]. apply orb_false_iff in Hor as [Hor Hf].
    apply orb_false_iff in Hor as [_ Hc].
    by destruct (structure_differences _), (foreign_key_differences _),
      (index_differences _).
Qed.

(** X7. When the reads raise nothing but connector errors,
    [analyze_all_tables] returns having sent nothing; both counters of
    tables equal the length of the list; [tables_with_differences] counts,
    with repetitions, the names whose analysis has a difference; and
    [table_analyses] holds the analysis of each name of the list and of no
    other. *)
Theorem analysis_summary (table_names maintain_tables : list string) w :
  connector_only (source w) → connector_only (target w) →
  ∃ summary j,
    analyze_all_tables table_names maintain_tables w = (Val summary, extend w j)
    ∧ requests_sent j = []
    ∧ total_tables summary = length table_names
    ∧ tables_analyzed summary = length table_names
    ∧ tables_with_differences summary
      = length (List.filter
                  (λ table_name,
                     has_differences table_name maintain_tables
                       (analysis_of (source w) (target w) table_name))
                  table_names)
    ∧ (∀ table_name,
         PyDict.get (table_analyses summary) table_name
         = if bool_decide (table_name ∈ table_names)
           then Some (analysis_of (source w) (target w) table_name) else None).
Proof. apply analyze_all_tables_answer. Qed.

(** X8. When [analyze_all_tables] counts no table with differences, the plan
    [get_replication_plan] makes of the same names on the same databases
    creates no table and alters none. *)
Theorem no_difference_no_structural_action (table_names maintain_tables : list string) w :
  connector_only (source w) → connector_only (target w) →
  ∃ summary plan j1 j2,
    analyze_all_tables table_names maintain_tables w = (Val summary, extend w j1)
    ∧ get_replication_plan table_names maintain_tables w = (Val plan, extend w j2)
    ∧ (tables_with_differences summary = 0%nat →
       tables_to_create plan = [] ∧ tables_to_alter plan = []).
Proof.
  intros Hs Ht.
  destruct (analyze_all_tables_answer table_names maintain_tables w Hs Ht)
    as (summary & j1 & Hrun1 & _ & _ & _ & Hcount & _).
  destruct (get_replication_plan_answer table_names maintain_tables w Hs Ht)
    as (j2 & Hrun2 & _).
  eexists summary, _, j1, j2. split_and!; [done|done|].
  rewrite Hcount. clear. intros Hzero.
  induction table_names as [|x ts IH]; [done|].
  cbn [List.filter] in Hzero. rewrite plan_of_cons, tables_to_create_app, tables_to_alter_app.
  destruct (has_differences x maintain_tables _) eqn:Hx; [done|].
  destruct (no_differences_no_step _ _ _ _ Hx) as [-> ->].
  by apply IH.
Qed.
End SummaryFacts.

(** ** Two databases with the same structure *)

Section InSync.
Import Plan DatabaseManager StructureAnalyzer Planner Replicator Journal Reads.
Context `{Server DB} `{BackupManager DB} `{SetIterLaws}.
Implicit Types (w : World DB).

Lemma reads_emit_mark a w :
  reads (emit (Enter a)) w () ∧ reads (emit (Leave a)) w ().
Proof. split; by eexists [_]. Qed.

(** A plan with nothing to create and nothing to alter is applied without
    a request. *)
Lemma apply_plan_nothing plan w :
  tables_to_create plan = [] → tables_to_alter plan = [] →
  reads (apply_plan plan) w true.
Proof.
  intros Hc Ha. unfold apply_plan. rewrite Hc, Ha. cbn [truthy fold_].
  eapply reads_bind; [apply reads_ret|]. intros j0.
  eapply reads_bind; [apply reads_logger|]. intros j1.
  eapply reads_bind; [apply reads_ret|]. intros j2.
  eapply reads_bind; [apply reads_logger|]. intros j3.
  eapply reads_bind; [apply reads_ret|]. intros j4.
  eapply reads_bind; [apply reads_logger|]. intros j5.
  eapply reads_bind.
  { unfold calling. eapply reads_bind; [apply reads_emit_mark|]. intros j6.
    eapply reads_bind.
    { unfold _add_missing_foreign_keys. cbn [fold_]. exists [].
      rewrite extend_nil. split; reflexivity. }
    intros j7. eapply reads_bind; [apply reads_emit_mark|]. intros j8. apply reads_ret. }
  intros j9. eapply reads_bind; [apply reads_logger|]. intros j10. apply reads_ret.
Qed.

Lemma plan_of_mirrored s t ts ms :
  (∀ x, x ∈ ts → present s x = true →
        present t x = true ∧ describe s x = describe t x
        ∧ key_column_usage s x = key_column_usage t x
        ∧ show_index s x = show_index t x) →
  tables_to_create (plan_of s t ts ms) = [] ∧ tables_to_alter (plan_of s t ts ms) = [].
Proof.
  induction ts as [|x ts IH]; intros Hsame; [done|].
  rewrite plan_of_cons, tables_to_create_app, tables_to_alter_app.
  destruct IH as [-> ->]; [intros y Hy; apply Hsame; by right|]. rewrite !app_nil_r.
  specialize (Hsame x (list_elem_of_here _ _)).
  destruct (step_of_cases s t ms x)
    as [[_ ->]|[(Hs & Ht & _)|(Hs & Ht & Hcreate & Halter & _)]]; [done| |].
  - destruct (Hsame Hs) as [Ht' _]. congruence.
  - split; [done|]. apply Halter. destruct (Hsame Hs) as (_ & Hc & Hf & Hi).
    unfold analysis_of. rewrite Hs, Ht. cbn. rewrite Hc, Hf, Hi.
    split_and!; [apply compare_structures_self|apply compare_foreign_keys_self
                |apply compare_indexes_self].
Qed.

(** The backup step of [replicate_structure]: it sends nothing, and it
    raises exactly when a backup is asked for and [create_backup] raises. *)
Lemma backup_step_run (with_backup : bool) tables w :
  (∃ j, (if with_backup then
           logger info "Criando backup antes da replicação";;
           session target_db (λ d, (create_backup d "production" tables, d));;
           mret ()
         else mret ()) w = (Val (), extend w j)
        ∧ requests_sent j = []
        ∧ (with_backup = true → ∃ name, create_backup (target w) "production" tables
                                        = Val name))
  ∨ (∃ e j, (if with_backup then
               logger info "Criando backup antes da replicação";;
               session target_db (λ d, (create_backup d "production" tables, d));;
               mret ()
             else mret ()) w = (Raise e, extend w j)
            ∧ requests_sent j = []
            ∧ with_backup = true
            ∧ create_backup (target w) "production" tables = Raise e).
Proof.
  destruct with_backup.
  - rewrite bind_run, logger_run, bind_run. unfold session.
    rewrite db_extend, set_db_extend, set_db_same. cbn [db].
    destruct (create_backup (target w) "production" tables) as [name|e] eqn:Hbackup.
    + left. eexists. split_and!; [done|done|eauto].
    + right. eexists e, _. split_and!; done.
  - left. exists []. rewrite extend_nil. split_and!; done.
Qed.

(** X9. When every table of the list that the source has is in the target
    with the same columns, foreign keys and indexes, [replicate_structure]
    sends no request and leaves both databases as they are; it returns
    [True], unless a backup was asked for and the backup raised. *)
Theorem synchronised_structure_untouched (tables maintain_tables : list string)
    (with_backup : bool) w :
  connector_only (source w) → connector_only (target w) →
  (∀ table_name,
     table_name ∈ tables → present (source w) table_name = true →
     present (target w) table_name = true
     ∧ describe (source w) table_name = describe (target w) table_name
     ∧ key_column_usage (source w) table_name = key_column_usage (target w) table_name
     ∧ show_index (source w) table_name = show_index (target w) table_name) →
  ∃ ok j,
    replicate_structure tables maintain_tables with_backup w = (Val ok, extend w j)
    ∧ requests_sent j = []
    ∧ (ok = true
       ∨ with_backup = true
         ∧ ∃ e, create_backup (target w) "production" tables = Raise e).
Proof.
  intros Hs Ht Hsame. unfold replicate_structure, try_except.
  rewrite bind_run, logger_run.
  set (w0 := extend w [Log info "Iniciando replicação de estrutura"]).
  rewrite bind_run.
  destruct (backup_step_run with_backup tables w0)
    as [(jb & -> & Hjb & _)|(e & jb & -> & Hjb & Hwb & He)].
  - assert (reads (plan ← get_replication_plan tables maintain_tables; apply_plan plan)
                  (extend w0 jb) true) as (j & -> & Hj).
    { eapply reads_bind;
        [apply get_replication_plan_answer; by autorewrite with world|].
      intros j. apply apply_plan_nothing; autorewrite with world;
        by apply plan_of_mirrored. }
    unfold w0. rewrite !extend_extend. eexists true, _. split_and!; [done| |by left].
    by rewrite !requests_sent_app, Hjb, Hj.
  - rewrite bind_run, logger_run. unfold w0. rewrite !extend_extend.
    eexists false, _. split_and!; [done| |right; eauto].
    by rewrite !requests_sent_app, Hjb.
Qed.
End InSync.
(** ** Computations that write to the target alone *)

Section Sends.
Import Journal Reads Requests.
Context {DB : Type}.
Implicit Types (w : World DB) (P : conn * request → Prop).

Lemma set_db_set_db c (d1 d2 : DB) w : set_db c d2 (set_db c d1 w) = set_db c d2 w.
Proof. by destruct c. Qed.

Lemma set_target_same w : set_db target_db (target w) w = w.
Proof. apply (set_db_same target_db). Qed.

Lemma sends_reads_only {A} P (m : M DB A) : reads_only m → sends P m.
Proof.
  intros Hm w. destruct (Hm w) as (j & Hj & Hnone).
  exists (target w), j. rewrite set_target_same, Hnone. by split.
Qed.

Lemma sends_ret {A} P (a : A) : sends (DB:=DB) P (mret a).
Proof. apply sends_reads_only, reads_only_ret. Qed.

Lemma sends_raise {A} P e : sends (DB:=DB) P (raise (A:=A) e).
Proof. apply sends_reads_only, reads_only_raise. Qed.

Lemma sends_logger P l msg : sends (DB:=DB) P (logger l msg).
Proof. apply sends_reads_only, reads_only_logger. Qed.

Lemma sends_mark P (e : event) : requests_sent [e] = [] → sends (DB:=DB) P (emit e).
Proof. intros He. by apply sends_reads_only, reads_only_mark. Qed.

Lemma sends_then {A B} P (m : M DB A) (k : World DB → res B * World DB) w :
  sends P m →
  (∀ w1, ∃ d j, (k w1).2 = extend (set_db target_db d w1) j
                ∧ Forall P (requests_sent j)) →
  ∃ d j, (k (m w).2).2 = extend (set_db target_db d w) j ∧ Forall P (requests_sent j).
Proof.
  intros Hm Hk. destruct (Hm w) as (d1 & j1 & -> & H1).
  destruct (Hk (extend (set_db target_db d1 w) j1)) as (d2 & j2 & -> & H2).
  exists d2, (j1 ++ j2). rewrite set_db_extend, set_db_set_db, extend_extend.
  split; [done|]. rewrite requests_sent_app. by apply Forall_app.
Qed.

Lemma sends_bind {A B} P (m : M DB A) (k : A → M DB B) :
  sends P m → (∀ a, sends P (k a)) → sends P (m ≫= k).
Proof.
  intros Hm Hk w. rewrite bind_run.
  destruct (m w) as [[a|e] w1] eqn:Hrun.
  - replace w1 with (m w).2 by (by rewrite Hrun).
    apply (sends_then P m (k a) w Hm). intros w2. apply Hk.
  - cbn [snd]. replace w1 with (m w).2 by (by rewrite Hrun). apply Hm.
Qed.

Lemma sends_try_except {A} P (m : M DB A) h :
  sends P m → (∀ e, sends P (h e)) → sends P (try_except m h).
Proof.
  intros Hm Hh w. unfold try_except.
  destruct (m w) as [[a|e] w1] eqn:Hrun.
  - cbn [snd]. replace w1 with (m w).2 by (by rewrite Hrun). apply Hm.
  - replace w1 with (m w).2 by (by rewrite Hrun).
    apply (sends_then P m (h e) w Hm). intros w2. apply Hh.
Qed.

Lemma sends_try_except_Error {A} P (m : M DB A) h :
  sends P m → (∀ e, sends P (h e)) → sends P (try_except_Error m h).
Proof.
  intros Hm Hh w. unfold try_except_Error.
  destruct (m w) as [[a|[msg|msg]] w1] eqn:Hrun.
  - cbn [snd]. replace w1 with (m w).2 by (by rewrite Hrun). apply Hm.
  - replace w1 with (m w).2 by (by rewrite Hrun).
    apply (sends_then P m (h (Error msg)) w Hm). intros w2. apply Hh.
  - cbn [snd]. replace w1 with (m w).2 by (by rewrite Hrun). apply Hm.
Qed.

Lemma sends_fold_ {A S} P (l : list A) (body : S → A → M DB S) acc :
  (∀ acc x, sends P (body acc x)) → sends P (fold_ l body acc).
Proof.
  intros Hbody. revert acc. induction l as [|x l IH]; intros acc; simpl.
  - apply sends_ret.
  - apply sends_bind; [apply Hbody|]. intros acc'. apply IH.
Qed.

Lemma sends_for_ {A R} P (l : list A) (body : A → M DB (option R)) :
  (∀ x, sends P (body x)) → sends P (for_ l body).
Proof.
  intros Hbody. induction l as [|x l IH]; simpl.
  - apply sends_ret.
  - apply sends_bind; [apply Hbody|]. intros [r|]; [apply sends_ret|apply IH].
Qed.

Lemma sends_weaken {A} P Q (m : M DB A) :
  (∀ sent, P sent → Q sent) → sends P m → sends Q m.
Proof.
  intros HPQ Hm w. destruct (Hm w) as (d & j & Hrun & Hj).
  exists d, j. split; [done|]. by eapply Forall_impl.
Qed.
End Sends.

Ltac sends_step :=
  match goal with
  | |- Requests.sends _ (mret _) => apply sends_ret
  | |- Requests.sends _ (raise _) => apply sends_raise
  | |- Requests.sends _ (logger _ _) => apply sends_logger
  | |- Requests.sends _ (emit (Enter _)) => by apply sends_mark
  | |- Requests.sends _ (emit (Leave _)) => by apply sends_mark
  | |- Requests.sends _ (_ ≫= _) => apply sends_bind; [|intros ?]
  | |- Requests.sends _ (try_except _ _) => apply sends_try_except; [|intros ?]
  | |- Requests.sends _ (try_except_Error _ _) =>
      apply sends_try_except_Error; [|intros ?]
  | |- Requests.sends _ (fold_ _ _ _) => apply sends_fold_; intros ? ?
  | |- Requests.sends _ (for_ _ _) => apply sends_for_; intros ?
  | |- Requests.sends _ (if ?b then _ else _) => destruct b
  | |- Requests.sends _ (match ?x with _ => _ end) => destruct x
  end.

Section SendsMethods.
Import DatabaseManager Planner Replicator Journal Reads Requests.
Context `{Server DB} `{BackupManager DB} `{SetIter}.
Implicit Types (w : World DB) (P : conn * request → Prop).

Lemma sends_send P r : P (target_db, r) → sends P (send target_db r).
Proof.
  intros HP w. destruct (send_run target_db r w) as (j & Hlogs & ->).
  eexists _, _. split; [done|]. cbn [requests_sent flat_map].
  fold (requests_sent j). rewrite (requests_sent_logs j) by done. by constructor.
Qed.

Lemma sends_execute_query P q :
  P (target_db, Execute q) → sends P (execute_query target_db q).
Proof. intros HP. unfold execute_query. repeat (sends_step || by apply sends_send). Qed.

Lemma sends_execute_queries P qs :
  P (target_db, ExecuteAll qs) → sends P (execute_queries target_db qs).
Proof. intros HP. unfold execute_queries. repeat (sends_step || by apply sends_send). Qed.

Lemma sends_truncate_table P t :
  P (target_db, Truncate t) → P (target_db, DeleteAll t) →
  sends P (truncate_table target_db t).
Proof.
  intros HT HD. unfold truncate_table. repeat (sends_step || by apply sends_send).
Qed.

Lemma sends_backup P (with_backup : bool) tables :
  sends P (if with_backup then
             logger info "Criando backup antes da replicação";;
             session target_db (λ d, (create_backup d "production" tables, d));;
             mret ()
           else mret ()).
Proof.
  apply sends_reads_only. destruct with_backup; [|apply reads_only_ret].
  apply reads_only_bind; [apply reads_only_logger|]. intros _.
  apply reads_only_bind; [|intros; apply reads_only_ret].
  intros w. exists []. unfold session. simpl.
  by rewrite set_target_same, extend_nil.
Qed.
End SendsMethods.

Ltac sends_read :=
  apply sends_reads_only;
  first [ apply reads_only_fetch | apply reads_only_test_connection
        | apply reads_only_get_table_structure | apply reads_only_get_table_foreign_keys
        | apply reads_only_get_table_indexes | apply reads_only_get_create_table_statement
        | apply reads_only_get_table_data | apply reads_only_get_table_count
        | apply reads_only_table_exists | apply reads_only_get_replication_plan
        | apply reads_only_sort | apply reads_only_get_column_position ].

Ltac sends_write :=
  first [ apply sends_execute_query; by split
        | apply sends_execute_queries; by split
        | apply sends_truncate_table; by split
        | apply sends_send; by split
        | apply sends_backup ].

Ltac solve_sends := repeat (sends_step || sends_read || sends_write).

Section Writers.
Import Plan DatabaseManager Planner Replicator Journal Reads Requests.
Context `{Server DB} `{BackupManager DB} `{SetIter}.
Implicit Types (w : World DB).

Lemma sends_create_table t : sends schema_request (_create_table t).
Proof.
  unfold _create_table, _create_table_without_foreign_keys. solve_sends.
Qed.

Lemma sends_alter_table t diffs : sends schema_request (_alter_table t diffs).
Proof. unfold _alter_table. solve_sends. Qed.

Lemma sends_update_foreign_keys t diffs :
  sends schema_request (_update_foreign_keys t diffs).
Proof. unfold _update_foreign_keys. solve_sends. Qed.

Lemma sends_update_indexes t diffs : sends schema_request (_update_indexes t diffs).
Proof. unfold _update_indexes. solve_sends. Qed.

Lemma sends_add_missing_foreign_keys ts :
  sends schema_request (_add_missing_foreign_keys ts).
Proof. unfold _add_missing_foreign_keys. solve_sends. Qed.

Lemma sends_apply_plan plan : sends schema_request (apply_plan plan).
Proof.
  unfold apply_plan, calling.
  repeat (sends_step || sends_read || sends_write || apply sends_create_table
          || apply sends_alter_table || apply sends_update_foreign_keys
          || apply sends_update_indexes || apply sends_add_missing_foreign_keys).
Qed.

Lemma sends_replicate_structure ts ms b :
  sends schema_request (replicate_structure ts ms b).
Proof.
  unfold replicate_structure.
  repeat (apply sends_backup || sends_step || sends_read || apply sends_apply_plan).
Qed.

Lemma sends_insert_data t cols data : sends rows_request (_insert_data t cols data).
Proof. unfold _insert_data, insert_in_batches, insert_batch. solve_sends. Qed.

Lemma sends_replicate_data ts : sends rows_request (replicate_data ts).
Proof.
  unfold replicate_data, replicate_table_data, clear_and_copy.
  repeat (sends_step || sends_read || sends_write || apply sends_insert_data).
Qed.

Lemma sends_full_replication ts ms b :
  sends (λ sent, schema_request sent ∨ rows_request sent) (full_replication ts ms b).
Proof.
  unfold full_replication, calling.
  repeat (sends_step || sends_read
          || (eapply sends_weaken; [|apply sends_replicate_structure]; by left)
          || (eapply sends_weaken; [|apply sends_replicate_data]; by right)).
Qed.
End Writers.

(** ** The statements the helpers build and run *)

Section SentFacts.
Import Journal.

Lemma requests_sent_Sent c r j : requests_sent (Sent c r :: j) = (c, r) :: requests_sent j.
Proof. done. Qed.

Lemma requests_sent_Log l msg j : requests_sent (Log l msg :: j) = requests_sent j.
Proof. done. Qed.

Lemma requests_sent_Enter a j : requests_sent (Enter a :: j) = requests_sent j.
Proof. done. Qed.

Lemma requests_sent_Leave a j : requests_sent (Leave a :: j) = requests_sent j.
Proof. done. Qed.

Lemma requests_sent_nil : requests_sent [] = [].
Proof. done. Qed.
End SentFacts.

Create Rewrite HintDb sent.
#[local] Hint Rewrite @requests_sent_app @requests_sent_Sent @requests_sent_Log
  @requests_sent_Enter @requests_sent_Leave @requests_sent_nil @app_nil_r @app_nil_l
  : sent.

Section HelperRequests.
Import Plan DatabaseManager StructureAnalyzer Planner Replicator Requests Journal Reads.
Context `{Server DB} `{BackupManager DB} `{SetIter}.
Implicit Types (w : World DB).

Lemma execute_queries_run c queries w :
  ∃ j, Forall is_log j
       ∧ execute_queries c queries w
         = (match (serve (db c w) (ExecuteAll queries)).1 with
            | Val _ => Val true
            | Raise (Error _) => Val false
            | Raise (Exception msg) => Raise (Exception msg)
            end,
            extend (set_db c (serve (db c w) (ExecuteAll queries)).2 w)
                   (Sent c (ExecuteAll queries) :: j)).
Proof.
  destruct (send_run c (ExecuteAll queries) w) as (j & Hlogs & Hsend).
  unfold execute_queries, try_except_Error. rewrite bind_run, Hsend.
  destruct (serve (db c w) (ExecuteAll queries)) as [[[]|[msg|msg]] d']; cbn [fst snd].
  - by exists j.
  - eexists (j ++ [_]). rewrite bind_run, logger_run, extend_extend. split; [|done].
    apply Forall_app. split; [done|]. repeat constructor. by eexists _, _.
  - by exists j.
Qed.

Lemma total_reads {A} (m : M DB A) w :
  total m → reads_only m → ∃ a, reads m w a.
Proof.
  intros Ht Hr. destruct (Ht w) as [a Ha]. destruct (Hr w) as (j & Hj & Hnone).
  exists a, j. split; [|done]. destruct (m w) as [r w']. simpl in *. by subst.
Qed.

Lemma total_get_column_position t c : total (_get_column_position t c).
Proof. unfold _get_column_position. repeat total_step. Qed.

(** The tail the three helpers share: run the statements, if any. *)
Lemma executes_run queries (failure : string) w0 w j0 :
  w = extend w0 j0 → requests_sent j0 = [] →
  ∃ r w',
    (if truthy queries then
       ok ← execute_queries target_db queries;
       if ok : bool then mret true else logger error failure;; mret false
     else mret true) w = (r, w')
    ∧ ∃ j, w' = extend (set_db target_db
                          (match queries with
                           | [] => target w0
                           | _ => (serve (target w0) (ExecuteAll queries)).2
                           end) w0) j
           ∧ requests_sent j
             = match queries with [] => [] | _ => [(target_db, ExecuteAll queries)] end
           ∧ match queries with
             | [] => r = Val true
             | _ =>
                 match (serve (target w0) (ExecuteAll queries)).1 with
                 | Val _ => r = Val true
                 | Raise (Error _) => r = Val false
                 | Raise (Exception msg) => r = Raise (Exception msg)
                 end
             end.
Proof.
  intros -> Hj0. destruct queries as [|q queries]; cbn [truthy].
  - eexists _, _. split; [done|]. exists j0. by rewrite set_target_same.
  - destruct (execute_queries_run target_db (q :: queries) (extend w0 j0))
      as (j & Hlogs & Hrun).
    rewrite bind_run, Hrun. autorewrite with world. cbn [db].
    assert (requests_sent (j0 ++ Sent target_db (ExecuteAll (q :: queries)) :: j)
            = [(target_db, ExecuteAll (q :: queries))]) as Hsent.
    { rewrite requests_sent_app, Hj0.
      change (?e :: j) with ([e] ++ j).
      by rewrite requests_sent_app, (requests_sent_logs j). }
    destruct (serve (target w0) (ExecuteAll (q :: queries))) as [[[]|[msg|msg]] d'];
      cbn [fst snd].
    + eexists _, _. split; [done|]. rewrite set_db_extend, extend_extend. eauto.
    + eexists _, _. rewrite bind_run, logger_run. split; [done|].
      rewrite set_db_extend, !extend_extend. eexists. split_and!; [done| |done].
      rewrite app_assoc, requests_sent_app, Hsent. done.
    + eexists _, _. split; [done|]. rewrite set_db_extend, extend_extend. eauto.
Qed.

(** What a helper that builds statements and runs them returns. *)
Lemma build_and_execute (build : M DB (list string)) (failure : string)
    (text : exn → string) queries w j0 :
  build w = (Val queries, extend w j0) → requests_sent j0 = [] →
  ∃ ok w',
    try_except
      (queries ← build;
       if truthy queries then
         ok ← execute_queries target_db queries;
         if ok : bool then mret true else logger error failure;; mret false
       else mret true)
      (λ e, logger error (text e);; mret false) w = (Val ok, w')
    ∧ executes queries w ok w'.
Proof.
  intros Hbuild Hj0.
  destruct (executes_run queries failure w (extend w j0) j0 eq_refl Hj0)
    as (r & w' & Hrun & j & -> & Hsent & Hr).
  unfold try_except. rewrite bind_run, Hbuild, Hrun. unfold executes.
  destruct queries as [|q queries].
  - subst r. rewrite set_target_same. eexists true, _. split; [done|]. eauto.
  - destruct (serve (target w) (ExecuteAll (q :: queries))) as [[[]|[msg|msg]] d'];
      cbn [fst snd accepted] in *; subst r.
    + eexists true, _. split; [done|]. eauto.
    + eexists false, _. split; [done|]. eauto.
    + rewrite bind_run, logger_run, extend_extend. eexists false, _. split; [done|].
      split; [done|]. eexists. split; [done|]. by rewrite requests_sent_app, Hsent.
Qed.

Lemma update_foreign_keys_fold t tfks diffs acc w :
  key_column_usage (target w) t = Val tfks →
  Forall (λ diff, match diff with
                  | missing_foreign_key _ _ _ => True
                  | extra_foreign_key column ref_table ref_column =>
                      (column, ref_table, ref_column) ∈ fk_triple <$> tfks
                  | _ => False
                  end) diffs →
  ∃ queries,
    fold_ diffs
      (λ queries diff,
         match diff with
         | missing_foreign_key column ref_table ref_column =>
             let constraint_name := "fk_" +:+ t +:+ "_" +:+ column in
             mret (queries
                   ++ ["ALTER TABLE " +:+ t +:+ " ADD CONSTRAINT "
                       +:+ constraint_name +:+ " FOREIGN KEY (" +:+ column
                       +:+ ") REFERENCES " +:+ ref_table +:+ "(" +:+ ref_column
                       +:+ ")"])
         | extra_foreign_key column ref_table ref_column =>
             fks ← get_table_foreign_keys target_db t;
             match List.find (λ fk, bool_decide (fk_triple fk
                                                 = (column, ref_table, ref_column)))
                             fks with
             | Some fk =>
                 mret (queries
                       ++ ["ALTER TABLE " +:+ t +:+ " DROP FOREIGN KEY "
                           +:+ CONSTRAINT_NAME fk])
             | None => mret queries
             end
         | _ => mret queries
         end)
      acc w = (Val (acc ++ queries), w)
    ∧ Forall2 (fk_statement t tfks) diffs queries.
Proof.
  intros Hfks Hdiffs. revert acc.
  induction Hdiffs as [|diff diffs Hdiff _ IH]; intros acc.
  - exists []. cbn. by rewrite app_nil_r.
  - cbn [fold_]. rewrite bind_run.
    destruct diff as [| | | | | |column ref_table ref_column
                      |column ref_table ref_column| |]; try done.
    + cbn [mret M_ret ret].
      match goal with
      | |- context [fold_ diffs _ (acc ++ [?x])] =>
          destruct (IH (acc ++ [x])) as (queries & Hq & Hall); exists (x :: queries);
          replace (acc ++ x :: queries) with ((acc ++ [x]) ++ queries)
            by (by rewrite <-app_assoc)
      end.
      split; [exact Hq|by constructor].
    + rewrite bind_run, (get_table_foreign_keys_val _ _ _ tfks) by done.
      destruct (List.find _ tfks) as [fk|] eqn:Hfind.
      * apply List.find_some in Hfind as [Hin Hfk].
        apply bool_decide_eq_true_1 in Hfk.
        cbn [mret M_ret ret].
        match goal with
        | |- context [fold_ diffs _ (acc ++ [?x])] =>
            destruct (IH (acc ++ [x])) as (queries & Hq & Hall); exists (x :: queries);
            replace (acc ++ x :: queries) with ((acc ++ [x]) ++ queries)
              by (by rewrite <-app_assoc)
        end.
        split; [exact Hq|].
        constructor; [|done]. exists fk. split_and!; [by apply list_elem_of_In|done|done].
      * exfalso. apply list_elem_of_fmap in Hdiff as (fk & Heq & Hin).
        apply list_elem_of_In in Hin.
        pose proof (List.find_none _ _ Hfind fk Hin) as Hno. cbn in Hno.
        by rewrite bool_decide_eq_true_2 in Hno.
Qed.
End HelperRequests.

Section HelperRequestsLaws.
Import Plan DatabaseManager StructureAnalyzer Planner Replicator Requests Journal Reads.
Context `{Server DB} `{BackupManager DB} `{SetIterLaws}.
Implicit Types (w : World DB).

(** X12. On the differences [_compare_foreign_keys] reports against the rows
    the target returns,
    [_update_foreign_keys] builds one statement per difference, in their
    order: ADD CONSTRAINT for a missing key, under the name
    fk_<table>_<column>, and DROP FOREIGN KEY of a constraint the target has
    on the same triple for an extra one.  It sends them to the target in one
    request, or nothing when there is none, and returns whether the server
    went through with them. *)
Theorem update_foreign_keys_requests (table_name : string)
    (source_fks target_fks : list ForeignKey) w :
  key_column_usage (target w) table_name = Val target_fks →
  ∃ queries ok w',
    _update_foreign_keys table_name (_compare_foreign_keys source_fks target_fks) w
    = (Val ok, w')
    ∧ executes queries w ok w'
    ∧ Forall2 (fk_statement table_name target_fks)
              (_compare_foreign_keys source_fks target_fks) queries.
Proof.
  intros Hfks.
  destruct (update_foreign_keys_fold table_name target_fks
              (_compare_foreign_keys source_fks target_fks) [] w Hfks)
    as (queries & Hfold & Hall).
  { unfold _compare_foreign_keys. apply Forall_app. split; apply Forall_fmap, Forall_forall.
    - by intros [[c rt] rc] _.
    - intros [[c rt] rc] Hin. cbn. apply set_iter_elem in Hin.
      apply elem_of_difference in Hin as [Hin _].
      by apply elem_of_list_to_set in Hin. }
  rewrite <-(extend_nil w) in Hfold at 2. cbn [app] in Hfold.
  destruct (build_and_execute _
              ("Erro ao atualizar chaves estrangeiras da tabela " +:+ table_name)
              (λ e, "Erro ao atualizar chaves estrangeiras da tabela "
                    +:+ table_name +:+ ": " +:+ str e)
              queries w [] Hfold eq_refl) as (ok & w' & Hrun & Hexec).
  exists queries, ok, w'. split_and!; [exact Hrun|done|done].
Qed.
End HelperRequestsLaws.

Section IndexRequests.
Import Plan DatabaseManager StructureAnalyzer Planner Replicator Requests Journal Reads.
Context `{Server DB} `{BackupManager DB} `{SetIter}.
Implicit Types (w : World DB).

Lemma find_head_filter {A} (f : A → bool) (l : list A) :
  List.find f l = head (List.filter f l).
Proof. induction l as [|x l IH]; simpl; [done|]. by destruct (f x). Qed.

Lemma get_table_indexes_val c t w rows :
  show_index (db c w) t = Val rows → get_table_indexes c t w = (Val rows, w).
Proof.
  intros Hrows. unfold get_table_indexes, try_except_Error.
  by rewrite (fetch_val _ _ _ rows).
Qed.

Lemma update_indexes_fold t sidx diffs acc w :
  show_index (source w) t = Val sidx →
  Forall (λ diff, match diff with
                  | missing_index index_name _ => index_name ∈ Key_name <$> sidx
                  | extra_index _ _ => True
                  | _ => False
                  end) diffs →
  ∃ queries,
    fold_ diffs
      (λ queries diff,
         match diff with
         | missing_index index_name _ =>
             if bool_decide (index_name ≠ "PRIMARY") then
               source_indexes ← get_table_indexes source_db t;
               match List.find (λ idx, bool_decide (Key_name idx = index_name))
                               source_indexes with
               | Some idx =>
                   mret (queries ++ [create_index_query t index_name idx])
               | None => mret queries
               end
             else mret queries
         | extra_index index_name _ =>
             if bool_decide (index_name ≠ "PRIMARY") then
               mret (queries
                     ++ ["DROP INDEX " +:+ index_name +:+ " ON " +:+ t])
             else mret queries
         | _ => mret queries
         end)
      acc w = (Val (acc ++ queries), w)
    ∧ Forall2 (index_statement t sidx)
              (List.filter (λ diff, negb (primary diff)) diffs) queries.
Proof.
  intros Hidx Hdiffs. revert acc.
  induction Hdiffs as [|diff diffs Hdiff _ IH]; intros acc.
  - exists []. cbn. by rewrite app_nil_r.
  - cbn [fold_ List.filter]. rewrite bind_run.
    destruct diff as [| | | | | | | |n rows|n rows]; try done; cbn [primary].
    + destruct (decide (n = "PRIMARY")) as [->|Hn].
      * rewrite bool_decide_eq_false_2 by (intros Hne; by apply Hne).
        rewrite (bool_decide_eq_true_2 ("PRIMARY" = "PRIMARY")) by done.
        cbn [negb mret M_ret ret]. apply IH.
      * rewrite (bool_decide_eq_true_2 (n ≠ "PRIMARY")) by done.
        rewrite (bool_decide_eq_false_2 (n = "PRIMARY")) by done. cbn [negb].
        rewrite bind_run, (get_table_indexes_val _ _ _ sidx) by done.
        rewrite find_head_filter. fold (index_rows n sidx).
        destruct (head (index_rows n sidx)) as [idx|] eqn:Hhead.
        -- cbn [mret M_ret ret].
           match goal with
           | |- context [fold_ diffs _ (acc ++ [?x])] =>
               destruct (IH (acc ++ [x])) as (queries & Hq & Hall);
               exists (x :: queries);
               replace (acc ++ x :: queries) with ((acc ++ [x]) ++ queries)
                 by (by rewrite <-app_assoc)
           end.
           split; [exact Hq|]. constructor; [|done]. by exists idx.
        -- exfalso. apply list_elem_of_fmap in Hdiff as (idx & -> & Hin).
           assert (idx ∈ index_rows (Key_name idx) sidx) as Hin'.
           { apply elem_of_List_filter. split; [done|by apply bool_decide_eq_true_2]. }
           destruct (index_rows (Key_name idx) sidx); [by apply elem_of_nil in Hin'|done].
    + destruct (decide (n = "PRIMARY")) as [->|Hn].
      * rewrite bool_decide_eq_false_2 by (intros Hne; by apply Hne).
        rewrite (bool_decide_eq_true_2 ("PRIMARY" = "PRIMARY")) by done.
        cbn [negb mret M_ret ret]. apply IH.
      * rewrite (bool_decide_eq_true_2 (n ≠ "PRIMARY")) by done.
        rewrite (bool_decide_eq_false_2 (n = "PRIMARY")) by done.
        cbn [negb mret M_ret ret].
        match goal with
        | |- context [fold_ diffs _ (acc ++ [?x])] =>
            destruct (IH (acc ++ [x])) as (queries & Hq & Hall);
            exists (x :: queries);
            replace (acc ++ x :: queries) with ((acc ++ [x]) ++ queries)
              by (by rewrite <-app_assoc)
        end.
        split; [exact Hq|]. by constructor.
Qed.

(** X13. On the differences [_compare_indexes] reports for the rows the
    source returns, [_update_indexes] builds one statement per difference
    whose index is not PRIMARY, in their order: CREATE INDEX from the first
    row of that name in the source for a missing index, DROP INDEX for an
    extra one.  It sends them to the target in one request, or nothing when
    there is none, and returns whether the server went through with them. *)
Theorem update_indexes_requests (table_name : string)
    (source_indexes target_indexes : list IndexRow) w :
  show_index (source w) table_name = Val source_indexes →
  ∃ queries ok w',
    _update_indexes table_name (_compare_indexes source_indexes target_indexes) w
    = (Val ok, w')
    ∧ executes queries w ok w'
    ∧ Forall2 (index_statement table_name source_indexes)
              (List.filter (λ diff, negb (primary diff))
                           (_compare_indexes source_indexes target_indexes))
              queries.
Proof.
  intros Hidx.
  destruct (update_indexes_fold table_name source_indexes
              (_compare_indexes source_indexes target_indexes) [] w Hidx)
    as (queries & Hfold & Hall).
  { apply Forall_forall. intros d
      [(n & Hn & _ & ->)|(n & _ & _ & ->)]%compare_indexes_elem; done. }
  rewrite <-(extend_nil w) in Hfold at 2. cbn [app] in Hfold.
  destruct (build_and_execute _
              ("Erro ao atualizar índices da tabela " +:+ table_name)
              (λ e, "Erro ao atualizar índices da tabela "
                    +:+ table_name +:+ ": " +:+ str e)
              queries w [] Hfold eq_refl) as (ok & w' & Hrun & Hexec).
  exists queries, ok, w'. split_and!; [exact Hrun|done|done].
Qed.
End IndexRequests.

Section AlterRequests.
Import Plan DatabaseManager StructureAnalyzer Planner Replicator Requests Journal Reads.
Context `{Server DB} `{BackupManager DB} `{SetIter}.
Implicit Types (w : World DB).

Lemma ret_run {A} (a : A) w : (mret a : M DB A) w = (Val a, w).
Proof. done. Qed.

Lemma alter_table_fold t diffs acc w :
  ∃ queries,
    reads (fold_ diffs
             (λ alter_queries diff,
                match diff with
                | missing_column _ col_def =>
                    let query := add_column_query t col_def in
                    position ← _get_column_position t (Field col_def);
                    let query := if bool_decide (position ≠ "")
                                 then query +:+ " " +:+ position else query in
                    mret (alter_queries ++ [query])
                | extra_column col_name _ =>
                    mret (alter_queries
                          ++ ["ALTER TABLE " +:+ t +:+ " DROP COLUMN `"
                              +:+ col_name +:+ "`"])
                | type_difference col_name source_type _ =>
                    mret (alter_queries
                          ++ ["ALTER TABLE " +:+ t +:+ " MODIFY COLUMN `"
                              +:+ col_name +:+ "` " +:+ source_type])
                | column_order_difference _ _ =>
                    logger warning
                      ("Ordem das colunas diferente em " +:+ t
                       +:+ ", mas será ignorada para evitar problemas com chaves estrangeiras");;
                    mret alter_queries
                | _ => mret alter_queries
                end)
             acc) w (acc ++ queries)
    ∧ Forall2 (column_statement t (source w) (target w))
              (List.filter applied diffs) queries.
Proof.
  revert acc w. induction diffs as [|diff diffs IH]; intros acc w.
  - exists []. rewrite app_nil_r. split; [apply reads_ret|constructor].
  - cbn [fold_ List.filter].
    assert (∀ query queries j j2 w1 (k : list string → M DB (list string)),
              k (acc ++ [query]) w1 = (Val ((acc ++ [query]) ++ queries), extend w1 j2) →
              ∀ m : M DB (list string),
                m w = (Val (acc ++ [query]), w1) → w1 = extend w j →
                requests_sent j = [] → requests_sent j2 = [] →
                reads (m ≫= k) w (acc ++ query :: queries)) as Hstep.
    { intros query queries j j2 w1 k Hk m Hm -> Hj Hj2. exists (j ++ j2).
      rewrite (bind_val _ _ _ _ _ Hm), Hk, extend_extend, <-app_assoc.
      split; [done|]. by rewrite requests_sent_app, Hj, Hj2. }
    assert (∀ queries j j2 w1 (k : list string → M DB (list string)),
              k acc w1 = (Val (acc ++ queries), extend w1 j2) →
              ∀ m : M DB (list string),
                m w = (Val acc, w1) → w1 = extend w j →
                requests_sent j = [] → requests_sent j2 = [] →
                reads (m ≫= k) w (acc ++ queries)) as Hskip.
    { intros queries j j2 w1 k Hk m Hm -> Hj Hj2. exists (j ++ j2).
      rewrite (bind_val _ _ _ _ _ Hm), Hk, extend_extend.
      split; [done|]. by rewrite requests_sent_app, Hj, Hj2. }
    destruct diff as [c col_def|c def|c st tt|c sn tn|c sd td|so to| | | |];
      cbn [applied].
    + destruct (total_reads (_get_column_position t (Field col_def)) w
                  (total_get_column_position _ _) (reads_only_get_column_position _ _))
        as (position & j & Hpos & Hj).
      set (query := if bool_decide (position ≠ "")
                    then add_column_query t col_def +:+ " " +:+ position
                    else add_column_query t col_def).
      destruct (IH (acc ++ [query]) (extend w j))
        as (queries & (j2 & Hrest & Hj2) & Hall).
      exists (query :: queries). split.
      * eapply (Hstep query queries j j2); [exact Hrest| |done|done|done].
        cbv zeta. by rewrite bind_run, Hpos.
      * constructor; [|by autorewrite with world in Hall].
        exists position, w, (extend w j). done.
    + destruct (IH (acc ++ ["ALTER TABLE " +:+ t +:+ " DROP COLUMN `" +:+ c +:+ "`"])
                  (extend w []))
        as (queries & (j2 & Hrest & Hj2) & Hall).
      eexists (_ :: queries). split; [|by autorewrite with world in Hall; constructor].
      eapply (Hstep _ queries [] j2); [exact Hrest| |done|done|done].
      by rewrite extend_nil.
    + destruct (IH (acc ++ ["ALTER TABLE " +:+ t +:+ " MODIFY COLUMN `" +:+ c +:+ "` "
                            +:+ st]) (extend w []))
        as (queries & (j2 & Hrest & Hj2) & Hall).
      eexists (_ :: queries). split; [|by autorewrite with world in Hall; constructor].
      eapply (Hstep _ queries [] j2); [exact Hrest| |done|done|done].
      by rewrite extend_nil.
    + destruct (IH acc (extend w [])) as (queries & (j2 & Hrest & Hj2) & Hall).
      exists queries. split; [|by autorewrite with world in Hall].
      eapply (Hskip queries [] j2); [exact Hrest| |done|done|done]. by rewrite extend_nil.
    + destruct (IH acc (extend w [])) as (queries & (j2 & Hrest & Hj2) & Hall).
      exists queries. split; [|by autorewrite with world in Hall].
      eapply (Hskip queries [] j2); [exact Hrest| |done|done|done]. by rewrite extend_nil.
    + destruct (IH acc (extend w [Log warning
                  ("Ordem das colunas diferente em " +:+ t
                   +:+ ", mas será ignorada para evitar problemas com chaves estrangeiras")]))
        as (queries & (j2 & Hrest & Hj2) & Hall).
      exists queries. split; [|by autorewrite with world in Hall].
      eapply (Hskip queries [_] j2); [exact Hrest| |done|done|done].
      by rewrite bind_run, logger_run.
    + destruct (IH acc (extend w [])) as (queries & (j2 & Hrest & Hj2) & Hall).
      exists queries. split; [|by autorewrite with world in Hall].
      eapply (Hskip queries [] j2); [exact Hrest| |done|done|done]. by rewrite extend_nil.
    + destruct (IH acc (extend w [])) as (queries & (j2 & Hrest & Hj2) & Hall).
      exists queries. split; [|by autorewrite with world in Hall].
      eapply (Hskip queries [] j2); [exact Hrest| |done|done|done]. by rewrite extend_nil.
    + destruct (IH acc (extend w [])) as (queries & (j2 & Hrest & Hj2) & Hall).
      exists queries. split; [|by autorewrite with world in Hall].
      eapply (Hskip queries [] j2); [exact Hrest| |done|done|done]. by rewrite extend_nil.
    + destruct (IH acc (extend w [])) as (queries & (j2 & Hrest & Hj2) & Hall).
      exists queries. split; [|by autorewrite with world in Hall].
      eapply (Hskip queries [] j2); [exact Hrest| |done|done|done]. by rewrite extend_nil.
Qed.

Lemma alter_table_run (table_name : string) (differences : list Difference) w :
  ∃ queries ok w',
    _alter_table table_name differences w = (Val ok, w')
    ∧ executes queries w ok w'
    ∧ Forall2 (column_statement table_name (source w) (target w))
              (List.filter applied differences) queries.
Proof.
  destruct (alter_table_fold table_name differences [] w)
    as (queries & (j0 & Hfold & Hj0) & Hall).
  cbn [app] in Hfold. exists queries.
  unfold _alter_table, try_except. rewrite bind_run, Hfold. unfold executes.
  destruct queries as [|q queries]; cbn [truthy].
  - rewrite bind_run. cbn [mret M_ret ret]. rewrite bind_run, logger_run, extend_extend.
    eexists true, _. split; [done|]. split; [|done]. split; [done|].
    eexists. split; [done|]. by rewrite requests_sent_app, Hj0.
  - destruct (execute_queries_run target_db (q :: queries)
                (extend (extend w j0)
                   [Log info ("Executando " +:+ pretty (length (q :: queries))
                              +:+ " alterações na tabela " +:+ table_name)]))
      as (j & Hlogs & Hrun).
    autorewrite with world in Hrun. cbn [db] in Hrun.
    rewrite bind_run, bind_run, logger_run, extend_extend, bind_run, Hrun.
    pose proof (requests_sent_logs j Hlogs) as Hj.
    destruct (serve (target w) (ExecuteAll (q :: queries))) as [[[]|[msg|msg]] d'];
      cbn [fst snd accepted].
    + cbn [mret M_ret ret]. rewrite bind_run, logger_run.
      rewrite !set_db_extend, !extend_extend.
      eexists true, _. split; [done|]. split; [|done]. split; [done|].
      eexists. split; [done|]. autorewrite with sent. by rewrite Hj0, Hj.
    + rewrite bind_run, logger_run. cbn [mret M_ret ret].
      rewrite !set_db_extend, !extend_extend.
      eexists false, _. split; [done|]. split; [|done]. split; [done|].
      eexists. split; [done|]. autorewrite with sent. by rewrite Hj0, Hj.
    + rewrite bind_run, logger_run.
      rewrite !set_db_extend, !extend_extend.
      eexists false, _. split; [done|]. split; [|done]. split; [done|].
      eexists. split; [done|]. autorewrite with sent. by rewrite Hj0, Hj.
Qed.

(** X14. [_alter_table] returns, whatever the server does.  It builds one
    statement for each missing column, extra column and type difference, in
    the order of the list, and none for the other differences; it sends them
    to the target in one request, or sends nothing when there is none, and
    returns whether the server went through with them. *)
Theorem alter_table_requests (table_name : string) (differences : list Difference) w :
  ∃ queries ok w',
    _alter_table table_name differences w = (Val ok, w')
    ∧ executes queries w ok w'
    ∧ Forall2 (column_statement table_name (source w) (target w))
              (List.filter applied differences) queries.
Proof. apply alter_table_run. Qed.
End AlterRequests.

(** ** What a replication sends, and when it gives up *)

Section Safety.
Import Plan DatabaseManager StructureAnalyzer Planner Replicator Requests Journal Reads.
Context `{Server DB} `{BackupManager DB} `{SetIter}.
Implicit Types (w : World DB).

Lemma sends_run {A} P (m : M DB A) w :
  sends P m →
  ∃ j, source (m w).2 = source w ∧ journal (m w).2 = journal w ++ j
       ∧ Forall P (requests_sent j).
Proof.
  intros Hm. destruct (Hm w) as (d & j & -> & Hj). exists j.
  by autorewrite with world.
Qed.

(** X10. [replicate_structure], [replicate_data] and [full_replication]
    leave the source database as it is: every request they send goes to the
    target. *)
Theorem source_is_never_written (tables maintain_tables : list string)
    (with_backup : bool) w :
  let only_target (w' : World DB) :=
    ∃ j, source w' = source w ∧ journal w' = journal w ++ j
         ∧ Forall (λ sent : conn * request, sent.1 = target_db) (requests_sent j) in
  only_target (replicate_structure tables maintain_tables with_backup w).2
  ∧ only_target (replicate_data tables w).2
  ∧ only_target (full_replication tables maintain_tables with_backup w).2.
Proof.
  cbv zeta beta. split_and!.
  - apply sends_run. eapply sends_weaken; [|apply sends_replicate_structure].
    by intros sent [? _].
  - apply sends_run. eapply sends_weaken; [|apply sends_replicate_data].
    by intros sent [? _].
  - apply sends_run. eapply sends_weaken; [|apply sends_full_replication].
    by intros sent [[? _]|[? _]].
Qed.

(** X11. [replicate_structure] sends only statements to execute, on the
    target: it inserts and deletes no rows.  [replicate_data] sends only
    batches of rows to insert and requests to empty a table, on the target:
    it runs no statement of its own. *)
Theorem requests_by_phase (tables maintain_tables : list string)
    (with_backup : bool) w :
  (∃ j, journal (replicate_structure tables maintain_tables with_backup w).2
        = journal w ++ j
        ∧ Forall schema_request (requests_sent j))
  ∧ (∃ j, journal (replicate_data tables w).2 = journal w ++ j
          ∧ Forall rows_request (requests_sent j)).
Proof.
  split.
  - destruct (sends_run schema_request _ w
                (sends_replicate_structure tables maintain_tables with_backup))
      as (j & _ & Hj & Hall). by exists j.
  - destruct (sends_run rows_request _ w (sends_replicate_data tables))
      as (j & _ & Hj & Hall). by exists j.
Qed.

(** [test_connection]: whether the probe went through. *)
Lemma test_connection_run c w :
  ∃ j, Forall is_log j
       ∧ test_connection c w
         = (match select_1 (db c w) with
            | Val _ => Val true
            | Raise (Error _) => Val false
            | Raise (Exception msg) => Raise (Exception msg)
            end, extend w j).
Proof.
  destruct (fetch_run c select_1 w) as (j & Hlogs & Hfetch).
  unfold test_connection, try_except_Error. rewrite bind_run, Hfetch.
  destruct (select_1 (db c w)) as [[]|[msg|msg]].
  - by exists j.
  - eexists (j ++ [_]). rewrite bind_run, logger_run, extend_extend. split; [|done].
    apply Forall_app. split; [done|]. repeat constructor. by eexists _, _.
  - by exists j.
Qed.

Lemma Forall_is_log_cons l msg j : Forall is_log j → Forall is_log (Log l msg :: j).
Proof. constructor; [by eexists _, _|done]. Qed.

(** X19. When the test of the connection to the source or to the target
    fails, [full_replication] returns [False], leaves both databases as they
    are and sends no request: the journal grows by log lines only. *)
Theorem failed_connection_aborts (all_tables maintain_tables : list string)
    (with_backup : bool) w :
  select_1 (source w) ≠ Val () ∨ select_1 (target w) ≠ Val () →
  ∃ j, full_replication all_tables maintain_tables with_backup w
       = (Val false, extend w j)
       ∧ Forall is_log j.
Proof.
  intros Hfail. unfold full_replication, try_except.
  rewrite bind_run, logger_run, bind_run, logger_run, bind_run, logger_run.
  rewrite !extend_extend. set (j0 := _ ++ _ ++ _).
  assert (Forall is_log j0) as Hj0 by (repeat constructor; by eexists _, _).
  destruct (test_connection_run source_db (extend w j0)) as (j1 & Hj1 & Hrun1).
  rewrite bind_run, Hrun1. autorewrite with world. cbn [db].
  destruct (select_1 (source w)) as [[]|[msg|msg]] eqn:Hs.
  - cbn [negb].
    destruct (test_connection_run target_db (extend w (j0 ++ j1))) as (j2 & Hj2 & Hrun2).
    rewrite bind_run, Hrun2. autorewrite with world. cbn [db].
    destruct (select_1 (target w)) as [[]|[msg|msg]] eqn:Ht.
    + by destruct Hfail.
    + cbn [negb]. rewrite bind_run, logger_run, extend_extend. eexists. split; [done|].
      rewrite !Forall_app. split_and!; [done|done|done|]. repeat constructor.
      by eexists _, _.
    + rewrite bind_run, logger_run, extend_extend. eexists. split; [done|].
      rewrite !Forall_app. split_and!; [done|done|done|]. repeat constructor.
      by eexists _, _.
  - cbn [negb]. rewrite bind_run, logger_run, extend_extend. eexists. split; [done|].
    rewrite !Forall_app. split_and!; [done|done|]. repeat constructor. by eexists _, _.
  - rewrite bind_run, logger_run, extend_extend. eexists. split; [done|].
    rewrite !Forall_app. split_and!; [done|done|]. repeat constructor. by eexists _, _.
Qed.

(** X20. When the backup asked for raises, [replicate_structure] returns
    [False] and logs the text of the exception; it leaves both databases as
    they are and sends no request. *)
Theorem failed_backup_aborts (tables maintain_tables : list string) (e : exn) w :
  create_backup (target w) "production" tables = Raise e →
  ∃ j, replicate_structure tables maintain_tables true w = (Val false, extend w j)
       ∧ Forall is_log j
       ∧ Log error ("Erro na replicação de estrutura: " +:+ str e) ∈ j.
Proof.
  intros Hbackup. unfold replicate_structure, try_except.
  rewrite bind_run, logger_run, bind_run, bind_run, logger_run, bind_run.
  unfold session. autorewrite with world. cbn [db]. rewrite Hbackup.
  rewrite bind_run, logger_run. rewrite set_db_extend, set_target_same.
  rewrite !extend_extend. eexists. split_and!; [done| |].
  - repeat constructor; by eexists _, _.
  - do 2 right. left.
Qed.

(** X21. [truncate_table] sends TRUNCATE; when the connector answers with an
    error it sends DELETE FROM to the database that TRUNCATE left, and
    returns [True] if either goes through, [False] if both meet a connector
    error.  Any other exception comes out of it. *)
Theorem truncate_table_falls_back (c : conn) (table_name : string) w :
  let first := serve (db c w) (Truncate table_name) in
  let second := serve first.2 (DeleteAll table_name) in
  ∃ j,
    truncate_table c table_name w
    = match first.1 with
      | Val _ =>
          (Val true, extend (set_db c first.2 w) j)
      | Raise (Exception msg) =>
          (Raise (Exception msg), extend (set_db c first.2 w) j)
      | Raise (Error _) =>
          (match second.1 with
           | Val _ => Val true
           | Raise (Error _) => Val false
           | Raise (Exception msg) => Raise (Exception msg)
           end, extend (set_db c second.2 w) j)
      end
    ∧ requests_sent j
      = match first.1 with
        | Raise (Error _) => [(c, Truncate table_name); (c, DeleteAll table_name)]
        | _ => [(c, Truncate table_name)]
        end.
Proof.
  cbv zeta. destruct (send_run c (Truncate table_name) w) as (j1 & Hj1 & Hrun1).
  apply requests_sent_logs in Hj1.
  unfold truncate_table. unfold try_except_Error at 1. rewrite bind_run, Hrun1.
  destruct (serve (db c w) (Truncate table_name)) as [[[]|[msg|msg]] d1]; cbn [fst snd].
  - eexists. split; [done|]. autorewrite with sent. by rewrite Hj1.
  - destruct (send_run c (DeleteAll table_name)
                (extend (set_db c d1 w) (Sent c (Truncate table_name) :: j1)))
      as (j2 & Hj2 & Hrun2).
    apply requests_sent_logs in Hj2.
    unfold try_except_Error. rewrite bind_run, Hrun2.
    assert (db c (set_db c d1 w) = d1) as Hdb by (by destruct c).
    autorewrite with world. rewrite Hdb.
    destruct (serve d1 (DeleteAll table_name)) as [[[]|[msg2|msg2]] d2]; cbn [fst snd].
    + rewrite set_db_extend, set_db_set_db, extend_extend. eexists. split; [done|].
      autorewrite with sent. by rewrite Hj1, Hj2.
    + rewrite bind_run, logger_run.
      rewrite set_db_extend, set_db_set_db, !extend_extend. eexists. split; [done|].
      autorewrite with sent. by rewrite Hj1, Hj2.
    + rewrite set_db_extend, set_db_set_db, extend_extend. eexists. split; [done|].
      autorewrite with sent. by rewrite Hj1, Hj2.
  - eexists. split; [done|]. autorewrite with sent. by rewrite Hj1.
Qed.

(** X22. A table that both databases have, and for which the source returns
    no column or a connector error, is passed over by the data replication
    with a warning: nothing is cleared, nothing is copied, and the loop goes
    on. *)
Theorem table_without_columns_is_skipped (table_name : string) w :
  reported_present (source w) table_name →
  reported_present (target w) table_name →
  describe (source w) table_name = Val []
  ∨ (∃ msg, describe (source w) table_name = Raise (Error msg)) →
  ∃ j, replicate_table_data table_name w = (Val None, extend w j)
       ∧ Forall is_log j
       ∧ Log warning ("Tabela " +:+ table_name +:+ " não possui colunas") ∈ j.
Proof.
  intros Hs Ht Hcols. unfold replicate_table_data.
  rewrite bind_run, table_exists_present by done. cbn [negb].
  rewrite bind_run, table_exists_present by done. cbn [negb].
  rewrite bind_run, logger_run, bind_run.
  destruct Hcols as [Hcols|[msg Hcols]].
  - rewrite (get_table_structure_val _ _ _ []) by done. cbn.
    rewrite bind_run, logger_run, extend_extend. eexists. split_and!; [done| |].
    + repeat constructor; by eexists _, _.
    + right. left.
  - unfold get_table_structure, try_except_Error.
    rewrite (fetch_Error _ _ _ msg) by done.
    rewrite bind_run, logger_run. cbn.
    rewrite bind_run, logger_run, !extend_extend. eexists. split_and!; [done| |].
    + repeat constructor; by eexists _, _.
    + do 3 right. left.
Qed.
End Safety.

(** ** Creating a table and adding its foreign keys *)

Section CreateAndAdd.
Import Plan DatabaseManager StructureAnalyzer Planner Replicator Requests Journal Reads.
Context `{Server DB} `{BackupManager DB} `{SetIter}.
Implicit Types (w : World DB).

(** X16. When the target goes through with the statement of the source, or
    the connector raises an error on it, [_create_table] has sent that
    statement once, as it is, and nothing else, and returns whether the
    server went through with it.  When the source has no statement for the
    table it sends nothing and returns [False]. *)
Theorem create_table_single_attempt (table_name : string) w :
  (∀ stmt,
     show_create_table (source w) table_name = Val stmt → stmt ≠ "" →
     (∀ msg, (serve (target w) (Execute stmt)).1 ≠ Raise (Exception msg)) →
     ∃ j, _create_table table_name w
          = (Val (accepted (serve (target w) (Execute stmt)).1),
             extend (set_db target_db (serve (target w) (Execute stmt)).2 w) j)
          ∧ requests_sent j = [(target_db, Execute stmt)])
  ∧ ((∀ stmt, show_create_table (source w) table_name = Val stmt → stmt = "") →
     ∃ j, _create_table table_name w = (Val false, extend w j)
          ∧ requests_sent j = []).
Proof.
  split.
  - intros stmt Hstmt Hne Hcalm.
    destruct (execute_query_run target_db stmt w) as (j1 & Hj1 & Hrun).
    apply requests_sent_logs in Hj1. cbn [db] in Hrun.
    unfold _create_table. unfold try_except at 1.
    rewrite bind_run, (get_create_table_statement_val _ _ _ stmt) by done.
    rewrite bool_decide_eq_false_2 by done.
    rewrite bind_run. unfold try_except. rewrite bind_run, Hrun.
    destruct (serve (target w) (Execute stmt)) as [[[]|[msg|msg]] d1];
      cbn [fst snd accepted] in *.
    + rewrite bind_run, logger_run, extend_extend. eexists. split; [done|].
      autorewrite with sent. by rewrite Hj1.
    + cbn. eexists. split; [done|]. autorewrite with sent. by rewrite Hj1.
    + by destruct (Hcalm msg).
  - intros Hnone. unfold _create_table, try_except.
    destruct (fetch_run source_db (λ d, show_create_table d table_name) w)
      as (j1 & Hj1 & Hfetch).
    apply requests_sent_logs in Hj1. cbn [db] in Hfetch.
    rewrite bind_run. unfold get_create_table_statement, try_except_Error.
    rewrite Hfetch.
    destruct (show_create_table (source w) table_name) as [stmt|[msg|msg]].
    + rewrite (Hnone stmt eq_refl). rewrite bool_decide_eq_true_2 by done.
      rewrite bind_run, logger_run, extend_extend.
      eexists. split; [done|]. autorewrite with sent. by rewrite Hj1.
    + rewrite bind_run, logger_run. rewrite ret_run.
      rewrite bool_decide_eq_true_2 by done.
      rewrite bind_run, logger_run, !extend_extend.
      eexists. split; [done|]. autorewrite with sent. by rewrite Hj1.
    + rewrite bind_run, logger_run, extend_extend.
      eexists. split; [done|]. autorewrite with sent. by rewrite Hj1.
Qed.

Lemma sends_fold_in {A S} P (l : list A) (body : S → A → M DB S) acc :
  (∀ acc x, x ∈ l → sends P (body acc x)) → sends P (fold_ l body acc).
Proof.
  revert acc. induction l as [|x l IH]; intros acc Hbody; simpl.
  - apply sends_ret.
  - apply sends_bind; [apply Hbody; left|]. intros acc'. apply IH.
    intros acc'' y Hy. apply Hbody. by right.
Qed.

Lemma sends_add_constraints ts :
  sends (constraint_added ts) (_add_missing_foreign_keys ts).
Proof.
  unfold _add_missing_foreign_keys.
  apply sends_try_except; [|intros e; solve_sends].
  apply sends_bind; [|intros; apply sends_ret].
  apply sends_fold_in. intros [] t Ht.
  repeat (sends_step || sends_read).
  apply sends_execute_query. eexists t, _. split; [done|]. reflexivity.
Qed.

(** X17. [_add_missing_foreign_keys] returns, whatever the servers do; it
    leaves the source as it is, and every request it sends is an ALTER
    TABLE ... ADD CONSTRAINT on the target, for one of the tables of its
    list. *)
Theorem add_missing_foreign_keys_only_adds (tables : list string) w :
  ∃ ok j,
    (_add_missing_foreign_keys tables w).1 = Val ok
    ∧ source (_add_missing_foreign_keys tables w).2 = source w
    ∧ journal (_add_missing_foreign_keys tables w).2 = journal w ++ j
    ∧ Forall (constraint_added tables) (requests_sent j).
Proof.
  destruct (total_add_missing_foreign_keys tables w) as [ok Hok].
  destruct (sends_run (constraint_added tables) _ w (sends_add_constraints tables))
    as (j & Hs & Hj & Hall).
  by exists ok, j.
Qed.
End CreateAndAdd.

Section AddNothing.
Import Plan DatabaseManager StructureAnalyzer Planner Replicator Requests Journal Reads.
Context `{Server DB} `{BackupManager DB} `{SetIterLaws}.
Implicit Types (w : World DB).

Lemma add_missing_synced_fold ts w :
  connector_only (source w) → connector_only (target w) →
  (∀ t, t ∈ ts →
        fk_set (answer [] (key_column_usage (source w) t))
        = fk_set (answer [] (key_column_usage (target w) t))) →
  reads (fold_ ts
           (λ _ table_name,
              source_fks ← get_table_foreign_keys source_db table_name;
              target_fks ← get_table_foreign_keys target_db table_name;
              let missing_fks := fk_set source_fks ∖ fk_set target_fks in
              if bool_decide (missing_fks ≠ ∅) then
                logger info ("Adicionando " +:+ pretty (size missing_fks)
                             +:+ " chaves estrangeiras para " +:+ table_name);;
                fold_ (set_iter missing_fks)
                  (λ _ '(column, ref_table, ref_column),
                     referenced ← table_exists target_db ref_table;
                     if referenced : bool then
                       let constraint_name := "fk_" +:+ table_name +:+ "_" +:+ column
                                              +:+ "_" +:+ ref_table in
                       let query := "ALTER TABLE " +:+ table_name +:+ " ADD CONSTRAINT "
                                    +:+ constraint_name +:+ " FOREIGN KEY (" +:+ column
                                    +:+ ") REFERENCES " +:+ ref_table +:+ "("
                                    +:+ ref_column +:+ ")" in
                       try_except
                         (execute_query target_db query;;
                          logger info ("Chave estrangeira adicionada: " +:+ table_name
                                       +:+ "." +:+ column +:+ " -> " +:+ ref_table
                                       +:+ "." +:+ ref_column))
                         (λ e, logger warning
                                 ("Erro ao adicionar chave estrangeira " +:+ table_name
                                  +:+ "." +:+ column +:+ " -> " +:+ ref_table +:+ "."
                                  +:+ ref_column +:+ ": " +:+ str e))
                     else
                       logger warning ("Tabela referenciada " +:+ ref_table
                                       +:+ " não existe, pulando chave estrangeira"))
                  ()
              else mret ())
           ()) w ().
Proof.
  intros Hs Ht. revert w Hs Ht. induction ts as [|t ts IH]; intros w Hs Ht Hsame.
  - apply reads_ret.
  - cbn [fold_]. eapply reads_bind.
    + eapply reads_bind; [by apply (get_table_foreign_keys_answer source_db)|].
      intros j1.
      eapply reads_bind;
        [apply (get_table_foreign_keys_answer target_db); by autorewrite with world|].
      intros j2. autorewrite with world. cbn [db]. cbv zeta.
      rewrite (Hsame t) by left. rewrite difference_diag_L.
      rewrite bool_decide_eq_false_2 by (intros Hne; by apply Hne).
      apply reads_ret.
    + intros j. apply IH; autorewrite with world; [done|done|].
      intros t' Ht'. apply Hsame. by right.
Qed.

(** X18. When every table of the list has the same triples of column,
    referenced table and referenced column on both sides,
    [_add_missing_foreign_keys] sends nothing and returns [True]. *)
Theorem add_missing_foreign_keys_synchronised (tables : list string) w :
  connector_only (source w) → connector_only (target w) →
  (∀ table_name,
     table_name ∈ tables →
     fk_set (answer [] (key_column_usage (source w) table_name))
     = fk_set (answer [] (key_column_usage (target w) table_name))) →
  ∃ j, _add_missing_foreign_keys tables w = (Val true, extend w j)
       ∧ requests_sent j = [].
Proof.
  intros Hs Ht Hsame.
  destruct (add_missing_synced_fold tables w Hs Ht Hsame) as (j & Hrun & Hj).
  exists j. unfold _add_missing_foreign_keys, try_except.
  erewrite bind_val; [|exact Hrun]. done.
Qed.
End AddNothing.

(** ** Tables that depend on none of the others *)

Section NoDeps.
Import Schedule.
Context `{SetIterLaws}.

(** X23. When no foreign key of a table of the list refers to a table of
    the list, the table itself included, the scheduler returns the tables
    in the order in which the set of them is walked, each once: the order
    of the list is not kept. *)
Theorem scheduler_without_dependencies
    (fks_of : string → list ForeignKey) (tables : list string) :
  (∀ t fk, t ∈ tables → fk ∈ fks_of t → REFERENCED_TABLE_NAME fk ∉ tables) →
  sort_tables_by_dependency fks_of tables
  = Some (set_iter (list_to_set tables : gset string)).
Proof.
  intros Hnone.
  assert (∀ t, t ∈ tables → deps_in tables (fks_of t) = []) as Hfree.
  { intros t Ht. unfold deps_in. apply elem_of_nil_inv.
    intros x [Hx (fk & -> & Hfk)%list_elem_of_fmap]%list_elem_of_filter.
    exact (Hnone t fk Ht Hfk Hx). }
  clear Hnone. unfold sort_tables_by_dependency.
  set (remaining := list_to_set tables : gset string).
  destruct (decide (remaining = ∅)) as [Hempty|Hne].
  - rewrite Hempty, size_empty. simpl. rewrite decide_True by done.
    by rewrite set_iter_empty.
  - destruct (size remaining) as [|fuel] eqn:Hsize.
    { by apply size_empty_inv, leibniz_equiv_iff in Hsize. }
    cbn [sort_loop]. rewrite decide_False by done.
    unfold next_round.
    rewrite (select_no_deps_filter fks_of tables).
    2:{ intros t Ht. apply set_iter_elem_of in Ht. by apply elem_of_list_to_set in Ht. }
    assert (List.filter (λ t, no_pending remaining (deps_in tables (fks_of t)))
                        (set_iter remaining) = set_iter remaining) as ->.
    { apply List.forallb_filter_id, List.forallb_forall. intros t Ht.
      apply list_elem_of_In, set_iter_elem_of, elem_of_list_to_set in Ht.
      by rewrite Hfree. }
    cbn [mbind option_bind]. rewrite decide_False by (by apply set_iter_nonempty).
    cbn [mbind option_bind].
    assert (remaining ∖ list_to_set (set_iter remaining) = ∅) as ->.
    { rewrite list_to_set_set_iter. apply difference_diag_L. }
    destruct fuel; simpl; by rewrite decide_True.
Qed.
End NoDeps.

(** ** Differences [_alter_table] has no statement for *)

Section Unrepaired.
Import Plan DatabaseManager StructureAnalyzer Planner Replicator Requests Journal Reads.

Lemma last_filter_agree {B} (f : Column → B) (s t : list Column) k :
  (∀ a b, f a = f b → Field a = Field b) →
  f <$> s = f <$> t →
  f <$> last (List.filter (λ col, bool_decide (Field col = k)) s)
  = f <$> last (List.filter (λ col, bool_decide (Field col = k)) t).
Proof.
  intros Hf. revert t. induction s as [|a s IH]; intros [|b t] Heq; try done.
  rewrite !fmap_cons in Heq.
  pose proof (f_equal head Heq) as Hab. pose proof (f_equal tail Heq) as Heq'.
  simpl in Hab, Heq'. apply (inj Some) in Hab. specialize (IH t Heq').
  cbn [List.filter].
  rewrite <-(Hf a b) by done.
  case_bool_decide; [|done].
  rewrite !last_cons.
  destruct (last (List.filter _ s)), (last (List.filter _ t)); simpl in *; try done.
  by rewrite Hab.
Qed.

Lemma typed_fields (s t : list Column) :
  typed <$> s = typed <$> t → Field <$> s = Field <$> t.
Proof.
  intros Heq. apply (f_equal (fmap fst)) in Heq.
  by rewrite <-!list_fmap_compose in Heq.
Qed.

Lemma applied_compare_structures (s t : list Column) :
  typed <$> s = typed <$> t →
  List.filter applied (_compare_structures s t) = [].
Proof.
  intros Heq. pose proof (typed_fields _ _ Heq) as Hfields.
  apply List_filter_nil. intros d. unfold _compare_structures.
  rewrite !elem_of_app. intros [Hd|[Hd|[Hd|Hd]]].
  - exfalso. apply list_elem_of_In, in_flat_map in Hd as (k & Hk & Hd).
    apply list_elem_of_In, keys_cols_by_field in Hk. rewrite Hfields in Hk.
    apply keys_cols_by_field, DictFacts.has_keys in Hk. by rewrite Hk in Hd.
  - exfalso. apply list_elem_of_In, in_flat_map in Hd as (k & Hk & Hd).
    apply list_elem_of_In, keys_cols_by_field in Hk. rewrite <-Hfields in Hk.
    apply keys_cols_by_field, DictFacts.has_keys in Hk. by rewrite Hk in Hd.
  - apply list_elem_of_In, in_flat_map in Hd as (k & Hk & Hd).
    pose proof (last_filter_agree typed s t k) as Hl.
    rewrite <-!get_cols_by_field in Hl.
    destruct (PyDict.get (cols_by_field s) k) as [a|],
      (PyDict.get (cols_by_field t) k) as [b|]; try done.
    assert (Type_ a = Type_ b) as Htype.
    { assert (Some (typed a) = Some (typed b)) as Hab.
      { apply Hl; [|done]. unfold typed. congruence. }
      unfold typed in Hab. congruence. }
    unfold column_differences in Hd.
    rewrite (bool_decide_eq_false_2 (Type_ a ≠ Type_ b)) in Hd by (intros Hne; by apply Hne).
    repeat case_bool_decide; simpl in Hd; naive_solver.
  - case_bool_decide; [|by apply elem_of_nil in Hd].
    by apply list_elem_of_singleton in Hd as ->.
Qed.

Context `{Server DB} `{BackupManager DB} `{SetIter}.
Implicit Types (w : World DB).

(** X15. On two structures with the same columns of the same types in the
    same order, [_alter_table] sends nothing for what [_compare_structures]
    reports, and returns [True]: differences of nullability and of default
    are reported and left as they are. *)
Theorem nullability_and_defaults_are_left (table_name : string)
    (source_structure target_structure : list Column) w :
  typed <$> source_structure = typed <$> target_structure →
  ∃ j, _alter_table table_name
         (_compare_structures source_structure target_structure) w
       = (Val true, extend w j)
       ∧ requests_sent j = [].
Proof.
  intros Heq.
  destruct (alter_table_run table_name
              (_compare_structures source_structure target_structure) w)
    as (queries & ok & w' & Hrun & Hexec & Hall).
  rewrite applied_compare_structures in Hall by done.
  apply Forall2_nil_inv_l in Hall as ->.
  destruct Hexec as (-> & j & -> & Hj). by exists j.
Qed.
End Unrepaired.

(** ** Rebuilding a table through a copy *)

Section Recreate.
Import Plan DatabaseManager StructureAnalyzer Planner Replicator Requests Journal Reads.
Context `{Server DB} `{BackupManager DB} `{SetIter}.
Implicit Types (w : World DB).

(** X24. When the copy of the table into the temporary table does not go
    through, [_recreate_table] returns [False] having sent two requests, the
    DROP of the temporary table and the copy: the table itself is not
    dropped. *)
Theorem recreate_keeps_table_until_copied (table_name : string) w :
  let temp_table := table_name +:+ "_temp" in
  let drop_temp := Execute ("DROP TABLE IF EXISTS " +:+ temp_table) in
  let copy := Execute ("CREATE TABLE " +:+ temp_table +:+ " AS SELECT * FROM "
                       +:+ table_name) in
  let first := serve (target w) drop_temp in
  let second := serve first.2 copy in
  (∀ msg, first.1 ≠ Raise (Exception msg)) →
  second.1 ≠ Val () →
  ∃ j, _recreate_table table_name w
       = (Val false, extend (set_db target_db second.2 w) j)
       ∧ requests_sent j = [(target_db, drop_temp); (target_db, copy)].
Proof.
  cbv zeta. intros Hfirst Hsecond. unfold _recreate_table, try_except. cbv zeta.
  set (temp_table := table_name +:+ "_temp") in *.
  destruct (execute_query_run target_db ("DROP TABLE IF EXISTS " +:+ temp_table) w)
    as (j1 & Hj1 & Hrun1).
  apply requests_sent_logs in Hj1. cbn [db] in Hrun1.
  rewrite bind_run, Hrun1.
  destruct (serve (target w) (Execute ("DROP TABLE IF EXISTS " +:+ temp_table)))
    as [r1 d1] eqn:Hserve1. cbn [fst snd] in *.
  assert (∃ b, match r1 with
               | Val _ => Val true
               | Raise (Error _) => Val false
               | Raise (Exception msg) => Raise (Exception msg)
               end = Val b) as [b ->].
  { destruct r1 as [[]|[msg|msg]]; eauto. by destruct (Hfirst msg). }
  rewrite bind_run, logger_run, extend_extend.
  match goal with
  | |- context [(execute_query target_db ?q ≫= _) ?w1] =>
      destruct (execute_query_run target_db q w1) as (j2 & Hj2 & Hrun2)
  end.
  apply requests_sent_logs in Hj2.
  autorewrite with world in Hrun2. cbn [db] in Hrun2.
  rewrite target_set_target in Hrun2.
  rewrite bind_run, Hrun2.
  destruct (serve d1 (Execute ("CREATE TABLE " +:+ temp_table +:+ " AS SELECT * FROM "
                               +:+ table_name)))
    as [[[]|[msg|msg]] d2]; cbn [fst snd] in *.
  - done.
  - cbn [negb]. rewrite ret_run.
    rewrite set_db_extend, set_db_set_db, extend_extend.
    eexists. split; [done|]. autorewrite with sent. by rewrite Hj1, Hj2.
  - rewrite bind_run, logger_run.
    rewrite set_db_extend, set_db_set_db, !extend_extend.
    eexists. split; [done|]. autorewrite with sent. by rewrite Hj1, Hj2.
Qed.
End Recreate.

(** ** Connector errors stay inside the [DatabaseManager] *)

Section ErrorFree.
Import DatabaseManager Journal Reads.
Context `{Server DB} `{Catalogue DB}.
Implicit Types (w : World DB).

Lemma error_free_fallback {A} (m : M DB A) (text : exn → string) (fallback : A) :
  error_free (try_except_Error m (λ e, logger error (text e);; mret fallback)).
Proof.
  intros w msg. unfold try_except_Error.
  destruct (m w) as [[a|[msg'|msg']] w1]; [done| |done].
  by rewrite bind_run, logger_run.
Qed.

Lemma error_free_handler {A} (m : M DB A) h :
  (∀ e, error_free (h e)) → error_free (try_except_Error m h).
Proof.
  intros Hh w msg. unfold try_except_Error.
  destruct (m w) as [[a|[msg'|msg']] w1]; [done| |done]. apply Hh.
Qed.

(** X26. No connector error comes out of a method of the [DatabaseManager]:
    each of them catches it, and returns in its place. *)
Theorem connector_errors_are_swallowed (c : conn)
    (table_name source_table dest_table query : string) (queries columns : list string) :
  error_free (test_connection c)
  ∧ error_free (get_all_tables c)
  ∧ error_free (get_table_structure c table_name)
  ∧ error_free (get_table_foreign_keys c table_name)
  ∧ error_free (get_table_indexes c table_name)
  ∧ error_free (get_create_table_statement c table_name)
  ∧ error_free (execute_query c query)
  ∧ error_free (execute_queries c queries)
  ∧ error_free (get_table_data c table_name)
  ∧ error_free (get_table_count c table_name)
  ∧ error_free (table_exists c table_name)
  ∧ error_free (truncate_table c table_name)
  ∧ error_free (copy_table_data c source_table dest_table columns).
Proof.
  split_and!; try apply error_free_fallback.
  apply error_free_handler. intros e. apply error_free_fallback.
Qed.
End ErrorFree.

(** The order of [elements] is an order a set may be walked in. *)
Lemma walk_laws : @SetIterLaws Scripted.walk.
Proof. by intros A ? ? s. Qed.

(** A dependency relation that a rank orders has no cycle. *)
Lemma ranked_acyclic (R : relation string) (rank : string → nat) :
  (∀ x y, R x y → (rank y < rank x)%nat) → ∀ u, ¬ tc R u u.
Proof.
  intros Hrank u Hcycle.
  assert (∀ x y, tc R x y → (rank y < rank x)%nat) as Hlt.
  { intros x y Hxy. induction Hxy as [x y Hxy|x y z Hxy _ IH].
    - by apply Hrank.
    - apply Hrank in Hxy. lia. }
  apply Hlt in Hcycle. lia.
Qed.

(** * Concrete runs *)

Section Concrete.
Import Examples Scripted Plan DatabaseManager StructureAnalyzer Planner Replicator Journal.

Lemma shop_depends t d :
  Schedule.depends shop_fks shop_tables t d →
  (t = "orders" ∧ d = "customers") ∨ (t = "customers" ∧ d = "accounts")
  ∨ (t = "accounts" ∧ d = "customers").
Proof.
  unfold Schedule.depends, Schedule.deps_in, shop_fks.
  repeat case_bool_decide; subst; vm_compute; intros Hd;
    apply list_elem_of_In in Hd; simpl in Hd; naive_solver.
Qed.

Lemma shop_cycle_closed x y :
  rtc (Schedule.depends shop_fks shop_tables) x y →
  x = "customers" ∨ x = "accounts" → y = "customers" ∨ y = "accounts".
Proof.
  induction 1 as [x|x y z Hxy _ IH]; [done|]. intros Hx. apply IH.
  apply shop_depends in Hxy. naive_solver.
Qed.

(** C6, as stated, fails: [orders] depends on [customers] alone, and no
    path leads from [customers] back to [orders]; but [customers] and
    [accounts] refer to each other, no table is free in the first turn, and
    the table taken to break the tie is [orders], ahead of [customers]. *)
Lemma scheduler_cycle_counterexample :
  ¬ ("orders" ∈ shop_tables →
     (∀ d, Schedule.depends shop_fks shop_tables "orders" d →
           ¬ rtc (Schedule.depends shop_fks shop_tables) d "orders") →
     ∃ out, @Schedule.sort_tables_by_dependency Scripted.walk shop_fks shop_tables
            = Some out
            ∧ ∀ d, Schedule.depends shop_fks shop_tables "orders" d →
                   Schedule.before d "orders" out).
Proof.
  intros Hclaim. destruct Hclaim as (out & Hout & Hbefore).
  - unfold shop_tables. set_solver.
  - intros d Hd Hback. apply shop_depends in Hd.
    apply shop_cycle_closed in Hback; naive_solver.
  - vm_compute in Hout. injection Hout as <-.
    destruct (Hbefore "customers") as (l1 & l2 & l3 & Heq).
    { unfold Schedule.depends. vm_compute. left. }
    destruct l1 as [|x l1]; [done|]. injection Heq as Hx Heq.
    assert ("orders" ∈ l1 ++ "customers" :: l2 ++ "orders" :: l3) as Hin.
    { rewrite elem_of_app, elem_of_cons, elem_of_app, elem_of_cons. naive_solver. }
    rewrite <-Heq in Hin. apply list_elem_of_In in Hin. simpl in Hin. naive_solver.
Qed.

(** C1 on a table whose statement the target refuses for its foreign key.
    The error of the connector names the foreign key constraint;
    [execute_query] catches it and returns [False], so the handler of
    [_create_table] that sends the statement again without its foreign keys
    is not entered: the statement of [orders] is sent once, as it is,
    [_create_table] returns [False], and the statement without the foreign
    keys is never sent.  The statement of [audit_log] is refused for
    another cause, and [replicate_structure] returns [True] all the same. *)
Lemma foreign_key_retry_is_never_reached :
  let attempt := _create_table "orders" refusing_world in
  let run := replicate_structure ["orders"; "audit_log"] [] false refusing_world in
  (serve (target refusing_world) (Execute create_orders)).1 = Raise (Error fk_error)
  ∧ PyStr.contains "Foreign key constraint" fk_error = true
  ∧ attempt.1 = Val false
  ∧ requests_sent (journal attempt.2) = [(target_db, Execute create_orders)]
  ∧ (serve (target refusing_world) (Execute create_audit_log)).1
    = Raise (Error denied_error)
  ∧ run.1 = Val true
  ∧ requests_sent (journal run.2)
    = [(target_db, Execute create_orders); (target_db, Execute create_audit_log)]
  ∧ (target_db, Execute (without_foreign_keys create_orders))
    ∉ requests_sent (journal run.2).
Proof.
  cbv zeta. split_and!; try (vm_compute; reflexivity).
  intros Hsent. apply (bool_decide_eq_true_2 _) in Hsent.
  vm_compute in Hsent. discriminate.
Qed.


(** C8 on a composite index: the diff reports [idx_customer_date] of
    [orders] with its two rows, [customer_id] then [order_date]; the index
    the executor creates holds [customer_id] alone. *)
Lemma composite_index_is_truncated :
  let differences := _compare_indexes orders_indexes primary_key in
  let run := _update_indexes "orders" differences drifted_world in
  differences
  = [missing_index "idx_customer_date"
       [index_row "idx_customer_date" 1 1 "customer_id";
        index_row "idx_customer_date" 1 2 "order_date"]]
  ∧ run.1 = Val true
  ∧ requests_sent (journal run.2)
    = [(target_db,
        ExecuteAll ["CREATE INDEX idx_customer_date ON orders (customer_id)"])].
Proof. vm_compute. done. Qed.

(** The batches of a copy of 2001 rows of which the second is refused:
    two requests of 1000 rows each, the first kept by the target, the third
    never sent, and [replicate_data] returns [False]. *)
Lemma second_batch_refused :
  let run := replicate_data ["customers"] crowded_world in
  run.1 = Val false
  ∧ requests_sent (journal run.2)
    = [(target_db, Truncate "customers");
       (target_db, ExecuteMany "INSERT INTO customers (`id`, `name`) VALUES (%s, %s)"
                               (take 1000 many_customers));
       (target_db, ExecuteMany "INSERT INTO customers (`id`, `name`) VALUES (%s, %s)"
                               (take 1000 (drop 1000 many_customers)))]
  ∧ select_all (target run.2) "customers" = Val (take 1000 many_customers).
Proof. vm_compute. done. Qed.

(** C4 on the columns, foreign keys and indexes of [orders]. *)
Lemma diff_self_is_empty_witness :
  _compare_structures orders_columns orders_columns = []
  ∧ @_compare_foreign_keys Scripted.walk orders_foreign_keys orders_foreign_keys = []
  ∧ _compare_indexes orders_indexes orders_indexes = [].
Proof.
  exact (@diff_self_is_empty Scripted.walk walk_laws
           orders_columns orders_foreign_keys orders_indexes).
Defined.

(** C5 on [orders] against [customers]. *)
Lemma diff_missing_extra_duality_witness :
  list_to_set (missing_columns (_compare_structures orders_columns customers_columns))
    =@{gset string}
    list_to_set (extra_columns (_compare_structures customers_columns orders_columns))
  ∧ list_to_set (missing_foreign_keys
                   (@_compare_foreign_keys Scripted.walk orders_foreign_keys []))
    =@{gset fk_key}
    list_to_set (extra_foreign_keys
                   (@_compare_foreign_keys Scripted.walk [] orders_foreign_keys))
  ∧ list_to_set (missing_indexes (_compare_indexes orders_indexes primary_key))
    =@{gset string}
    list_to_set (extra_indexes (_compare_indexes primary_key orders_indexes)).
Proof.
  exact (diff_missing_extra_duality Scripted.walk Scripted.walk walk_laws walk_laws
           orders_columns customers_columns orders_foreign_keys []
           orders_indexes primary_key).
Defined.

(** C3 on the three tables of the shop, two of which refer to each other. *)
Lemma scheduler_returns_permutation_witness :
  ∃ out, @Schedule.sort_tables_by_dependency Scripted.walk shop_fks shop_tables = Some out
         ∧ NoDup out ∧ (∀ t, t ∈ out ↔ t ∈ shop_tables)
         ∧ (NoDup shop_tables → out ≡ₚ shop_tables)
         ∧ (∀ w : World Scripted.DB,
              (∀ t, t ∈ shop_tables → key_column_usage (source w) t = Val (shop_fks t)) →
              _sort_tables_by_dependency shop_tables w = (Val out, w)).
Proof.
  exact (@scheduler_returns_permutation Scripted.DB Scripted.server Scripted.walk
           walk_laws shop_fks shop_tables).
Defined.

(** In the plain shop every foreign key leads to a table of lower rank. *)
Lemma plain_ranked x y :
  Schedule.depends plain_fks ["orders"; "customers"] x y →
  (plain_rank y < plain_rank x)%nat.
Proof.
  unfold Schedule.depends, Schedule.deps_in, plain_fks, plain_rank.
  destruct (decide (x = "orders")) as [->|Hx].
  - vm_compute. intros Hy. apply list_elem_of_In in Hy. simpl in Hy.
    destruct Hy as [<-|[]]. vm_compute. lia.
  - rewrite (bool_decide_eq_false_2 (x = "orders")) by done.
    intros Hy. apply list_elem_of_In in Hy. simpl in Hy. done.
Qed.

(** C6, as amended, on [orders] and [customers]. *)
Lemma scheduler_orders_acyclic_part_witness :
  ∃ out, @Schedule.sort_tables_by_dependency Scripted.walk plain_fks
           ["orders"; "customers"] = Some out
         ∧ ∀ d, Schedule.depends plain_fks ["orders"; "customers"] "orders" d →
                Schedule.before d "orders" out.
Proof.
  apply (@scheduler_orders_acyclic_part Scripted.walk walk_laws plain_fks
           ["orders"; "customers"] "orders").
  - apply (bool_decide_unpack _). vm_compute. exact I.
  - intros u _. exact (ranked_acyclic _ plain_rank plain_ranked u).
Defined.

(** C7: [email] goes after [name], the nearest earlier column of the source
    that the target has. *)
Lemma column_position_resolution_witness :
  Position.column_position ["id"; "name"; "email"; "created_at"]
    ["id"; "name"; "legacy_flag"] "email" = "AFTER `name`".
Proof.
  refine (proj1 (proj2 (@column_position_resolution Scripted.DB Scripted.server
                          ["id"; "name"; "email"; "created_at"]
                          ["id"; "name"; "legacy_flag"] "email" _))
            ["id"] "name" [] ["created_at"] eq_refl _ _ _).
  - apply (bool_decide_unpack _). vm_compute. exact I.
  - apply (bool_decide_unpack _). vm_compute. exact I.
  - apply (bool_decide_unpack _). vm_compute. exact I.
  - intros x Hx. apply list_elem_of_In in Hx. destruct Hx.
Defined.

(** C9 with no row in the source: the target is left as cleared. *)
Lemma data_copier_batches_witness :
  (∃ r w', clear_and_copy "customers" ["id"; "name"] emptied_world = (r, w')
           ∧ source w' = source emptied_world
           ∧ target w' = (serve (target emptied_world) (Truncate "customers")).2
           ∧ requests_sent (journal w')
             = requests_sent (journal emptied_world)
               ++ [(target_db, Truncate "customers")])
  ∧ replicate_table_data "customers" emptied_world
    = clear_and_copy "customers" (Field <$> customers_columns)
        (extend emptied_world [Log info "Replicando dados da tabela: customers"]).
Proof.
  destruct (data_copier_batches "customers" ["id"; "name"] [] emptied_world)
    as (_ & _ & _ & Hcopy & Hbody & _).
  split.
  - apply (Hcopy (serve (target emptied_world) (Truncate "customers")).2); reflexivity.
  - apply Hbody.
    + exists 1%Z. split; [reflexivity|lia].
    + exists 1%Z. split; [reflexivity|lia].
    + reflexivity.
    + discriminate.
Defined.

End Concrete.

(** * Further concrete runs *)

Section FurtherRuns.
Import Examples Scripted Plan DatabaseManager StructureAnalyzer Planner Replicator.
Import Journal Reads Requests.

(** The scripted server raises connector errors only. *)
Lemma scripted_connector_only (d : Scripted.DB) : connector_only d.
Proof.
  intros t msg. cbn. unfold read.
  split_and!; try done; by destruct (PyDict.get (tables d) t).
Qed.

(** The key and the auto-increment of [id] make no difference. *)
Lemma compare_structures_empty_witness :
  keyed_customers_columns ≠ customers_columns
  ∧ _compare_structures keyed_customers_columns customers_columns = [].
Proof.
  split; [discriminate|].
  apply (proj1 (compare_structures_empty keyed_customers_columns customers_columns)).
  reflexivity.
Defined.

(** The same key under two constraint names. *)
Lemma compare_foreign_keys_by_triple_witness :
  fk_set orders_foreign_keys = fk_set renamed_foreign_keys
  ∧ @_compare_foreign_keys walk orders_foreign_keys renamed_foreign_keys = [].
Proof.
  assert (fk_set orders_foreign_keys = fk_set renamed_foreign_keys) as Hsame
    by reflexivity.
  split; [exact Hsame|].
  destruct (@compare_foreign_keys_by_triple walk walk_laws orders_foreign_keys
              renamed_foreign_keys) as (_ & _ & _ & _ & _ & Hempty).
  exact (proj2 Hempty Hsame).
Defined.

(** The plan for the drifted target: no table to create, and no step for
    a table the source has not. *)
Lemma replication_plan_shape_witness :
  ∃ plan j,
    get_replication_plan ["orders"; "ghost"; "customers"] ["customers"] drifted_world
    = (Val plan, extend drifted_world j)
    ∧ requests_sent j = []
    ∧ sublist (table <$> plan) ["orders"; "ghost"; "customers"]
    ∧ tables_to_create plan = [].
Proof.
  destruct (@replication_plan_shape Scripted.DB server walk
              ["orders"; "ghost"; "customers"] ["customers"] drifted_world
              (scripted_connector_only _) (scripted_connector_only _))
    as (plan & j & Hrun & Hj & Hsub & _ & Hcreate & _).
  exists plan, j. split_and!; [exact Hrun|exact Hj|exact Hsub|].
  rewrite Hcreate. reflexivity.
Defined.

(** Of [customers] and [orders], the drifted target differs in [orders]. *)
Lemma analysis_summary_witness :
  ∃ summary j,
    analyze_all_tables ["customers"; "orders"] [] drifted_world
    = (Val summary, extend drifted_world j)
    ∧ total_tables summary = 2%nat
    ∧ tables_analyzed summary = 2%nat
    ∧ tables_with_differences summary = 1%nat.
Proof.
  destruct (@analysis_summary Scripted.DB server walk ["customers"; "orders"] []
              drifted_world (scripted_connector_only _) (scripted_connector_only _))
    as (summary & j & Hrun & _ & Htotal & Hanalyzed & Hcount & _).
  exists summary, j. split_and!; [exact Hrun|exact Htotal|exact Hanalyzed|].
  rewrite Hcount. reflexivity.
Defined.

Lemma no_difference_no_structural_action_witness :
  ∃ summary plan j1 j2,
    analyze_all_tables ["customers"] [] emptied_world
    = (Val summary, extend emptied_world j1)
    ∧ get_replication_plan ["customers"] [] emptied_world
      = (Val plan, extend emptied_world j2)
    ∧ (tables_with_differences summary = 0%nat →
       tables_to_create plan = [] ∧ tables_to_alter plan = []).
Proof.
  exact (@no_difference_no_structural_action Scripted.DB server walk ["customers"] []
           emptied_world (scripted_connector_only _) (scripted_connector_only _)).
Defined.

(** [customers] has the same structure on both sides. *)
Lemma synchronised_structure_untouched_witness :
  ∃ ok j,
    replicate_structure ["customers"; "ghost"] [] false emptied_world
    = (Val ok, extend emptied_world j)
    ∧ requests_sent j = []
    ∧ (ok = true
       ∨ false = true
         ∧ ∃ e, create_backup (target emptied_world) "production" ["customers"; "ghost"]
                = Raise e).
Proof.
  apply (@synchronised_structure_untouched Scripted.DB server backup walk walk_laws
           ["customers"; "ghost"] [] false emptied_world
           (scripted_connector_only _) (scripted_connector_only _)).
  intros table_name Hin Hpresent.
  apply elem_of_cons in Hin as [->|Hin]; [by split_and!|].
  apply list_elem_of_singleton in Hin as ->. discriminate Hpresent.
Defined.

(** The foreign key that the bare [orders] of the target lacks. *)
Lemma update_foreign_keys_requests_witness :
  ∃ queries ok w',
    _update_foreign_keys "orders" (_compare_foreign_keys orders_foreign_keys [])
      drifted_world
    = (Val ok, w')
    ∧ executes queries drifted_world ok w'
    ∧ Forall2 (fk_statement "orders" [])
              (_compare_foreign_keys orders_foreign_keys []) queries.
Proof.
  exact (@update_foreign_keys_requests Scripted.DB server walk walk_laws "orders"
           orders_foreign_keys [] drifted_world eq_refl).
Defined.

(** The index that the bare [orders] of the target lacks. *)
Lemma update_indexes_requests_witness :
  ∃ queries ok w',
    _update_indexes "orders" (_compare_indexes orders_indexes primary_key) drifted_world
    = (Val ok, w')
    ∧ executes queries drifted_world ok w'
    ∧ Forall2 (index_statement "orders" orders_indexes)
              (List.filter (λ diff, negb (primary diff))
                           (_compare_indexes orders_indexes primary_key))
              queries.
Proof.
  exact (@update_indexes_requests Scripted.DB server "orders" orders_indexes primary_key
           drifted_world eq_refl).
Defined.

(** A name that may be absent in the target and not in the source. *)
Lemma nullability_and_defaults_are_left_witness :
  length (_compare_structures customers_columns lenient_customers_columns) = 2%nat
  ∧ ∃ j, _alter_table "customers"
           (_compare_structures customers_columns lenient_customers_columns)
           emptied_world
         = (Val true, extend emptied_world j)
         ∧ requests_sent j = [].
Proof.
  split; [reflexivity|].
  exact (@nullability_and_defaults_are_left Scripted.DB server "customers"
           customers_columns lenient_customers_columns emptied_world eq_refl).
Defined.

(** The target refuses the statement of [orders]: one request, no other. *)
Lemma create_table_single_attempt_witness :
  ∃ j, _create_table "orders" refusing_world
       = (Val (accepted (serve (target refusing_world) (Execute create_orders)).1),
          extend (set_db target_db
                    (serve (target refusing_world) (Execute create_orders)).2
                    refusing_world) j)
       ∧ requests_sent j = [(target_db, Execute create_orders)].
Proof.
  apply (proj1 (@create_table_single_attempt Scripted.DB server "orders" refusing_world)
           create_orders eq_refl).
  - discriminate.
  - intros msg. discriminate.
Defined.

Lemma add_missing_foreign_keys_synchronised_witness :
  ∃ j, _add_missing_foreign_keys ["customers"] emptied_world
       = (Val true, extend emptied_world j)
       ∧ requests_sent j = [].
Proof.
  apply (@add_missing_foreign_keys_synchronised Scripted.DB server walk ["customers"]
           emptied_world (scripted_connector_only _) (scripted_connector_only _)).
  intros table_name Hin. apply list_elem_of_singleton in Hin as ->. reflexivity.
Defined.

(** No server answers. *)
Lemma failed_connection_aborts_witness :
  ∃ j, @full_replication Scripted.DB offline backup walk ["customers"] ["customers"] true
         emptied_world
       = (Val false, extend emptied_world j)
       ∧ Forall is_log j.
Proof.
  apply (@failed_connection_aborts Scripted.DB offline backup walk ["customers"]
           ["customers"] true emptied_world).
  left. discriminate.
Defined.

(** The disk of the backups is full. *)
Lemma failed_backup_aborts_witness :
  ∃ j, @replicate_structure Scripted.DB server full_disk walk ["orders"] [] true
         drifted_world
       = (Val false, extend drifted_world j)
       ∧ Forall is_log j
       ∧ Log error ("Erro na replicação de estrutura: "
                    +:+ str (Exception "[Errno 28] No space left on device")) ∈ j.
Proof.
  exact (@failed_backup_aborts Scripted.DB server full_disk walk ["orders"] []
           (Exception "[Errno 28] No space left on device") drifted_world eq_refl).
Defined.

(** [events] is in both databases and has no column. *)
Lemma table_without_columns_is_skipped_witness :
  ∃ j, replicate_table_data "events" hollow_world = (Val None, extend hollow_world j)
       ∧ Forall is_log j
       ∧ Log warning ("Tabela " +:+ "events" +:+ " não possui colunas") ∈ j.
Proof.
  apply (@table_without_columns_is_skipped Scripted.DB server "events" hollow_world).
  - exists 1%Z. split; [reflexivity|lia].
  - exists 1%Z. split; [reflexivity|lia].
  - left. reflexivity.
Defined.

(** [orders] refers to [customers], which is not in the list. *)
Lemma scheduler_without_dependencies_witness :
  @Schedule.sort_tables_by_dependency walk plain_fks ["orders"; "audit_log"]
  = Some (set_iter (list_to_set ["orders"; "audit_log"] : gset string)).
Proof.
  apply (@scheduler_without_dependencies walk walk_laws plain_fks ["orders"; "audit_log"]).
  intros t fk Hin Hfk Href. apply elem_of_cons in Hin as [->|Hin].
  - apply list_elem_of_singleton in Hfk as ->.
    apply (bool_decide_eq_true_2 _) in Href. discriminate Href.
  - apply list_elem_of_singleton in Hin as ->. by apply elem_of_nil in Hfk.
Defined.

(** The copy of [customers] is refused: [customers] is still there. *)
Lemma recreate_keeps_table_until_copied_witness :
  ∃ j, _recreate_table "customers" cramped_world
       = (Val false, extend cramped_world j)
       ∧ requests_sent j
         = [(target_db, Execute "DROP TABLE IF EXISTS customers_temp");
            (target_db,
             Execute "CREATE TABLE customers_temp AS SELECT * FROM customers")].
Proof.
  destruct (@recreate_keeps_table_until_copied Scripted.DB server "customers"
              cramped_world) as (j & Hrun & Hj).
  - intros msg. discriminate.
  - discriminate.
  - exists j. split; [exact Hrun|exact Hj].
Defined.
End FurtherRuns.
